(** * Linear webhook bridge: trigger ledger, signature check and ingestion paths

    A shallow embedding of [src/extensions/linear-webhook/index.ts]:
    [verifySignature], [readTriggerLog], [extractStoryFilePath],
    [writeTrigger] and the two handlers installed by [register] (the HTTP
    webhook route and the [linear-poll] command), together with the parts of
    the JavaScript run time they rely on ([JSON.parse], [JSON.stringify],
    string splitting, HMAC-SHA256). *)

From Stdlib Require Import String Ascii.
From Stdlib Require Import List Bool Arith ZArith NArith Lia.
Import ListNotations.

Set Warnings "-register-all".

(* ================================================================== *)
(** ** JavaScript strings *)
(* ================================================================== *)

(** A JavaScript string is a sequence of UTF-16 code units.  Regular
    expressions without the [u] flag, [split], [===] and [JSON.parse] all
    work on code units, so this is the representation used everywhere. *)
Definition jsstring := list N.

(** ASCII literal of the embedding: every character becomes its code unit. *)
Definition lit (s : string) : jsstring :=
  map N_of_ascii (list_ascii_of_string s).

(** The same, with every apostrophe turned into a double quote: a way to
    write JSON text in this file. *)
Definition jtext (s : string) : jsstring :=
  map (fun c => if N.eqb c 39 then 34%N else c) (lit s).

Fixpoint str_eqb (a b : jsstring) : bool :=
  match a, b with
  | [], [] => true
  | x :: a', y :: b' => N.eqb x y && str_eqb a' b'
  | _, _ => false
  end.

Definition is_nil {A} (l : list A) : bool :=
  match l with [] => true | _ => false end.

(** [strip_prefix p s] is [Some r] when [s = p ++ r]. *)
Fixpoint strip_prefix (p s : jsstring) : option jsstring :=
  match p with
  | [] => Some s
  | x :: p' =>
      match s with
      | y :: s' => if N.eqb x y then strip_prefix p' s' else None
      | [] => None
      end
  end.

(** [String.prototype.split] with a one-code-unit separator: the pieces
    between the separators, empty pieces included. *)
Fixpoint split_on (sep : N) (s : jsstring) : list jsstring :=
  match s with
  | [] => [[]]
  | c :: r =>
      if N.eqb c sep then [] :: split_on sep r
      else match split_on sep r with
           | p :: ps => (c :: p) :: ps
           | [] => [[c]]
           end
  end.

(* ================================================================== *)
(** ** JSON values *)
(* ================================================================== *)

(** What [JSON.parse] returns.  A number is kept as the decimal it was
    written as: [JNum m e] is the double nearest to [m * 10^e], see
    [to_double] below; every double but NaN, which no JSON text denotes, is
    of that form.  An object is the list of its own properties in the order
    JavaScript enumerates them: the keys that are array indices first, in
    ascending order, then the other keys in creation order. *)
Inductive json : Type :=
| JNull
| JBool (b : bool)
| JNum (m e : Z)
| JStr (s : jsstring)
| JArr (xs : list json)
| JObj (kvs : list (jsstring * json)).

(* ================================================================== *)
(** ** Numbers *)
(* ================================================================== *)

(** The value of a JavaScript number other than NaN, an IEEE 754 binary64.
    A finite double other than zero is [mant * 2^exp] with
    [2^52 <= mant < 2^53] and [-1074 <= exp <= 971], or with [mant < 2^52]
    and [exp = -1074] when it is subnormal, so that two doubles are the same
    number exactly when they are the same term.  The two zeros are not told
    apart: [===], ToBoolean, ToString and [JSON.stringify] do not tell them
    apart either. *)
Inductive double : Type :=
| DZero
| DFinite (neg : bool) (mant exp : Z)
| DInfinity (neg : bool).

(** The integer nearest to [n / d], the even one of two that are equally
    near; [0 <= n] and [0 < d]. *)
Definition round_half_even (n d : Z) : Z :=
  let q := (n / d)%Z in
  match Z.compare (2 * (n mod d)) d with
  | Lt => q
  | Gt => (q + 1)%Z
  | Eq => if Z.even q then q else (q + 1)%Z
  end.

(** The double a decimal literal denotes: [m * 10^e] rounded to nearest,
    ties to even.  [l] is the binary exponent of the exact value, [k] the
    exponent of the last bit kept; a mantissa rounded up to [2^53] moves to
    the next binade, and past the largest double the result is infinite. *)
Definition to_double (m e : Z) : double :=
  (if m =? 0 then DZero
   else
     let a := Z.abs m in
     let num := if 0 <=? e then a * 10 ^ e else a in
     let den := if 0 <=? e then 1 else 10 ^ (- e) in
     let l0 := Z.log2 num - Z.log2 den in
     let reached :=
       if 0 <=? l0 then den * 2 ^ l0 <=? num else den <=? num * 2 ^ (- l0) in
     let l := if reached then l0 else l0 - 1 in
     let k := Z.max (l - 52) (-1074) in
     let q :=
       if 0 <=? k then round_half_even num (den * 2 ^ k)
       else round_half_even (num * 2 ^ (- k)) den in
     let '(q, k) := if q =? 2 ^ 53 then (2 ^ 52, k + 1) else (q, k) in
     if q =? 0 then DZero
     else if 971 <? k then DInfinity (m <? 0)
     else DFinite (m <? 0) q k)%Z.

Definition double_eqb (a b : double) : bool :=
  match a, b with
  | DZero, DZero => true
  | DFinite s q k, DFinite s' q' k' => Bool.eqb s s' && Z.eqb q q' && Z.eqb k k'
  | DInfinity s, DInfinity s' => Bool.eqb s s'
  | _, _ => false
  end.

Arguments to_double : simpl never.

(* ================================================================== *)
(** ** Values *)
(* ================================================================== *)

(** A JavaScript value as the handlers see it: [None] is [undefined]. *)
Definition jsval := option json.


Fixpoint assoc (k : jsstring) (kvs : list (jsstring * json)) : jsval :=
  match kvs with
  | [] => None
  | (k', v) :: r => if str_eqb k k' then Some v else assoc k r
  end.

(** Property read [v.k] on a value that is neither [null] nor
    [undefined].  None of the property names read by the program exists on
    the prototypes of strings, numbers, booleans or arrays. *)
Definition prop (v : json) (k : jsstring) : jsval :=
  match v with
  | JObj kvs => assoc k kvs
  | _ => None
  end.

(** Optional chaining [v?.k]. *)
Definition optprop (v : jsval) (k : jsstring) : jsval :=
  match v with
  | None | Some JNull => None
  | Some o => prop o k
  end.

(** Nullish coalescing [a ?? b]. *)
Definition nullish (v : jsval) : bool :=
  match v with
  | None | Some JNull => true
  | _ => false
  end.

Definition coalesce (a b : jsval) : jsval := if nullish a then b else a.

(** ToBoolean. *)
Definition truthy (v : jsval) : bool :=
  match v with
  | None | Some JNull => false
  | Some (JBool b) => b
  | Some (JNum m e) =>
      match to_double m e with
      | DZero => false
      | _ => true
      end
  | Some (JStr s) => negb (is_nil s)
  | Some (JArr _) | Some (JObj _) => true
  end.

(** Strict equality [a === b] between two values of which at least one
    was freshly produced by [JSON.parse]: two objects or two arrays are then
    never the same reference.  Two numbers are equal when they are the same
    double. *)
Definition strict_eq (a b : jsval) : bool :=
  match a, b with
  | None, None => true
  | Some JNull, Some JNull => true
  | Some (JBool x), Some (JBool y) => Bool.eqb x y
  | Some (JNum m e), Some (JNum m' e') =>
      double_eqb (to_double m e) (to_double m' e')
  | Some (JStr s), Some (JStr t) => str_eqb s t
  | _, _ => false
  end.

Definition jstr (s : jsstring) : jsval := Some (JStr s).

(* ================================================================== *)
(** ** JSON.stringify *)
(* ================================================================== *)

Definition hex_digit (n : N) : N :=
  if N.ltb n 10 then (48 + n)%N else (87 + n)%N.

(** The six code units of the escape [\uXXXX] (lower-case digits). *)
Definition u_escape (c : N) : jsstring :=
  [92; 117; hex_digit (c / 4096); hex_digit ((c / 256) mod 16);
   hex_digit ((c / 16) mod 16); hex_digit (c mod 16)]%N.

Definition is_high_surrogate (c : N) : bool :=
  N.leb 55296 c && N.leb c 56319.

Definition is_low_surrogate (c : N) : bool :=
  N.leb 56320 c && N.leb c 57343.

(** QuoteJSONString without the enclosing quotes: the quote, the backslash
    and the control characters are escaped, and so is a surrogate that is not
    part of a pair. *)
Fixpoint quote_body (s : jsstring) : jsstring :=
  match s with
  | [] => []
  | c :: r =>
      if N.eqb c 34 then 92 :: 34 :: quote_body r
      else if N.eqb c 92 then 92 :: 92 :: quote_body r
      else if N.eqb c 8 then 92 :: 98 :: quote_body r
      else if N.eqb c 12 then 92 :: 102 :: quote_body r
      else if N.eqb c 10 then 92 :: 110 :: quote_body r
      else if N.eqb c 13 then 92 :: 114 :: quote_body r
      else if N.eqb c 9 then 92 :: 116 :: quote_body r
      else if N.ltb c 32 then u_escape c ++ quote_body r
      else if is_high_surrogate c then
        match r with
        | d :: r' =>
            if is_low_surrogate d then c :: d :: quote_body r'
            else u_escape c ++ quote_body r
        | [] => u_escape c
        end
      else if is_low_surrogate c then u_escape c ++ quote_body r
      else c :: quote_body r
  end%N.

Definition quote (s : jsstring) : jsstring := 34%N :: quote_body s ++ [34%N].

Fixpoint uint_digits (u : Decimal.uint) : jsstring :=
  match u with
  | Decimal.Nil => []
  | Decimal.D0 r => 48 :: uint_digits r
  | Decimal.D1 r => 49 :: uint_digits r
  | Decimal.D2 r => 50 :: uint_digits r
  | Decimal.D3 r => 51 :: uint_digits r
  | Decimal.D4 r => 52 :: uint_digits r
  | Decimal.D5 r => 53 :: uint_digits r
  | Decimal.D6 r => 54 :: uint_digits r
  | Decimal.D7 r => 55 :: uint_digits r
  | Decimal.D8 r => 56 :: uint_digits r
  | Decimal.D9 r => 57 :: uint_digits r
  end%N.

Definition nat_digits (n : N) : jsstring := uint_digits (N.to_uint n).

(** The notation of Number::toString for the digits [m] scaled by [10^e],
    [m] without trailing zero: with [k] digits and [n = k + e], plain
    notation when [-6 < n <= 21] and exponent notation otherwise. *)
Definition decimal_to_string (m e : Z) : jsstring :=
  if Z.eqb m 0 then [48%N]
  else
    let sign := if Z.ltb m 0 then [45%N] else [] in
    let ds := nat_digits (Z.to_N (Z.abs m)) in
    let k := Z.of_nat (length ds) in
    let n := (k + e)%Z in
    sign ++
    (if Z.leb k n && Z.leb n 21 then
       ds ++ repeat 48%N (Z.to_nat (n - k))
     else if Z.ltb 0 n && Z.leb n 21 then
       firstn (Z.to_nat n) ds ++ 46%N :: skipn (Z.to_nat n) ds
     else if Z.ltb (-6) n && Z.leb n 0 then
       48%N :: 46%N :: repeat 48%N (Z.to_nat (- n)) ++ ds
     else
       let x := (n - 1)%Z in
       let ex := (if Z.ltb x 0 then 45%N else 43%N)
                   :: nat_digits (Z.to_N (Z.abs x)) in
       match ds with
       | [d] => d :: 101%N :: ex
       | d :: ds' => d :: 46%N :: ds' ++ 101%N :: ex
       | [] => []
       end).

(** [v < 10^x] for the positive rational [v = vn / vd]. *)
Definition below_pow10 (vn vd x : Z) : bool :=
  (if 0 <=? x then vn <? vd * 10 ^ x else vn * 10 ^ (- x) <? vd)%Z.

(** The [n] with [10^(n-1) <= v < 10^n], looked for downwards from an [n]
    that is large enough. *)
Fixpoint decimal_point (fuel : nat) (vn vd n : Z) : Z :=
  match fuel with
  | O => n
  | S f =>
      if below_pow10 vn vd (n - 1) then decimal_point f vn vd (n - 1)%Z else n
  end.

(** The [p]-digit decimal to print for the double [q * 2^k] of value
    [v = vn / vd < 10^n], if there is one: of the two [p]-digit decimals
    around [v], the nearer one that reads back as the same double (the even
    one when both are as near).  With [forced] the nearer one is taken
    anyway. *)
Definition digits_candidate (q k vn vd n p : Z) (forced : bool) : option Z :=
  (let x := n - p in
   let N := if 0 <=? x then vn else vn * 10 ^ (- x) in
   let D := if 0 <=? x then vd * 10 ^ x else vd in
   let lo := N / D in
   let hi := lo + 1 in
   let ok s := double_eqb (to_double s x) (DFinite false q k) in
   let lo_first :=
     match Z.compare (2 * (N mod D)) D with
     | Lt => true
     | Gt => false
     | Eq => Z.even lo
     end in
   let first := if lo_first then lo else hi in
   let second := if lo_first then hi else lo in
   if ok first then Some first
   else if ok second then Some second
   else if forced then Some first else None)%Z.

(** As few digits as possible, from [p] digits on. *)
Fixpoint shortest_from (more : nat) (q k vn vd n p : Z) : Z * Z :=
  match more with
  | O =>
      match digits_candidate q k vn vd n p true with
      | Some s => (s, (n - p)%Z)
      | None => (0%Z, 0%Z)
      end
  | S m =>
      match digits_candidate q k vn vd n p false with
      | Some s => (s, (n - p)%Z)
      | None => shortest_from m q k vn vd n (p + 1)%Z
      end
  end.

(** [s * 10^x] with the trailing zeros of [s] moved into the exponent. *)
Fixpoint strip_zeros (fuel : nat) (s x : Z) : Z * Z :=
  match fuel with
  | O => (s, x)
  | S f => if (s mod 10 =? 0)%Z then strip_zeros f (s / 10)%Z (x + 1)%Z else (s, x)
  end.

(** The digits [s] and the exponent [x] that Number::toString prints for
    the double [q * 2^k]: the shortest decimal [s * 10^x] that reads back as
    that double, and the nearest to it among those.  Seventeen digits always
    do. *)
Definition shortest_decimal (q k : Z) : Z * Z :=
  (let vn := if 0 <=? k then q * 2 ^ k else q in
   let vd := if 0 <=? k then 1 else 2 ^ (- k) in
   let start := ((Z.log2 vn - Z.log2 vd + 1) * 30103) / 100000 + 2 in
   let n := decimal_point 8 vn vd start in
   let '(s, x) := shortest_from 16 q k vn vd n 1 in
   strip_zeros 17 s x)%Z.

(** Number::toString. *)
Definition number_to_string (m e : Z) : jsstring :=
  match to_double m e with
  | DZero => [48%N]
  | DInfinity neg => (if neg then [45%N] else []) ++ lit "Infinity"
  | DFinite neg q k =>
      let '(s, x) := shortest_decimal q k in
      decimal_to_string (if neg then (- s)%Z else s) x
  end.

Arguments number_to_string : simpl never.

Fixpoint join (sep : jsstring) (l : list jsstring) : jsstring :=
  match l with
  | [] => []
  | [x] => x
  | x :: r => x ++ sep ++ join sep r
  end.

(** [JSON.stringify(v)] for a value that came out of [JSON.parse] or was
    built from such values and strings.  A number that is not finite prints
    as [null]. *)
Fixpoint JSON_stringify (v : json) : jsstring :=
  match v with
  | JNull => lit "null"
  | JBool true => lit "true"
  | JBool false => lit "false"
  | JNum m e =>
      match to_double m e with
      | DInfinity _ => lit "null"
      | _ => number_to_string m e
      end
  | JStr s => quote s
  | JArr xs => 91%N :: join [44%N] (map JSON_stringify xs) ++ [93%N]
  | JObj kvs =>
      123%N ::
      join [44%N]
        (map (fun kv => quote (fst kv) ++ 58%N :: JSON_stringify (snd kv)) kvs)
      ++ [125%N]
  end.

(* ================================================================== *)
(** ** JSON.parse *)
(* ================================================================== *)

Definition is_ws (c : N) : bool :=
  N.eqb c 32 || N.eqb c 9 || N.eqb c 10 || N.eqb c 13.

Fixpoint skip_ws (s : jsstring) : jsstring :=
  match s with
  | c :: r => if is_ws c then skip_ws r else s
  | [] => []
  end.

Definition hexval (c : N) : option N :=
  if N.leb 48 c && N.leb c 57 then Some (c - 48)%N
  else if N.leb 97 c && N.leb c 102 then Some (c - 87)%N
  else if N.leb 65 c && N.leb c 70 then Some (c - 55)%N
  else None.

(** The character denoted by a one-letter escape. *)
Definition unescape (e : N) : option N :=
  (if N.eqb e 34 then Some 34
   else if N.eqb e 92 then Some 92
   else if N.eqb e 47 then Some 47
   else if N.eqb e 98 then Some 8
   else if N.eqb e 102 then Some 12
   else if N.eqb e 110 then Some 10
   else if N.eqb e 114 then Some 13
   else if N.eqb e 116 then Some 9
   else None)%N.

Definition cons_fst (c : N) (r : option (jsstring * jsstring))
  : option (jsstring * jsstring) :=
  match r with
  | Some (t, rest) => Some (c :: t, rest)
  | None => None
  end.

(** The rest of a string literal after its opening quote: the decoded
    string and what follows the closing quote. *)
Fixpoint parse_string_body (s : jsstring) : option (jsstring * jsstring) :=
  match s with
  | [] => None
  | c :: r =>
      if N.eqb c 34 then Some ([], r)
      else if N.eqb c 92 then
        match r with
        | [] => None
        | e :: r1 =>
            if N.eqb e 117 then
              match r1 with
              | h1 :: h2 :: h3 :: h4 :: r2 =>
                  match hexval h1, hexval h2, hexval h3, hexval h4 with
                  | Some a, Some b, Some c', Some d =>
                      cons_fst (a * 4096 + b * 256 + c' * 16 + d)%N
                               (parse_string_body r2)
                  | _, _, _, _ => None
                  end
              | _ => None
              end
            else
              match unescape e with
              | Some x => cons_fst x (parse_string_body r1)
              | None => None
              end
        end
      else if N.ltb c 32 then None
      else cons_fst c (parse_string_body r)
  end.

Definition is_digit (c : N) : bool := N.leb 48 c && N.leb c 57.

Fixpoint take_digits (s : jsstring) : jsstring * jsstring :=
  match s with
  | c :: r =>
      if is_digit c then let '(ds, rest) := take_digits r in (c :: ds, rest)
      else ([], s)
  | [] => ([], [])
  end.

Definition digits_value (ds : jsstring) : Z :=
  fold_left (fun acc d => (acc * 10 + (Z.of_N d - 48))%Z) ds 0%Z.

Fixpoint drop_zeros (ds : jsstring) : jsstring :=
  match ds with
  | c :: r => if N.eqb c 48 then drop_zeros r else ds
  | [] => []
  end.

(** The normalised decimal of the digit string [ds] scaled by [10^e]. *)
Definition normal_decimal (neg : bool) (ds : jsstring) (e : Z) : json :=
  let sig := rev (drop_zeros (rev ds)) in
  let m := digits_value sig in
  if Z.eqb m 0 then JNum 0 0
  else JNum (if neg then (- m)%Z else m)
            (e + Z.of_nat (length ds - length sig))%Z.

(** A JSON number: an optional minus sign, an integer part (a single zero,
    or digits that do not start with zero), an optional fraction (a dot and
    at least one digit) and an optional exponent (e or E, an optional sign,
    at least one digit). *)
Definition parse_number (s : jsstring) : option (json * jsstring) :=
  let '(neg, s1) :=
    match s with
    | c :: r => if N.eqb c 45 then (true, r) else (false, s)
    | [] => (false, s)
    end in
  let int_part :=
    match s1 with
    | c :: r =>
        if N.eqb c 48 then Some ([48%N], r)
        else if is_digit c then Some (take_digits s1)
        else None
    | [] => None
    end in
  match int_part with
  | None => None
  | Some (ip, s2) =>
      let frac_part :=
        match s2 with
        | c :: r =>
            if N.eqb c 46 then
              let '(fp, r') := take_digits r in
              if is_nil fp then None else Some (fp, r')
            else Some ([], s2)
        | [] => Some ([], s2)
        end in
      match frac_part with
      | None => None
      | Some (fp, s3) =>
          let exp_part :=
            match s3 with
            | c :: r =>
                if N.eqb c 101 || N.eqb c 69 then
                  let '(eneg, r1) :=
                    match r with
                    | g :: r0 =>
                        if N.eqb g 45 then (true, r0)
                        else if N.eqb g 43 then (false, r0)
                        else (false, r)
                    | [] => (false, r)
                    end in
                  let '(ep, r2) := take_digits r1 in
                  if is_nil ep then None
                  else Some (if eneg then (- digits_value ep)%Z
                             else digits_value ep, r2)
                else Some (0%Z, s3)
            | [] => Some (0%Z, s3)
            end in
          match exp_part with
          | None => None
          | Some (ex, s4) =>
              Some (normal_decimal neg (ip ++ fp)
                      (ex - Z.of_nat (length fp))%Z, s4)
          end
      end
  end.

(** The array index a property key denotes, if any: a decimal numeral
    without leading zero, at most [2^32 - 2]. *)
Definition array_index (k : jsstring) : option Z :=
  match k with
  | [] => None
  | c :: r =>
      if forallb is_digit k && (negb (N.eqb c 48) || is_nil r) then
        if (digits_value k <=? 4294967294)%Z then Some (digits_value k)
        else None
      else None
  end.

(** A key that is already there keeps its place and takes the new value. *)
Fixpoint obj_replace (k : jsstring) (v : json) (kvs : list (jsstring * json))
  : list (jsstring * json) :=
  match kvs with
  | [] => []
  | (k', v') :: r =>
      if str_eqb k k' then (k', v) :: r else (k', v') :: obj_replace k v r
  end.

(** A new key that is the array index [i] goes after the smaller indices
    and before everything else. *)
Fixpoint obj_add_index (i : Z) (k : jsstring) (v : json)
         (kvs : list (jsstring * json)) : list (jsstring * json) :=
  match kvs with
  | [] => [(k, v)]
  | (k', v') :: r =>
      match array_index k' with
      | Some j =>
          if (j <? i)%Z then (k', v') :: obj_add_index i k v r
          else (k, v) :: kvs
      | None => (k, v) :: kvs
      end
  end.

(** Defining a property on an object under construction, in the order of
    enumeration: a repeated key keeps its place and takes the new value, a
    new array index goes among the indices, any other new key goes last. *)
Definition obj_set (k : jsstring) (v : json) (kvs : list (jsstring * json))
  : list (jsstring * json) :=
  match assoc k kvs with
  | Some _ => obj_replace k v kvs
  | None =>
      match array_index k with
      | Some i => obj_add_index i k v kvs
      | None => kvs ++ [(k, v)]
      end
  end.

Definition make_object (kvs : list (jsstring * json)) : json :=
  JObj (fold_left (fun acc kv => obj_set (fst kv) (snd kv) acc) kvs []).

(** Recursive descent over the JSON grammar; [fuel] bounds the number of
    nested calls and [JSON_parse] supplies more than any text can use. *)
Fixpoint parse_value (fuel : nat) (s : jsstring) : option (json * jsstring) :=
  match fuel with
  | O => None
  | S f =>
      match skip_ws s with
      | [] => None
      | c :: r =>
          if N.eqb c 34 then
            match parse_string_body r with
            | Some (t, rest) => Some (JStr t, rest)
            | None => None
            end
          else if N.eqb c 91 then
            match skip_ws r with
            | d :: r' =>
                if N.eqb d 93 then Some (JArr [], r')
                else match parse_elems f r with
                     | Some (vs, rest) => Some (JArr vs, rest)
                     | None => None
                     end
            | [] => None
            end
          else if N.eqb c 123 then
            match skip_ws r with
            | d :: r' =>
                if N.eqb d 125 then Some (JObj [], r')
                else match parse_members f r with
                     | Some (kvs, rest) => Some (make_object kvs, rest)
                     | None => None
                     end
            | [] => None
            end
          else if N.eqb c 45 || is_digit c then parse_number (c :: r)
          else
            match strip_prefix (lit "null") (c :: r) with
            | Some rest => Some (JNull, rest)
            | None =>
                match strip_prefix (lit "true") (c :: r) with
                | Some rest => Some (JBool true, rest)
                | None =>
                    match strip_prefix (lit "false") (c :: r) with
                    | Some rest => Some (JBool false, rest)
                    | None => None
                    end
                end
            end
      end
  end

with parse_elems (fuel : nat) (s : jsstring)
  : option (list json * jsstring) :=
  match fuel with
  | O => None
  | S f =>
      match parse_value f s with
      | None => None
      | Some (v, r) =>
          match skip_ws r with
          | c :: r' =>
              if N.eqb c 44 then
                match parse_elems f r' with
                | Some (vs, rest) => Some (v :: vs, rest)
                | None => None
                end
              else if N.eqb c 93 then Some ([v], r')
              else None
          | [] => None
          end
      end
  end

with parse_members (fuel : nat) (s : jsstring)
  : option (list (jsstring * json) * jsstring) :=
  match fuel with
  | O => None
  | S f =>
      match skip_ws s with
      | c :: r =>
          if N.eqb c 34 then
            match parse_string_body r with
            | Some (k, r1) =>
                match skip_ws r1 with
                | c1 :: r2 =>
                    if N.eqb c1 58 then
                      match parse_value f r2 with
                      | Some (v, r3) =>
                          match skip_ws r3 with
                          | c2 :: r4 =>
                              if N.eqb c2 44 then
                                match parse_members f r4 with
                                | Some (kvs, rest) => Some ((k, v) :: kvs, rest)
                                | None => None
                                end
                              else if N.eqb c2 125 then Some ([(k, v)], r4)
                              else None
                          | [] => None
                          end
                      | None => None
                      end
                    else None
                | [] => None
                end
            | None => None
            end
          else None
      | [] => None
      end
  end.

(** [JSON.parse(s)]: [None] is the [SyntaxError] it throws. *)
Definition JSON_parse (s : jsstring) : option json :=
  match parse_value (2 * length s + 2) s with
  | Some (v, rest) => if is_nil (skip_ws rest) then Some v else None
  | None => None
  end.

(* ================================================================== *)
(** ** HMAC-SHA256, as [createHmac("sha256", key).update(data).digest("hex")] *)
(* ================================================================== *)

(** The UTF-8 encoding Node applies to a string given as key or data: a
    surrogate pair is one four-byte character, a lone surrogate is replaced
    by U+FFFD. *)
Fixpoint utf8_encode (s : jsstring) : list Z :=
  match s with
  | [] => []
  | c :: r =>
      let u := Z.of_N c in
      if N.ltb c 128 then u :: utf8_encode r
      else if N.ltb c 2048 then
        (192 + u / 64) :: (128 + u mod 64) :: utf8_encode r
      else if is_high_surrogate c then
        match r with
        | d :: r' =>
            if is_low_surrogate d then
              let p := 65536 + (u - 55296) * 1024 + (Z.of_N d - 56320) in
              (240 + p / 262144) :: (128 + (p / 4096) mod 64)
              :: (128 + (p / 64) mod 64) :: (128 + p mod 64) :: utf8_encode r'
            else 239 :: 191 :: 189 :: utf8_encode r
        | [] => [239; 191; 189]
        end
      else if is_low_surrogate c then 239 :: 191 :: 189 :: utf8_encode r
      else
        (224 + u / 4096) :: (128 + (u / 64) mod 64) :: (128 + u mod 64)
        :: utf8_encode r
  end%Z.

Module SHA256.

Local Open Scope Z_scope.

(** Words are 32-bit unsigned integers; additions wrap around. *)
Definition add32 (a b : Z) : Z := (a + b) mod 4294967296.

Definition rotr (n x : Z) : Z :=
  Z.lor (Z.shiftr x n) (Z.shiftl x (32 - n) mod 4294967296).

Definition Ch (x y z : Z) : Z := Z.lxor (Z.land x y) (Z.ldiff z x).

Definition Maj (x y z : Z) : Z :=
  Z.lxor (Z.lxor (Z.land x y) (Z.land x z)) (Z.land y z).

Definition Sigma0 (x : Z) : Z :=
  Z.lxor (Z.lxor (rotr 2 x) (rotr 13 x)) (rotr 22 x).

Definition Sigma1 (x : Z) : Z :=
  Z.lxor (Z.lxor (rotr 6 x) (rotr 11 x)) (rotr 25 x).

Definition sigma0 (x : Z) : Z :=
  Z.lxor (Z.lxor (rotr 7 x) (rotr 18 x)) (Z.shiftr x 3).

Definition sigma1 (x : Z) : Z :=
  Z.lxor (Z.lxor (rotr 17 x) (rotr 19 x)) (Z.shiftr x 10).

Definition K : list Z :=
  [1116352408; 1899447441; 3049323471; 3921009573; 961987163; 1508970993;
   2453635748; 2870763221; 3624381080; 310598401; 607225278; 1426881987;
   1925078388; 2162078206; 2614888103; 3248222580; 3835390401; 4022224774;
   264347078; 604807628; 770255983; 1249150122; 1555081692; 1996064986;
   2554220882; 2821834349; 2952996808; 3210313671; 3336571891; 3584528711;
   113926993; 338241895; 666307205; 773529912; 1294757372; 1396182291;
   1695183700; 1986661051; 2177026350; 2456956037; 2730485921; 2820302411;
   3259730800; 3345764771; 3516065817; 3600352804; 4094571909; 275423344;
   430227734; 506948616; 659060556; 883997877; 958139571; 1322822218;
   1537002063; 1747873779; 1955562222; 2024104815; 2227730452; 2361852424;
   2428436474; 2756734187; 3204031479; 3329325298].

Definition H0 : list Z :=
  [1779033703; 3144134277; 1013904242; 2773480762; 1359893119; 2600822924;
   528734635; 1541459225].

(** The message followed by the bit 1, zeros, and its length in bits on
    eight bytes, to a multiple of 64 bytes. *)
Definition pad (msg : list Z) : list Z :=
  let len := Z.of_nat (length msg) in
  let zeros := Z.to_nat ((55 - len) mod 64) in
  let bits := len * 8 in
  msg ++ 128 :: repeat 0 zeros
      ++ map (fun i => (bits / 2 ^ (8 * (7 - Z.of_nat i))) mod 256) (seq 0 8).

Fixpoint words (bytes : list Z) : list Z :=
  match bytes with
  | a :: b :: c :: d :: r =>
      (a * 16777216 + b * 65536 + c * 256 + d) :: words r
  | _ => []
  end.

Fixpoint chunks {A} (n : nat) (fuel : nat) (l : list A) : list (list A) :=
  match fuel with
  | O => []
  | S f =>
      match l with
      | [] => []
      | _ => firstn n l :: chunks n f (skipn n l)
      end
  end.

(** The message schedule, most recent word first. *)
Fixpoint schedule (n : nat) (w : list Z) : list Z :=
  match n with
  | O => w
  | S n' =>
      schedule n'
        (add32 (add32 (sigma1 (nth 1 w 0)) (nth 6 w 0))
               (add32 (sigma0 (nth 14 w 0)) (nth 15 w 0)) :: w)
  end.

Definition round (st : list Z) (kw : Z * Z) : list Z :=
  match st with
  | [a; b; c; d; e; f; g; h] =>
      let t1 := add32 (add32 (add32 h (Sigma1 e)) (Ch e f g))
                      (add32 (fst kw) (snd kw)) in
      let t2 := add32 (Sigma0 a) (Maj a b c) in
      [add32 t1 t2; a; b; c; add32 d t1; e; f; g]
  | _ => st
  end.

Definition compress (st : list Z) (block : list Z) : list Z :=
  let w := rev (schedule 48 (rev block)) in
  map (fun p => add32 (fst p) (snd p))
      (combine st (fold_left round (combine K w) st)).

Definition hash_words (msg : list Z) : list Z :=
  let ws := words (pad msg) in
  fold_left compress (chunks 16 (length ws) ws) H0.

Definition word_bytes (w : Z) : list Z :=
  [w / 16777216; (w / 65536) mod 256; (w / 256) mod 256; w mod 256].

Definition hash (msg : list Z) : list Z := flat_map word_bytes (hash_words msg).

(** HMAC with the 64-byte block of SHA-256. *)
Definition hmac (key msg : list Z) : list Z :=
  let k0 := if Nat.ltb 64 (length key) then hash key else key in
  let k := k0 ++ repeat 0 (64 - length k0) in
  hash (map (Z.lxor 92) k ++ hash (map (Z.lxor 54) k ++ msg)).

Definition hex (bytes : list Z) : jsstring :=
  flat_map (fun b => [hex_digit (Z.to_N (b / 16)); hex_digit (Z.to_N (b mod 16))])
           bytes.

End SHA256.

Definition hmac_sha256_hex (key data : jsstring) : jsstring :=
  SHA256.hex (SHA256.hmac (utf8_encode key) (utf8_encode data)).

(* ================================================================== *)
(** ** Signature check *)
(* ================================================================== *)

(** [!s] on a string. *)
Definition str_falsy (s : jsstring) : bool := is_nil s.

Definition verifySignature (body signature secret : jsstring) : bool :=
  if str_falsy secret || str_falsy signature then false
  else
    let computed := hmac_sha256_hex secret body in
    str_eqb computed signature.

(* ================================================================== *)
(** ** Exceptions *)
(* ================================================================== *)

Inductive exn : Type := SyntaxError | TypeError.

(** A computation that returns a value or throws. *)
Inductive result (A : Type) : Type :=
| Ok (a : A)
| Throw (e : exn).

Arguments Ok {A} a.
Arguments Throw {A} e.

Definition bind {A B} (r : result A) (k : A -> result B) : result B :=
  match r with
  | Ok a => k a
  | Throw e => Throw e
  end.

Notation "x <- r ;; k" := (bind r (fun x => k))
  (at level 61, r at next level, right associativity).

(** [xs.map(f)] for a callback that may throw: the first exception
    propagates. *)
Fixpoint map_result {A B} (f : A -> result B) (xs : list A) : result (list B) :=
  match xs with
  | [] => Ok []
  | x :: r =>
      y <- f x ;;
      ys <- map_result f r ;;
      Ok (y :: ys)
  end.

Definition JSON_parse_exn (s : jsstring) : result json :=
  match JSON_parse s with
  | Some v => Ok v
  | None => Throw SyntaxError
  end.

(* ================================================================== *)
(** ** The trigger ledger *)
(* ================================================================== *)

Definition IN_DEV_STATE_ID : jsstring :=
  lit "99a123f5-1bda-48b0-b0b2-38246e2a50d2".

Inductive Source : Type := webhook | poll.

Definition source_name (s : Source) : jsstring :=
  match s with
  | webhook => lit "webhook"
  | poll => lit "poll"
  end.

(** The argument of [writeTrigger], [Omit<TriggerEntry, "status">].  The
    type annotation makes [issueId] and [issueTitle] strings, but both
    callers pass values read from parsed JSON behind a cast, so the record
    keeps them as run-time values. *)
Record TriggerInput : Type := {
  issueId : jsval;
  issueTitle : jsval;
  stateId : jsstring;
  triggeredAt : jsstring;
  source : Source;
  storyFilePath : option jsstring
}.

(** The ledger file: [None] when it does not exist, its text otherwise. *)
Definition file := option jsstring.

(** [lines.filter(Boolean)] on strings keeps the non-empty ones. *)
Definition nonempty (l : jsstring) : bool := negb (is_nil l).

Definition readTriggerLog (triggerFile : file) : result (list json) :=
  match triggerFile with
  | None => Ok []
  | Some content =>
      let lines := filter nonempty (split_on 10 content) in
      map_result JSON_parse_exn lines
  end.

(** The class [\s] of a regular expression. *)
Definition is_space (c : N) : bool :=
  (N.leb 9 c && N.leb c 13) || N.eqb c 32 || N.eqb c 160 || N.eqb c 5760
  || (N.leb 8192 c && N.leb c 8202) || N.eqb c 8232 || N.eqb c 8233
  || N.eqb c 8239 || N.eqb c 8287 || N.eqb c 12288 || N.eqb c 65279.

(** The class of the pattern: anything but white space, the two quotes and
    the closing parenthesis. *)
Definition path_char (c : N) : bool :=
  negb (is_space c || N.eqb c 34 || N.eqb c 39 || N.eqb c 41).

Definition story_root : jsstring := lit "_bmad-output/stories/".
Definition md_ext : jsstring := lit ".md".

(** The greedy [+] followed by the literal extension, matched at the head
    of [s]: the class takes as many characters as it can and gives them back
    one at a time until the extension follows. *)
Fixpoint class_plus_ext (s : jsstring) : option jsstring :=
  match s with
  | [] => None
  | c :: r =>
      if path_char c then
        match class_plus_ext r with
        | Some t => Some (c :: t)
        | None =>
            match strip_prefix md_ext r with
            | Some _ => Some (c :: md_ext)
            | None => None
            end
        end
      else None
  end.

(** The whole pattern matched at the head of [s]. *)
Definition story_match_at (s : jsstring) : option jsstring :=
  match strip_prefix story_root s with
  | Some r => option_map (app story_root) (class_plus_ext r)
  | None => None
  end.

(** [s.match(re)] for the pattern without flags: the match at the leftmost
    position that has one. *)
Fixpoint story_search (s : jsstring) : option jsstring :=
  match story_match_at s with
  | Some m => Some m
  | None =>
      match s with
      | [] => None
      | _ :: r => story_search r
      end
  end.

(** [Ok None] is the [null] of the source.  A truthy value that is not a
    string has no callable [match]. *)
Definition extractStoryFilePath (description : jsval)
  : result (option jsstring) :=
  if negb (truthy description) then Ok None
  else match description with
       | Some (JStr s) => Ok (story_search s)
       | _ => Throw TypeError
       end.

Definition is_active_status (st : jsval) : bool :=
  strict_eq st (jstr (lit "pending")) || strict_eq st (jstr (lit "spawned")).

(** [existing.some(e => e.issueId === id && (e.status === "pending" ||
    e.status === "spawned"))]: reading a property of [null] throws, and the
    scan stops at the first hit. *)
Fixpoint some_active (id : jsval) (existing : list json) : result bool :=
  match existing with
  | [] => Ok false
  | e :: r =>
      match e with
      | JNull => Throw TypeError
      | _ =>
          if strict_eq (prop e (lit "issueId")) id
             && is_active_status (prop e (lit "status"))
          then Ok true
          else some_active id r
      end
  end.

Definition field (k : string) (v : jsval) : list (jsstring * json) :=
  match v with
  | Some j => [(lit k, j)]
  | None => []
  end.

Definition nullable (s : option jsstring) : json :=
  match s with
  | Some p => JStr p
  | None => JNull
  end.

(** [{ ...entry, status }] as [JSON.stringify] sees it: a property whose
    value is [undefined] is left out. *)
Definition entry_object (entry : TriggerInput) (status : jsstring) : json :=
  JObj (field "issueId" (issueId entry)
        ++ field "issueTitle" (issueTitle entry)
        ++ [(lit "stateId", JStr (stateId entry));
            (lit "triggeredAt", JStr (triggeredAt entry));
            (lit "source", JStr (source_name (source entry)));
            (lit "storyFilePath", nullable (storyFilePath entry));
            (lit "status", JStr status)]).

(** [appendFileSync]: creates the file when it does not exist. *)
Definition appendFile (f : file) (data : jsstring) : file :=
  match f with
  | None => Some data
  | Some content => Some (content ++ data)
  end.

(** [writeTrigger]: the flag returned and the file afterwards. *)
Definition writeTrigger (triggerFile : file) (entry : TriggerInput)
  : result (bool * file) :=
  existing <- readTriggerLog triggerFile ;;
  alreadyExists <- some_active (issueId entry) existing ;;
  if alreadyExists then Ok (false, triggerFile)
  else
    let fullEntry := entry_object entry (lit "pending") in
    Ok (true, appendFile triggerFile (JSON_stringify fullEntry ++ [10%N])).

(* ================================================================== *)
(** ** String conversion of parsed values *)
(* ================================================================== *)

(** ToString, as applied by a template literal.  An array is joined with
    commas, [null] elements giving the empty string.  An object without an
    own [toString] property prints through [Object.prototype.toString]; one
    that has such a property (never callable in parsed JSON) cannot be
    converted to a primitive. *)
Fixpoint to_string (v : json) : result jsstring :=
  match v with
  | JNull => Ok (lit "null")
  | JBool true => Ok (lit "true")
  | JBool false => Ok (lit "false")
  | JNum m e => Ok (number_to_string m e)
  | JStr s => Ok s
  | JArr xs =>
      (fix elems (l : list json) : result jsstring :=
         match l with
         | [] => Ok []
         | x :: r =>
             sx <- match x with JNull => Ok [] | _ => to_string x end ;;
             match r with
             | [] => Ok sx
             | _ => sr <- elems r ;; Ok (sx ++ 44%N :: sr)
             end
         end) xs
  | JObj kvs =>
      match assoc (lit "toString") kvs with
      | Some _ => Throw TypeError
      | None => Ok (lit "[object Object]")
      end
  end.

Definition val_to_string (v : jsval) : result jsstring :=
  match v with
  | None => Ok (lit "undefined")
  | Some j => to_string j
  end.

(* ================================================================== *)
(** ** The two ingestion paths set up by [register] *)
(* ================================================================== *)

(** The record built by [getConfig]. *)
Record PluginConfig : Type := {
  webhookSecret : jsstring;
  teamId : jsstring;
  logEvents : bool
}.

(** The plugin configuration as the host hands it over, every field of
    which may be missing. *)
Record RawConfig : Type := {
  raw_webhookSecret : option jsstring;
  raw_teamId : option jsstring;
  raw_logEvents : option bool
}.

Definition getConfig (pluginConfig : option RawConfig) : PluginConfig :=
  {| webhookSecret :=
       match pluginConfig with
       | Some c => match raw_webhookSecret c with Some s => s | None => [] end
       | None => []
       end;
     teamId :=
       match pluginConfig with
       | Some c => match raw_teamId c with Some s => s | None => [] end
       | None => []
       end;
     logEvents :=
       match pluginConfig with
       | Some c => match raw_logEvents c with Some false => false | _ => true end
       | None => true
       end |}.

(** The argument of [api.sessions.spawn]: the task text and the label are
    assembled from these three values. *)
Record SpawnRequest : Type := {
  spawn_issue : jsstring;
  spawn_title : jsstring;
  spawn_story : option jsstring
}.

(** What a call to [spawn] does: it resolves to a value, of which only the
    truthiness is looked at, or it throws or rejects. *)
Inductive spawn_result : Type :=
| Resolved (truthy_value : bool)
| Rejected.

(** The surroundings of a handler run: [sessions] is [api.sessions] ([None]
    when the capability is absent), asked with the number of earlier calls;
    [clock] is what [new Date().toISOString()] returns.  In a run of the
    webhook route [clock n] is the [n]-th reading of the run, the first
    being reading 0; in a sweep of the poll command [clock n] is the reading
    made for the issue at position [n] of the sweep. *)
Record Env : Type := {
  sessions : option (nat -> SpawnRequest -> spawn_result);
  clock : nat -> jsstring
}.

(** Lines given to [api.logger], without their text. *)
Inductive log_line : Type :=
| WarnInvalidSignature
| InfoStateChanged (issue : jsval)
| InfoTriggerWritten (src : Source) (issue : jsval)
| InfoTriggerDeduped (issue : jsval)
| InfoSpawnSucceeded (issue : jsval)
| InfoSpawnUnavailable (issue : jsval)
| ErrorProcessing (e : exn).

(** A line of [linear-webhook-events.jsonl], without its label. *)
Record StateChange : Type := {
  ev_issue : jsval;
  ev_title : jsval;
  ev_from : jsval;
  ev_to : jsval;
  ev_team : jsval;
  ev_loggedAt : jsstring
}.

(** Everything the handlers can change. *)
Record World : Type := {
  triggers : file;
  events : list StateChange;
  logger : list log_line;
  spawns : list SpawnRequest
}.

Definition log (l : log_line) (w : World) : World :=
  {| triggers := triggers w; events := events w;
     logger := logger w ++ [l]; spawns := spawns w |}.

Definition logEvent (ev : StateChange) (w : World) : World :=
  {| triggers := triggers w; events := events w ++ [ev];
     logger := logger w; spawns := spawns w |}.

Definition set_triggers (f : file) (w : World) : World :=
  {| triggers := f; events := events w;
     logger := logger w; spawns := spawns w |}.

Definition record_spawn (r : SpawnRequest) (w : World) : World :=
  {| triggers := triggers w; events := events w;
     logger := logger w; spawns := spawns w ++ [r] |}.

(** The direct spawn attempt with its own [try]/[catch].  With
    [api.sessions] absent the optional call does nothing, not even build its
    argument; otherwise the task text is built first, which throws when the
    identifier or the title has no string form. *)
Definition attempt_spawn (env : Env) (issue title : jsval)
           (story : option jsstring) (w : World) : World :=
  match sessions env with
  | None => w
  | Some spawn =>
      match val_to_string issue, val_to_string title with
      | Ok i, Ok t =>
          let request :=
            {| spawn_issue := i; spawn_title := t; spawn_story := story |} in
          let w' := record_spawn request w in
          match spawn (length (spawns w)) request with
          | Resolved true => log (InfoSpawnSucceeded issue) w'
          | Resolved false => w'
          | Rejected => log (InfoSpawnUnavailable issue) w'
          end
      | _, _ => log (InfoSpawnUnavailable issue) w
      end
  end.

(** [STATE_MAP[newStateId]]: only the conversion of the key can fail. *)
Definition state_label_lookup (newStateId : jsval) : result unit :=
  _ <- val_to_string newStateId ;; Ok tt.

(** The three filters of the webhook path, in the order of the source. *)
Definition is_issue_update (payload : json) : bool :=
  strict_eq (prop payload (lit "type")) (jstr (lit "Issue"))
  && strict_eq (prop payload (lit "action")) (jstr (lit "update")).

Definition has_previous_state (payload : json) : bool :=
  truthy (optprop (prop payload (lit "updatedFrom")) (lit "stateId")).

Definition team_matches (cfg : PluginConfig) (payload : json) : bool :=
  negb (negb (str_falsy (teamId cfg))
        && negb (strict_eq (optprop (prop payload (lit "data")) (lit "teamId"))
                           (jstr (teamId cfg)))).

Definition payload_new_state (payload : json) : jsval :=
  let data := prop payload (lit "data") in
  coalesce (optprop data (lit "stateId"))
           (optprop (optprop data (lit "state")) (lit "id")).

Definition payload_issue_id (payload : json) : jsval :=
  let data := prop payload (lit "data") in
  coalesce (coalesce (optprop data (lit "identifier")) (optprop data (lit "id")))
           (jstr (lit "unknown")).

Definition payload_title (payload : json) : jsval :=
  coalesce (optprop (prop payload (lit "data")) (lit "title")) (jstr []).

(** The number of the clock reading that stamps the trigger: [logEvent],
    when it is called, has read the clock once before. *)
Definition trigger_reading (cfg : PluginConfig) : nat :=
  if logEvents cfg then 1 else 0.

(** The record the webhook path hands to [writeTrigger]. *)
Definition webhook_entry (cfg : PluginConfig) (env : Env) (payload : json)
           (story : option jsstring) : TriggerInput :=
  {| issueId := payload_issue_id payload;
     issueTitle := payload_title payload;
     stateId := IN_DEV_STATE_ID;
     triggeredAt := clock env (trigger_reading cfg);
     source := webhook;
     storyFilePath := story |}.

(** The body of the [try] block of the webhook route once the text is
    parsed and destructured; an exception leaves through [catch], which logs
    it and keeps what was done before. *)
Definition process_payload (cfg : PluginConfig) (env : Env)
           (payload : json) (w : World) : World :=
  if negb (is_issue_update payload) then w
  else if negb (has_previous_state payload) then w
  else if negb (team_matches cfg payload) then w
  else
    let data := prop payload (lit "data") in
    let newStateId := payload_new_state payload in
    let issue := payload_issue_id payload in
    let title := payload_title payload in
    match state_label_lookup newStateId, val_to_string issue with
    | Throw e, _ | Ok _, Throw e => log (ErrorProcessing e) w
    | Ok _, Ok _ =>
        let w1 := log (InfoStateChanged issue) w in
        let w2 :=
          if logEvents cfg then
            logEvent {| ev_issue := issue; ev_title := title;
                        ev_from := optprop (prop payload (lit "updatedFrom"))
                                           (lit "stateId");
                        ev_to := newStateId;
                        ev_team := optprop data (lit "teamId");
                        ev_loggedAt := clock env 0 |} w1
          else w1 in
        if strict_eq newStateId (jstr IN_DEV_STATE_ID) then
          match extractStoryFilePath (optprop data (lit "description")) with
          | Throw e => log (ErrorProcessing e) w2
          | Ok story =>
              match writeTrigger (triggers w2)
                      (webhook_entry cfg env payload story) with
              | Throw e => log (ErrorProcessing e) w2
              | Ok (written, f) =>
                  let w3 :=
                    log (if written then InfoTriggerWritten webhook issue
                         else InfoTriggerDeduped issue)
                        (set_triggers f w2) in
                  attempt_spawn env issue title story w3
              end
          end
        else w2
    end.

(** The part of the route that runs after the response was sent. *)
Definition process_body (cfg : PluginConfig) (env : Env)
           (rawBody : jsstring) (w : World) : World :=
  match JSON_parse rawBody with
  | None => log (ErrorProcessing SyntaxError) w
  | Some JNull => log (ErrorProcessing TypeError) w
  | Some payload => process_payload cfg env payload w
  end.

Record Request : Type := {
  method : jsstring;
  signature_header : option jsstring;
  rawBody : jsstring
}.

(** The handler of the route [/webhooks/linear]: the status code of the
    response and the world afterwards. *)
Definition webhook_handler (cfg : PluginConfig) (env : Env)
           (req : Request) (w : World) : nat * World :=
  if negb (str_eqb (method req) (lit "POST")) then (405, w)
  else
    let signature :=
      match signature_header req with Some s => s | None => [] end in
    if negb (str_falsy (webhookSecret cfg))
       && negb (verifySignature (rawBody req) signature (webhookSecret cfg))
    then (401, log WarnInvalidSignature w)
    else (200, process_body cfg env (rawBody req) w).

(** What the command [linear-poll] answers, without the text. *)
Inductive PollReply : Type :=
| NoTeamConfigured
| NoIssuesFound
| Report (triggeredCount : nat)
| PollFailed.

(** The record the poll path hands to [writeTrigger]. *)
Definition poll_entry (env : Env) (n : nat) (issue : json)
           (story : option jsstring) : TriggerInput :=
  {| issueId := prop issue (lit "identifier");
     issueTitle := prop issue (lit "title");
     stateId := IN_DEV_STATE_ID;
     triggeredAt := clock env n;
     source := poll;
     storyFilePath := story |}.

(** The body of the [if] in the loop over the polled issues, for an issue
    found in the ready state.  [n] is the position of the issue in the sweep
    and [count] is [triggeredCount]; [inl] is an exception leaving the loop,
    with the world as it is at that point. *)
Definition poll_ready_issue (env : Env) (n : nat) (issue : json)
           (count : nat) (w : World) : World + nat * World :=
  let issue_id := prop issue (lit "identifier") in
  let title := prop issue (lit "title") in
  match extractStoryFilePath (prop issue (lit "description")) with
  | Throw _ => inl w
  | Ok story =>
      match writeTrigger (triggers w) (poll_entry env n issue story) with
      | Throw _ => inl w
      | Ok (true, f) =>
          match val_to_string issue_id with
          | Throw _ => inl (set_triggers f w)
          | Ok _ =>
              let w1 := log (InfoTriggerWritten poll issue_id)
                            (set_triggers f w) in
              inr (S count, attempt_spawn env issue_id title story w1)
          end
      | Ok (false, f) => inr (count, set_triggers f w)
      end
  end.

(** One turn of the loop: reading [issue.state] of [null] throws. *)
Definition poll_issue (env : Env) (n : nat) (issue : json)
           (st : nat * World) : World + nat * World :=
  let '(count, w) := st in
  match issue with
  | JNull => inl w
  | _ =>
      let state := prop issue (lit "state") in
      if strict_eq (optprop state (lit "id")) (jstr IN_DEV_STATE_ID)
      then poll_ready_issue env n issue count w
      else inr (count, w)
  end.

Fixpoint poll_loop (env : Env) (n : nat) (issues : list json)
         (st : nat * World) : World + nat * World :=
  match issues with
  | [] => inr st
  | issue :: rest =>
      match poll_issue env n issue st with
      | inl w => inl w
      | inr st' => poll_loop env (S n) rest st'
      end
  end.

(** Building the line of the report for one issue converts four values to
    strings. *)
Definition report_line (issue : json) : result unit :=
  let state := prop issue (lit "state") in
  let assignee := prop issue (lit "assignee") in
  _ <- val_to_string (prop issue (lit "identifier")) ;;
  _ <- val_to_string (prop issue (lit "title")) ;;
  _ <- val_to_string (coalesce (optprop state (lit "name")) (jstr (lit "?"))) ;;
  _ <- val_to_string (coalesce (optprop assignee (lit "name"))
                               (jstr (lit "unassigned"))) ;;
  Ok tt.

(** [issues.length === 0] on what [nodes ?? []] is: the length of an
    array or of a string, the property [length] of an object, and nothing
    that could equal zero on a number or a boolean. *)
Definition length_is_zero (v : json) : bool :=
  match v with
  | JArr xs => is_nil xs
  | JStr s => is_nil s
  | _ => strict_eq (prop v (lit "length")) (Some (JNum 0 0))
  end.

(** The handler of the command [linear-poll].  [response] is what the
    request to the tracker resolved to, [None] when it was rejected.  The
    loop and [issues.map] run on an array; on a string that is not empty the
    loop finds no [state] on its characters and [issues.map] throws, and
    anything else that is not of length zero cannot be iterated. *)
Definition linear_poll_handler (cfg : PluginConfig) (env : Env)
           (response : option json) (w : World) : PollReply * World :=
  if str_falsy (teamId cfg) then (NoTeamConfigured, w)
  else
    match response with
    | None => (PollFailed, w)
    | Some result =>
        let nodes :=
          optprop (optprop (optprop (Some result) (lit "data")) (lit "issues"))
                  (lit "nodes") in
        match coalesce nodes (Some (JArr [])) with
        | None => (PollFailed, w)
        | Some v =>
            if length_is_zero v then (NoIssuesFound, w)
            else
              match v with
              | JArr issues =>
                  match poll_loop env 0 issues (0, w) with
                  | inl w' => (PollFailed, w')
                  | inr (count, w') =>
                      match map_result report_line issues with
                      | Ok _ => (Report count, w')
                      | Throw _ => (PollFailed, w')
                      end
                  end
              | _ => (PollFailed, w)
              end
        end
    end.

(* ================================================================== *)
(** ** Vocabulary of the statements and sample data *)
(* ================================================================== *)

(** A line that [split] and [filter(Boolean)] hand back unchanged: not
    empty and free of line feeds. *)
Definition is_line (l : jsstring) : Prop := l <> [] /\ ~ In 10%N l.

(** A file to which a line can be appended without merging it into the
    last one: it is missing, empty, or ends with a line feed. *)
Definition newline_terminated (f : file) : Prop :=
  match f with
  | None => True
  | Some content => content = [] \/ exists c, content = c ++ [10%N]
  end.

(** Values whose text reads back whatever follows it: strings, booleans
    and [null]. *)
Definition simple (v : json) : Prop :=
  match v with
  | JStr _ | JNull | JBool _ => True
  | _ => False
  end.

Definition simple_val (v : jsval) : Prop :=
  match v with
  | None => True
  | Some j => simple j
  end.

Definition members_text (kvs : list (jsstring * json)) : jsstring :=
  join [44%N]
       (map (fun kv => quote (fst kv) ++ 58%N :: JSON_stringify (snd kv)) kvs).

(** An argument of [writeTrigger] whose identifier and title are strings
    (as the declared type has it), booleans, [null] or missing. *)
Definition plain_input (e : TriggerInput) : Prop :=
  simple_val (issueId e) /\ simple_val (issueTitle e).

(** The line [writeTrigger] appends for [e]. *)
Definition pending_line (e : TriggerInput) : jsstring :=
  JSON_stringify (entry_object e (lit "pending")) ++ [10%N].

(** The test of the dedup gate on one record. *)
Definition matches_active (id : jsval) (r : json) : bool :=
  strict_eq (prop r (lit "issueId")) id
  && is_active_status (prop r (lit "status")).

(** Number of records of [id] that are pending or spawned. *)
Definition active_count (id : jsval) (recs : list json) : nat :=
  length (filter (matches_active id) recs).

(** A ledger file that reads as the records [recs], none of them the bare
    value [null], and to which a line can be appended. *)
Record ledger_ok (f : file) (recs : list json) : Prop := {
  ok_terminated : newline_terminated f;
  ok_read : readTriggerLog f = Ok recs;
  ok_records : Forall (fun r => r <> JNull) recs
}.

(** A run of admission attempts, one after the other, with the flag each
    returned. *)
Fixpoint attempt_all (f : file) (entries : list TriggerInput)
  : result (list bool * file) :=
  match entries with
  | [] => Ok ([], f)
  | e :: rest =>
      r <- writeTrigger f e ;;
      rs <- attempt_all (snd r) rest ;;
      Ok (fst r :: fst rs, snd rs)
  end.

Definition sample_entry (id : string) (src : Source) : TriggerInput :=
  {| issueId := jstr (lit id); issueTitle := jstr (lit "Test issue");
     stateId := IN_DEV_STATE_ID;
     triggeredAt := lit "2026-01-01T00:00:00.000Z";
     source := src; storyFilePath := None |}.

(** Webhook then poll for one issue, another issue, the first once more. *)
Definition sample_attempts : list TriggerInput :=
  [sample_entry "CRU-123" webhook; sample_entry "CRU-123" poll;
   sample_entry "CRU-456" poll; sample_entry "CRU-123" webhook].



Definition at_most_one_active (recs : list json) : Prop :=
  forall id : jsval, active_count id recs <= 1.

Definition test_secret : jsstring := lit "test-webhook-secret-abc123".
Definition test_body : jsstring :=
  jtext "{'type':'Issue','action':'update','data':{'id':'xyz'}}".
Definition test_signature : jsstring :=
  lit "65989a1552775fd653d1b73eff96d087a332016b5a713db2882c5e7099016096".

Definition valid_line_1 : jsstring :=
  jtext "{'issueId':'CRU-1','issueTitle':'First','stateId':'abc','triggeredAt':'2026-01-01T00:00:00.000Z','source':'webhook','status':'pending','storyFilePath':null}".

Definition valid_line_2 : jsstring :=
  jtext "{'issueId':'CRU-2','issueTitle':'Second','stateId':'abc','triggeredAt':'2026-01-01T00:00:01.000Z','source':'poll','status':'spawned','storyFilePath':null}".

Definition corrupt_line : jsstring := jtext "{'issueId':'CRU-9','issueTit".

(** One corrupt line between two valid ones. *)
Definition corrupt_ledger : file :=
  Some (valid_line_1 ++ [10%N] ++ corrupt_line ++ [10%N] ++ valid_line_2 ++ [10%N]).

Definition clean_ledger : file :=
  Some (valid_line_1 ++ [10%N] ++ valid_line_2 ++ [10%N]).

(** A story path: the root, at least one character of the class, the
    extension. *)
Definition is_story_path (p : jsstring) : Prop :=
  exists body, p = story_root ++ body ++ md_ext
               /\ body <> [] /\ forallb path_char body = true.

(** What follows a path does not continue it: the text ends there, or goes
    on with white space, a quote or a closing parenthesis. *)
Definition ends_path (post : jsstring) : Prop :=
  match post with
  | [] => True
  | c :: _ => path_char c = false
  end.

(** No match of the pattern starts at one of the first [n] positions. *)
Fixpoint no_match_before (n : nat) (text : jsstring) : bool :=
  match n with
  | O => true
  | S n' =>
      match story_match_at text with
      | Some _ => false
      | None =>
          match text with
          | [] => true
          | _ :: r => no_match_before n' r
          end
      end
  end.

Definition sample_path : jsstring :=
  lit "_bmad-output/stories/cruzbot/epic-1-story-3-test.md".

(** Nothing configured: no secret, no team filter. *)
Definition open_config : PluginConfig := getConfig None.

Definition sample_clock (n : nat) : jsstring := lit "2026-01-01T00:00:00.000Z".

(** No spawn capability. *)
Definition quiet_env : Env := {| sessions := None; clock := sample_clock |}.

(** A spawn capability that always resolves to a truthy value. *)
Definition eager_env : Env :=
  {| sessions := Some (fun _ _ => Resolved true); clock := sample_clock |}.

(** A spawn capability that always throws. *)
Definition failing_env : Env :=
  {| sessions := Some (fun _ _ => Rejected); clock := sample_clock |}.

(** The push of the scenario: an issue moved into the ready state. *)
Definition in_dev_body : jsstring :=
  jtext "{'type':'Issue','action':'update','data':{'identifier':'CRU-123','title':'Test issue','stateId':'99a123f5-1bda-48b0-b0b2-38246e2a50d2'},'updatedFrom':{'stateId':'83a9ff51-748f-4242-96d7-2df175e6c2bb'}}".

Definition unsigned_request : Request :=
  {| method := lit "POST"; signature_header := None; rawBody := in_dev_body |}.

Definition empty_world : World :=
  {| triggers := None; events := []; logger := []; spawns := [] |}.

(** The configuration [cfg] with another secret. *)
Definition with_secret (s : jsstring) (cfg : PluginConfig) : PluginConfig :=
  {| webhookSecret := s; teamId := teamId cfg; logEvents := logEvents cfg |}.

(** The surroundings [env] with another spawn capability. *)
Definition with_sessions (s : option (nat -> SpawnRequest -> spawn_result))
           (env : Env) : Env :=
  {| sessions := s; clock := clock env |}.

(** Two outcomes of a step of the poll loop that agree on how the loop
    goes on, on the count and on the ledger. *)
Definition same_ledger (a b : World + nat * World) : Prop :=
  match a, b with
  | inl w1, inl w2 => triggers w1 = triggers w2
  | inr (c1, w1), inr (c2, w2) => c1 = c2 /\ triggers w1 = triggers w2
  | _, _ => False
  end.

(** Two polled issues in the ready state. *)
Definition two_ready_issues : json :=
  match JSON_parse (jtext "{'data':{'issues':{'nodes':[{'identifier':'CRU-1','title':'First','state':{'id':'99a123f5-1bda-48b0-b0b2-38246e2a50d2','name':'Ready'}},{'identifier':'CRU-2','title':'Second','state':{'id':'99a123f5-1bda-48b0-b0b2-38246e2a50d2','name':'Ready'}}]}}}") with
  | Some v => v
  | None => JNull
  end.

Definition team_config : PluginConfig :=
  {| webhookSecret := lit "s3cret"; teamId := lit "team-1"; logEvents := true |}.

(** Rule 1: an update of an issue. *)
Definition rule_issue_update (payload : json) : Prop :=
  prop payload (lit "type") = jstr (lit "Issue")
  /\ prop payload (lit "action") = jstr (lit "update").

(** Rule 2: a previous state, that is a truthy [updatedFrom.stateId]. *)
Definition rule_previous_state (payload : json) : Prop :=
  truthy (optprop (prop payload (lit "updatedFrom")) (lit "stateId")) = true.

(** Rule 3: no team filter configured, or the team of the event is it. *)
Definition rule_team (cfg : PluginConfig) (payload : json) : Prop :=
  teamId cfg = []
  \/ optprop (prop payload (lit "data")) (lit "teamId") = jstr (teamId cfg).

Definition passes_rules (cfg : PluginConfig) (payload : json) : Prop :=
  rule_issue_update payload /\ rule_previous_state payload /\ rule_team cfg payload.

(** A creation event: it has no previous state, and its action is not an
    update. *)
Definition created_body : jsstring :=
  jtext "{'type':'Issue','action':'create','data':{'identifier':'CRU-7','stateId':'99a123f5-1bda-48b0-b0b2-38246e2a50d2'}}".

Definition created_payload : json :=
  JObj [(lit "type", JStr (lit "Issue")); (lit "action", JStr (lit "create"));
        (lit "data",
         JObj [(lit "identifier", JStr (lit "CRU-7"));
               (lit "stateId", JStr IN_DEV_STATE_ID)])].

(** The description is what the cast of the source says it is, a string or
    nothing, or at least falsy. *)
Definition description_typed (d : jsval) : Prop :=
  truthy d = false \/ exists s, d = jstr s.

(** A push into the ready state that passes the filters and carries
    neither [data.identifier] nor [data.id]. *)
Record nameless_ready_push (cfg : PluginConfig) (payload : json) : Prop := {
  nameless_rules : passes_rules cfg payload;
  nameless_state : payload_new_state payload = jstr IN_DEV_STATE_ID;
  nameless_identifier :
    nullish (optprop (prop payload (lit "data")) (lit "identifier")) = true;
  nameless_id :
    nullish (optprop (prop payload (lit "data")) (lit "id")) = true;
  nameless_description :
    description_typed (optprop (prop payload (lit "data")) (lit "description"))
}.

Definition nameless_payload (title : string) : json :=
  JObj [(lit "type", JStr (lit "Issue")); (lit "action", JStr (lit "update"));
        (lit "data",
         JObj [(lit "title", JStr (lit title));
               (lit "stateId", JStr IN_DEV_STATE_ID)]);
        (lit "updatedFrom",
         JObj [(lit "stateId", JStr (lit "83a9ff51-748f-4242-96d7-2df175e6c2bb"))])].

(** A digit of a lower-case hexadecimal numeral. *)
Definition is_lower_hex (c : N) : bool :=
  (N.leb 48 c && N.leb c 57) || (N.leb 97 c && N.leb c 102).

(** The text of a ledger that holds, one per line, the records of the
    entries [es], each with the status paired with it. *)
Definition ledger_text (es : list (TriggerInput * jsstring)) : jsstring :=
  flat_map (fun p => JSON_stringify (entry_object (fst p) (snd p)) ++ [10%N]) es.

Definition ledger_records (es : list (TriggerInput * jsstring)) : list json :=
  map (fun p => entry_object (fst p) (snd p)) es.

(** A record of [recs] blocks the admission of [id]: same identifier, and
    status pending or spawned. *)
Definition blocking_record (id : jsval) (r : json) : Prop :=
  strict_eq (prop r (lit "issueId")) id = true
  /\ (prop r (lit "status") = jstr (lit "pending")
      \/ prop r (lit "status") = jstr (lit "spawned")).

(** A parsed line that is not an object: a number, a string, a boolean or
    an array. *)
Definition scalar_or_array (r : json) : Prop :=
  match r with
  | JNum _ _ | JStr _ | JBool _ | JArr _ => True
  | JNull | JObj _ => False
  end.

(** A ledger with a line that holds the bare value [null]. *)
Definition null_line_ledger : file :=
  Some (jtext "{'issueId':'CRU-1','status':'skipped'}
null
").

(** White space of JSON other than the line feed. *)
Definition is_blank (c : N) : bool := N.eqb c 32 || N.eqb c 9 || N.eqb c 13.

(** The records of [clean_ledger]. *)
Definition clean_records : list json :=
  match readTriggerLog clean_ledger with
  | Ok recs => recs
  | Throw _ => []
  end.

(** Appending lines to a file, one after the other. *)
Definition append_lines (f : file) (ls : list jsstring) : file :=
  fold_left appendFile ls f.

(** Two worlds that differ at most in the event log. *)
Definition same_but_events (a b : World) : Prop :=
  triggers a = triggers b /\ logger a = logger b /\ spawns a = spawns b.

(** A clock that answers with the number of the reading. *)
Definition ticking_env : Env :=
  {| sessions := None; clock := fun n => nat_digits (N.of_nat n) |}.

(** The surroundings [env] one reading of the clock later. *)
Definition later (env : Env) : Env :=
  {| sessions := sessions env; clock := fun n => clock env (S n) |}.

(** The configuration [cfg] with another value of [logEvents]. *)
Definition with_logEvents (b : bool) (cfg : PluginConfig) : PluginConfig :=
  {| webhookSecret := webhookSecret cfg; teamId := teamId cfg; logEvents := b |}.

(** A world whose ledger holds a pending record of CRU-123. *)
Definition pending_world : World :=
  {| triggers := Some (pending_line (sample_entry "CRU-123" webhook));
     events := []; logger := []; spawns := [] |}.

Definition in_dev_payload : json :=
  match JSON_parse in_dev_body with
  | Some v => v
  | None => JNull
  end.

(** A world whose ledger cannot be read. *)
Definition corrupt_world : World :=
  {| triggers := corrupt_ledger; events := []; logger := []; spawns := [] |}.

(** The world [w'] comes from [w] by appending the pending lines of the
    poll entries [es] to the ledger and calling the spawn capability at
    most once per entry; the event log is the same. *)
Definition poll_appended (w w' : World) (es : list TriggerInput) : Prop :=
  events w' = events w
  /\ triggers w' = append_lines (triggers w) (map pending_line es)
  /\ length (spawns w') <= length (spawns w) + length es
  /\ Forall (fun e => source e = poll) es.

(** What the webhook path does to the ledger file [f] on a payload, as a
    function of the file alone. *)
Definition webhook_ledger_step (cfg : PluginConfig) (env : Env)
           (payload : json) (f : file) : file :=
  if is_issue_update payload && has_previous_state payload
     && team_matches cfg payload
  then
    match state_label_lookup (payload_new_state payload),
          val_to_string (payload_issue_id payload) with
    | Ok _, Ok _ =>
        if strict_eq (payload_new_state payload) (jstr IN_DEV_STATE_ID) then
          match extractStoryFilePath
                  (optprop (prop payload (lit "data")) (lit "description")) with
          | Ok story =>
              match writeTrigger f (webhook_entry cfg env payload story) with
              | Ok (_, f') => f'
              | Throw _ => f
              end
          | Throw _ => f
          end
        else f
    | _, _ => f
    end
  else f.

(** A polled issue that is not in the ready state (and is not [null]). *)
Definition not_ready (issue : json) : Prop :=
  issue <> JNull
  /\ optprop (prop issue (lit "state")) (lit "id") <> jstr IN_DEV_STATE_ID.

(** A push into another state than the ready one. *)
Definition completed_body : jsstring :=
  jtext "{'type':'Issue','action':'update','data':{'identifier':'CRU-123','title':'Test issue','stateId':'83a9ff51-748f-4242-96d7-2df175e6c2bb'},'updatedFrom':{'stateId':'99a123f5-1bda-48b0-b0b2-38246e2a50d2'}}".

Definition completed_payload : json :=
  match JSON_parse completed_body with
  | Some v => v
  | None => JNull
  end.

(** The issues the poll command walks through: [result?.data?.issues?.nodes],
    when it is an array. *)
Definition polled_issues (result : json) : list json :=
  match coalesce (optprop (optprop (optprop (Some result) (lit "data"))
                                   (lit "issues")) (lit "nodes"))
                 (Some (JArr [])) with
  | Some (JArr issues) => issues
  | _ => []
  end.

(** A polled issue whose identifier and title are strings (as the declared
    type has it), booleans, [null] or missing. *)
Definition plain_issue (issue : json) : Prop :=
  simple_val (prop issue (lit "identifier"))
  /\ simple_val (prop issue (lit "title")).

(** The test of the loop of the poll command on one issue. *)
Definition is_ready (issue : json) : bool :=
  strict_eq (optprop (prop issue (lit "state")) (lit "id"))
            (jstr IN_DEV_STATE_ID).

(** An issue the ledger [recs] has already dealt with: a sweep over it
    passes, and when it is in the ready state its description can be
    searched and a record of it is pending or spawned. *)
Definition settled (recs : list json) (issue : json) : Prop :=
  issue <> JNull
  /\ (is_ready issue = true ->
      1 <= active_count (prop issue (lit "identifier")) recs
      /\ exists story,
          extractStoryFilePath (prop issue (lit "description")) = Ok story).

(** A polled issue the sweep and the report can deal with: it is not
    [null], its identifier and title are plain, its description is a string
    or falsy, and its line of the report can be built. *)
Definition sweepable (issue : json) : Prop :=
  issue <> JNull
  /\ plain_issue issue
  /\ description_typed (prop issue (lit "description"))
  /\ report_line issue = Ok tt.

(** The world [w'] holds everything [w] holds, in place: the ledger, the
    event log, the logger and the list of spawn calls of [w'] are those of
    [w] with something appended. *)
Definition grows (w w' : World) : Prop :=
  (exists ls, triggers w' = append_lines (triggers w) ls)
  /\ (exists evs, events w' = events w ++ evs)
  /\ (exists ls, logger w' = logger w ++ ls)
  /\ (exists rs, spawns w' = spawns w ++ rs).

(** ** Strings and strict equality *)

Lemma str_eqb_refl (s : jsstring) : str_eqb s s = true.
Proof.
  induction s as [|c s IH]; simpl; [reflexivity|].
  now rewrite N.eqb_refl, IH.
Qed.

Lemma str_eqb_eq (a b : jsstring) : str_eqb a b = true <-> a = b.
Proof.
  split.
  - revert b; induction a as [|x a IH]; intros [|y b]; simpl; try discriminate.
    + reflexivity.
    + intros H. apply andb_true_iff in H as [Hx Hr].
      apply N.eqb_eq in Hx. f_equal; [assumption | now apply IH].
  - intros ->. apply str_eqb_refl.
Qed.

Lemma str_eqb_neq (a b : jsstring) : str_eqb a b = false <-> a <> b.
Proof.
  rewrite <- str_eqb_eq. destruct (str_eqb a b); intuition congruence.
Qed.

(** Numbers as [JSON.parse] reads them and as the program compares and
    prints them. *)
Example ten_is_ten :
  strict_eq (Some (JNum 10 0)) (JSON_parse (lit "10")) = true
  /\ strict_eq (JSON_parse (lit "1e1")) (JSON_parse (lit "10.0")) = true
  /\ strict_eq (JSON_parse (lit "10")) (JSON_parse (lit "11")) = false.
Proof. vm_compute. auto. Qed.

Example integers_beyond_2_53_merge :
  strict_eq (JSON_parse (lit "9007199254740993"))
            (JSON_parse (lit "9007199254740992")) = true
  /\ option_map JSON_stringify (JSON_parse (lit "9007199254740993"))
     = Some (lit "9007199254740992").
Proof. vm_compute. auto. Qed.

Example tiny_is_zero_and_huge_is_infinite :
  truthy (JSON_parse (lit "1e-400")) = false
  /\ truthy (JSON_parse (lit "5e-324")) = true
  /\ val_to_string (JSON_parse (lit "1e400")) = Ok (lit "Infinity")
  /\ option_map JSON_stringify (JSON_parse (lit "1e400")) = Some (lit "null").
Proof. vm_compute. auto. Qed.

Example numbers_print_shortest :
  map (fun t => option_map JSON_stringify (JSON_parse (lit t)))
      ["0.1"; "1e21"; "123456789012345680000"; "1e23"; "0.000001"; "1e-7";
       "-0"; "12.50"]%string
  = map (fun t => Some (lit t))
        ["0.1"; "1e+21"; "123456789012345680000"; "1e+23"; "0.000001"; "1e-7";
         "0"; "12.5"]%string.
Proof. vm_compute. reflexivity. Qed.

(** Keys that are array indices are enumerated first, in ascending
    order, and a repeated key keeps its place. *)
Example index_keys_come_first :
  option_map JSON_stringify
    (JSON_parse (jtext "{'b':1,'10':2,'9':3,'01':4,'b':5}"))
  = Some (jtext "{'9':3,'10':2,'b':5,'01':4}").
Proof. vm_compute. reflexivity. Qed.

Lemma double_eqb_eq (a b : double) : double_eqb a b = true <-> a = b.
Proof.
  destruct a as [|s q k|s], b as [|s' q' k'|s']; simpl;
    try (split; [discriminate | intros H; discriminate H]).
  - split; reflexivity.
  - rewrite !andb_true_iff, Bool.eqb_true_iff, !Z.eqb_eq.
    split; [intros [[-> ->] ->]; reflexivity | intros [= -> -> ->]; auto].
  - rewrite Bool.eqb_true_iff. split; [now intros -> | now intros [= ->]].
Qed.

Lemma double_eqb_refl (a : double) : double_eqb a a = true.
Proof. now apply double_eqb_eq. Qed.

Lemma strict_eq_jstr (v : jsval) (s : jsstring) :
  strict_eq v (jstr s) = true <-> v = jstr s.
Proof.
  unfold jstr. destruct v as [[| b | m e | t | xs | kvs]|]; simpl;
    try (split; [discriminate | intros H; discriminate H]).
  rewrite str_eqb_eq. split; [now intros -> | now intros [= ->]].
Qed.

Lemma val_to_string_simple (v : jsval) :
  simple_val v -> exists s, val_to_string v = Ok s.
Proof.
  destruct v as [[| [|] | m e | s | xs | kvs]|]; simpl; try contradiction;
    intros _; eauto.
Qed.

Lemma strict_eq_jstr_l (s : jsstring) (v : jsval) :
  strict_eq (jstr s) v = true <-> v = jstr s.
Proof.
  unfold jstr. destruct v as [[| b | m e | t | xs | kvs]|]; simpl;
    try (split; [discriminate | intros H; discriminate H]).
  rewrite str_eqb_eq. split; [now intros -> | now intros [= ->]].
Qed.

Lemma strip_prefix_app (p r : jsstring) : strip_prefix p (p ++ r) = Some r.
Proof.
  induction p as [|c p IH]; simpl; [reflexivity|].
  now rewrite N.eqb_refl.
Qed.

Lemma strip_prefix_some (p s r : jsstring) :
  strip_prefix p s = Some r -> s = p ++ r.
Proof.
  revert s; induction p as [|c p IH]; intros s; simpl.
  - now intros [= ->].
  - destruct s as [|y s]; [discriminate|].
    destruct (N.eqb_spec c y) as [->|]; [|discriminate].
    intros H. now rewrite (IH _ H).
Qed.

(** ** Fuel of the parser *)

Lemma parse_fuel_mono (n : nat) :
  (forall s r, parse_value n s = Some r ->
     forall m, n <= m -> parse_value m s = Some r)
  /\ (forall s r, parse_elems n s = Some r ->
        forall m, n <= m -> parse_elems m s = Some r)
  /\ (forall s r, parse_members n s = Some r ->
        forall m, n <= m -> parse_members m s = Some r).
Proof.
  induction n as [|f [IHv [IHe IHm]]].
  - repeat split; intros s r H; discriminate H.
  - split; [|split]; intros s r H m Hm;
      (destruct m as [|m']; [lia|]); assert (Hf : f <= m') by lia.
    + cbn [parse_value] in *.
      destruct (skip_ws s) as [|c t]; [discriminate|].
      destruct (N.eqb c 34); [exact H|].
      destruct (N.eqb c 91).
      { destruct (skip_ws t) as [|d t']; [discriminate|].
        destruct (N.eqb d 93); [exact H|].
        destruct (parse_elems f t) as [[vs rest]|] eqn:He; [|discriminate].
        now rewrite (IHe _ _ He m' Hf). }
      destruct (N.eqb c 123).
      { destruct (skip_ws t) as [|d t']; [discriminate|].
        destruct (N.eqb d 125); [exact H|].
        destruct (parse_members f t) as [[kvs rest]|] eqn:He; [|discriminate].
        now rewrite (IHm _ _ He m' Hf). }
      exact H.
    + cbn [parse_elems] in *.
      destruct (parse_value f s) as [[v t]|] eqn:Hv; [|discriminate].
      rewrite (IHv _ _ Hv m' Hf).
      destruct (skip_ws t) as [|c t']; [discriminate|].
      destruct (N.eqb c 44); [|exact H].
      destruct (parse_elems f t') as [[vs rest]|] eqn:He; [|discriminate].
      now rewrite (IHe _ _ He m' Hf).
    + cbn [parse_members] in *.
      destruct (skip_ws s) as [|c t]; [discriminate|].
      destruct (N.eqb c 34); [|discriminate].
      destruct (parse_string_body t) as [[k t1]|]; [|discriminate].
      destruct (skip_ws t1) as [|c1 t2]; [discriminate|].
      destruct (N.eqb c1 58); [|discriminate].
      destruct (parse_value f t2) as [[v t3]|] eqn:Hv; [|discriminate].
      rewrite (IHv _ _ Hv m' Hf).
      destruct (skip_ws t3) as [|c2 t4]; [discriminate|].
      destruct (N.eqb c2 44); [|exact H].
      destruct (parse_members f t4) as [[kvs rest]|] eqn:He; [|discriminate].
      now rewrite (IHm _ _ He m' Hf).
Qed.

Lemma skip_ws_length (s : jsstring) : length (skip_ws s) <= length s.
Proof.
  induction s as [|c r IH]; simpl; [lia|].
  destruct (is_ws c); simpl; lia.
Qed.

Lemma cons_fst_length (c : N) (r : option (jsstring * jsstring))
      (t rest : jsstring) :
  cons_fst c r = Some (t, rest) -> exists t', r = Some (t', rest).
Proof.
  destruct r as [[t' rest']|]; simpl; [|discriminate].
  intros [= _ <-]. now exists t'.
Qed.

Lemma parse_string_body_length_le (n : nat) :
  forall s t rest, length s <= n ->
    parse_string_body s = Some (t, rest) -> length rest < length s.
Proof.
  induction n as [|n IH]; intros s t rest Hn H.
  - destruct s; [discriminate H | simpl in Hn; lia].
  - destruct s as [|c r]; [discriminate H|].
    cbn [parse_string_body] in H. simpl in Hn. cbn [length].
    destruct (N.eqb c 34); [injection H as _ <-; lia|].
    destruct (N.eqb c 92).
    + destruct r as [|e r1]; [discriminate|]. cbn [length] in *.
      destruct (N.eqb e 117).
      * destruct r1 as [|h1 [|h2 [|h3 [|h4 r2]]]]; try discriminate.
        cbn [length] in *.
        destruct (hexval h1), (hexval h2), (hexval h3), (hexval h4);
          try discriminate.
        apply cons_fst_length in H as [t' H].
        apply IH in H; lia.
      * destruct (unescape e); [|discriminate].
        apply cons_fst_length in H as [t' H].
        apply IH in H; lia.
    + destruct (N.ltb c 32); [discriminate|].
      apply cons_fst_length in H as [t' H].
      apply IH in H; lia.
Qed.

Lemma parse_string_body_length (s t rest : jsstring) :
  parse_string_body s = Some (t, rest) -> length rest < length s.
Proof. apply (parse_string_body_length_le (length s)). lia. Qed.

Lemma take_digits_length (s : jsstring) :
  length (snd (take_digits s)) <= length s.
Proof.
  induction s as [|c r IH]; simpl; [lia|].
  destruct (is_digit c); [|simpl; lia].
  destruct (take_digits r) as [ds rest]. simpl in *. lia.
Qed.

Lemma parse_number_length (s : jsstring) (v : json) (rest : jsstring) :
  parse_number s = Some (v, rest) -> length rest < length s.
Proof.
  unfold parse_number.
  set (p1 := match s with
             | c :: r => if N.eqb c 45 then (true, r) else (false, s)
             | [] => (false, s)
             end).
  assert (H1 : length (snd p1) <= length s).
  { unfold p1. destruct s as [|c r]; simpl; [lia|].
    destruct (N.eqb c 45); simpl; lia. }
  destruct p1 as [neg s1]. cbn [snd] in H1.
  set (ip := match s1 with
             | c :: r =>
                 if N.eqb c 48 then Some ([48%N], r)
                 else if is_digit c then Some (take_digits s1)
                 else None
             | [] => None
             end).
  assert (H2 : forall d s2, ip = Some (d, s2) -> length s2 < length s1).
  { unfold ip. intros d s2. destruct s1 as [|c r]; [discriminate|].
    destruct (N.eqb c 48); [intros [= _ <-]; simpl; lia|].
    destruct (is_digit c) eqn:Hd; [|discriminate].
    intros [= E]. pose proof (take_digits_length r) as Hl.
    cbn [take_digits] in E. rewrite Hd in E.
    destruct (take_digits r) as [ds rest']. injection E as _ <-.
    simpl in *. lia. }
  destruct ip as [[d s2]|]; [|discriminate].
  specialize (H2 d s2 eq_refl).
  set (fp := match s2 with
             | c :: r =>
                 if N.eqb c 46 then
                   let '(fp, r') := take_digits r in
                   if is_nil fp then None else Some (fp, r')
                 else Some ([], s2)
             | [] => Some ([], s2)
             end).
  assert (H3 : forall f s3, fp = Some (f, s3) -> length s3 <= length s2).
  { unfold fp. intros f s3. destruct s2 as [|c r]; [intros [= _ <-]; lia|].
    destruct (N.eqb c 46); [|intros [= _ <-]; lia].
    pose proof (take_digits_length r) as Hl.
    destruct (take_digits r) as [ds rest']. simpl in Hl.
    destruct (is_nil ds); [discriminate|]. intros [= _ <-]. simpl. lia. }
  destruct fp as [[f s3]|]; [|discriminate].
  specialize (H3 f s3 eq_refl).
  set (ep := match s3 with
             | c :: r =>
                 if N.eqb c 101 || N.eqb c 69 then
                   let '(eneg, r1) :=
                     match r with
                     | g :: r0 =>
                         if N.eqb g 45 then (true, r0)
                         else if N.eqb g 43 then (false, r0)
                         else (false, r)
                     | [] => (false, r)
                     end in
                   let '(ep, r2) := take_digits r1 in
                   if is_nil ep then None
                   else Some (if eneg then (- digits_value ep)%Z
                              else digits_value ep, r2)
                 else Some (0%Z, s3)
             | [] => Some (0%Z, s3)
             end).
  assert (H4 : forall x s4, ep = Some (x, s4) -> length s4 <= length s3).
  { unfold ep. intros x s4. destruct s3 as [|c r]; [intros [= _ <-]; lia|].
    destruct (N.eqb c 101 || N.eqb c 69); [|intros [= _ <-]; lia].
    set (q := match r with
              | g :: r0 =>
                  if N.eqb g 45 then (true, r0)
                  else if N.eqb g 43 then (false, r0)
                  else (false, r)
              | [] => (false, r)
              end).
    assert (Hq : length (snd q) <= length r).
    { unfold q. destruct r as [|g r0]; simpl; [lia|].
      destruct (N.eqb g 45); simpl; [lia|].
      destruct (N.eqb g 43); simpl; lia. }
    destruct q as [eneg r1]. cbn [snd] in Hq.
    pose proof (take_digits_length r1) as Hl.
    destruct (take_digits r1) as [ds r2]. simpl in Hl.
    destruct (is_nil ds); [discriminate|]. intros [= _ <-]. simpl. lia. }
  destruct ep as [[x s4]|]; [|discriminate].
  specialize (H4 x s4 eq_refl).
  intros [= _ <-]. lia.
Qed.

Lemma strip_prefix_length (p s rest : jsstring) :
  strip_prefix p s = Some rest -> length s = length p + length rest.
Proof.
  intros H. apply strip_prefix_some in H. subst s. apply length_app.
Qed.

(** A parse that succeeds consumes something, and succeeds as well with
    twice as much fuel as it consumes characters. *)
Lemma parse_fuel_bound (n : nat) :
  (forall s v rest, parse_value n s = Some (v, rest) ->
     length rest < length s
     /\ parse_value (2 * (length s - length rest)) s = Some (v, rest))
  /\ (forall s vs rest, parse_elems n s = Some (vs, rest) ->
        length rest < length s
        /\ parse_elems (2 * (length s - length rest) + 1) s = Some (vs, rest))
  /\ (forall s kvs rest, parse_members n s = Some (kvs, rest) ->
        length rest < length s
        /\ parse_members (2 * (length s - length rest) + 1) s = Some (kvs, rest)).
Proof.
  induction n as [|f [IHv [IHe IHm]]].
  - repeat split; discriminate.
  - split; [|split].
    + intros s v rest H. cbn [parse_value] in H.
      pose proof (skip_ws_length s) as Hws.
      destruct (skip_ws s) as [|c t] eqn:Es; [discriminate|]. cbn [length] in Hws.
      assert (Hstep : forall g,
        length rest < length s -> 2 * (length s - length rest) = S g ->
        parse_value (S g) s = Some (v, rest) ->
        length rest < length s
        /\ parse_value (2 * (length s - length rest)) s = Some (v, rest)).
      { intros g Hl Hg Hp. split; [exact Hl | now rewrite Hg]. }
      destruct (N.eqb c 34) eqn:E34.
      { destruct (parse_string_body t) as [[str rest']|] eqn:Hs; [|discriminate].
        injection H as <- <-. apply parse_string_body_length in Hs as Hl.
        apply Hstep with (g := 2 * (length s - length rest') - 1); [lia | lia |].
        cbn [parse_value]. now rewrite Es, E34, Hs. }
      destruct (N.eqb c 91) eqn:E91.
      { pose proof (skip_ws_length t) as Hwt.
        destruct (skip_ws t) as [|d t'] eqn:Et; [discriminate|]. cbn [length] in Hwt.
        destruct (N.eqb d 93) eqn:E93.
        - injection H as <- <-.
          apply Hstep with (g := 2 * (length s - length t') - 1); [lia | lia |].
          cbn [parse_value]. now rewrite Es, E34, E91, Et, E93.
        - destruct (parse_elems f t) as [[vs rest']|] eqn:He; [|discriminate].
          injection H as <- <-.
          destruct (IHe _ _ _ He) as [Hl Hb].
          apply Hstep with (g := 2 * (length s - length rest') - 1); [lia | lia |].
          cbn [parse_value]. rewrite Es, E34, E91, Et, E93.
          now rewrite (proj1 (proj2 (parse_fuel_mono _)) _ _ Hb
                         (2 * (length s - length rest') - 1) ltac:(lia)). }
      destruct (N.eqb c 123) eqn:E123.
      { pose proof (skip_ws_length t) as Hwt.
        destruct (skip_ws t) as [|d t'] eqn:Et; [discriminate|]. cbn [length] in Hwt.
        destruct (N.eqb d 125) eqn:E125.
        - injection H as <- <-.
          apply Hstep with (g := 2 * (length s - length t') - 1); [lia | lia |].
          cbn [parse_value]. now rewrite Es, E34, E91, E123, Et, E125.
        - destruct (parse_members f t) as [[kvs rest']|] eqn:He; [|discriminate].
          injection H as <- <-.
          destruct (IHm _ _ _ He) as [Hl Hb].
          apply Hstep with (g := 2 * (length s - length rest') - 1); [lia | lia |].
          cbn [parse_value]. rewrite Es, E34, E91, E123, Et, E125.
          now rewrite (proj2 (proj2 (parse_fuel_mono _)) _ _ Hb
                         (2 * (length s - length rest') - 1) ltac:(lia)). }
      assert (Hl : length rest < length (c :: t)).
      { destruct (N.eqb c 45 || is_digit c).
        - now apply parse_number_length in H.
        - destruct (strip_prefix (lit "null") (c :: t)) as [r0|] eqn:E0.
          { injection H as _ <-. apply strip_prefix_length in E0.
            rewrite E0. simpl. lia. }
          destruct (strip_prefix (lit "true") (c :: t)) as [r1|] eqn:E1.
          { injection H as _ <-. apply strip_prefix_length in E1.
            rewrite E1. simpl. lia. }
          destruct (strip_prefix (lit "false") (c :: t)) as [r2|] eqn:E2;
            [|discriminate].
          injection H as _ <-. apply strip_prefix_length in E2.
          rewrite E2. simpl. lia. }
      cbn [length] in Hl.
      apply Hstep with (g := 2 * (length s - length rest) - 1); [lia | lia |].
      cbn [parse_value]. now rewrite Es, E34, E91, E123.
    + intros s vs rest H. cbn [parse_elems] in H.
      destruct (parse_value f s) as [[v t]|] eqn:Hv; [|discriminate].
      destruct (IHv _ _ _ Hv) as [Hlv Hbv].
      pose proof (skip_ws_length t) as Hwt.
      destruct (skip_ws t) as [|c t'] eqn:Et; [discriminate|]. cbn [length] in Hwt.
      destruct (N.eqb c 44) eqn:E44.
      * destruct (parse_elems f t') as [[vs' rest']|] eqn:He; [|discriminate].
        injection H as <- <-.
        destruct (IHe _ _ _ He) as [Hl Hb].
        split; [lia|].
        replace (2 * (length s - length rest') + 1)
          with (S (2 * (length s - length rest'))) by lia.
        cbn [parse_elems].
        rewrite (proj1 (parse_fuel_mono _) _ _ Hbv
                   (2 * (length s - length rest')) ltac:(lia)).
        rewrite Et, E44.
        now rewrite (proj1 (proj2 (parse_fuel_mono _)) _ _ Hb
                       (2 * (length s - length rest')) ltac:(lia)).
      * destruct (N.eqb c 93) eqn:E93; [|discriminate].
        injection H as <- <-.
        split; [lia|].
        replace (2 * (length s - length t') + 1)
          with (S (2 * (length s - length t'))) by lia.
        cbn [parse_elems].
        rewrite (proj1 (parse_fuel_mono _) _ _ Hbv
                   (2 * (length s - length t')) ltac:(lia)).
        now rewrite Et, E44, E93.
    + intros s kvs rest H. cbn [parse_members] in H.
      pose proof (skip_ws_length s) as Hws.
      destruct (skip_ws s) as [|c t] eqn:Es; [discriminate|]. cbn [length] in Hws.
      destruct (N.eqb c 34) eqn:E34; [|discriminate].
      destruct (parse_string_body t) as [[k t1]|] eqn:Hk; [|discriminate].
      apply parse_string_body_length in Hk as Hlk.
      pose proof (skip_ws_length t1) as Hw1.
      destruct (skip_ws t1) as [|c1 t2] eqn:E1; [discriminate|]. cbn [length] in Hw1.
      destruct (N.eqb c1 58) eqn:E58; [|discriminate].
      destruct (parse_value f t2) as [[v t3]|] eqn:Hv; [|discriminate].
      destruct (IHv _ _ _ Hv) as [Hlv Hbv].
      pose proof (skip_ws_length t3) as Hw3.
      destruct (skip_ws t3) as [|c2 t4] eqn:E3; [discriminate|]. cbn [length] in Hw3.
      destruct (N.eqb c2 44) eqn:E44.
      * destruct (parse_members f t4) as [[kvs' rest']|] eqn:He; [|discriminate].
        injection H as <- <-.
        destruct (IHm _ _ _ He) as [Hl Hb].
        split; [lia|].
        replace (2 * (length s - length rest') + 1)
          with (S (2 * (length s - length rest'))) by lia.
        cbn [parse_members]. rewrite Es, E34, Hk, E1, E58.
        rewrite (proj1 (parse_fuel_mono _) _ _ Hbv
                   (2 * (length s - length rest')) ltac:(lia)).
        rewrite E3, E44.
        now rewrite (proj2 (proj2 (parse_fuel_mono _)) _ _ Hb
                       (2 * (length s - length rest')) ltac:(lia)).
      * destruct (N.eqb c2 125) eqn:E125; [|discriminate].
        injection H as <- <-.
        split; [lia|].
        replace (2 * (length s - length t4) + 1)
          with (S (2 * (length s - length t4))) by lia.
        cbn [parse_members]. rewrite Es, E34, Hk, E1, E58.
        rewrite (proj1 (parse_fuel_mono _) _ _ Hbv
                   (2 * (length s - length t4)) ltac:(lia)).
        now rewrite E3, E44, E125.
Qed.

(** The fuel [JSON_parse] supplies is enough: it fails only on a text that
    the parser rejects with any amount of fuel. *)
Lemma JSON_parse_fuel (s : jsstring) (v : json) :
  JSON_parse s = Some v
  <-> exists n rest, parse_value n s = Some (v, rest) /\ skip_ws rest = [].
Proof.
  unfold JSON_parse. split.
  - destruct (parse_value (2 * length s + 2) s) as [[v' rest]|] eqn:H; [|discriminate].
    destruct (skip_ws rest) eqn:Hr; [|discriminate].
    intros [= <-]. eauto.
  - intros (n & rest & H & Hr).
    destruct (proj1 (parse_fuel_bound n) _ _ _ H) as [Hl Hb].
    rewrite (proj1 (parse_fuel_mono _) _ _ Hb (2 * length s + 2) ltac:(lia)).
    now rewrite Hr.
Qed.

Lemma JSON_parse_none (s : jsstring) :
  JSON_parse s = None
  <-> forall n v rest, parse_value n s = Some (v, rest) -> skip_ws rest <> [].
Proof.
  split.
  - intros Hnone n v rest H Hr.
    assert (Hs : JSON_parse s = Some v) by (apply JSON_parse_fuel; eauto).
    congruence.
  - intros H. destruct (JSON_parse s) as [v|] eqn:E; [|reflexivity].
    apply JSON_parse_fuel in E as (n & rest & Hp & Hr).
    exfalso. exact (H n v rest Hp Hr).
Qed.

(** ** Lines of a file *)

Lemma split_on_nonnil (sep : N) (s : jsstring) : split_on sep s <> [].
Proof.
  destruct s as [|c r]; simpl; [discriminate|].
  destruct (N.eqb c sep); [discriminate|].
  destruct (split_on sep r); discriminate.
Qed.

Lemma split_on_app (sep : N) (a b : jsstring) :
  split_on sep (a ++ sep :: b) = split_on sep a ++ split_on sep b.
Proof.
  induction a as [|c a IH]; simpl.
  - now rewrite N.eqb_refl.
  - rewrite IH. destruct (N.eqb c sep); [reflexivity|].
    destruct (split_on sep a) as [|p ps] eqn:E; [now apply split_on_nonnil in E|].
    reflexivity.
Qed.

Lemma split_on_single (sep : N) (l : jsstring) :
  ~ In sep l -> split_on sep l = [l].
Proof.
  induction l as [|c l IH]; intros Hl; simpl; [reflexivity|].
  destruct (N.eqb_spec c sep) as [->|Hc].
  - exfalso. apply Hl. now left.
  - rewrite IH by (intros H; apply Hl; now right). reflexivity.
Qed.

Lemma lines_terminated (c : jsstring) :
  filter nonempty (split_on 10 (c ++ [10%N]))
  = filter nonempty (split_on 10 c).
Proof.
  rewrite split_on_app, filter_app. simpl. apply app_nil_r.
Qed.

(** Appending a line and a line feed to a file that is empty or ends with
    a line feed adds that line, and only it, to the lines read. *)
Lemma lines_append (content l : jsstring) :
  newline_terminated (Some content) -> is_line l ->
  filter nonempty (split_on 10 (content ++ l ++ [10%N]))
  = filter nonempty (split_on 10 content) ++ [l].
Proof.
  intros Hc [Hne Hnl].
  assert (Hl : filter nonempty (split_on 10 (l ++ [10%N])) = [l]).
  { rewrite lines_terminated, split_on_single by assumption.
    simpl. destruct l; [contradiction | reflexivity]. }
  destruct Hc as [-> | [c ->]].
  - simpl. exact Hl.
  - rewrite <- app_assoc. simpl.
    rewrite split_on_app, filter_app, Hl.
    now rewrite lines_terminated.
Qed.

(** ** JSON text of strings *)

Lemma hexval_hex_digit (n : N) :
  (n < 16)%N -> hexval (hex_digit n) = Some n.
Proof.
  intros Hn. unfold hex_digit, hexval.
  destruct (N.ltb_spec n 10).
  - replace (N.leb 48 (48 + n) && N.leb (48 + n) 57) with true.
    + f_equal. lia.
    + symmetry. apply andb_true_iff. split; apply N.leb_le; lia.
  - replace (N.leb 48 (87 + n) && N.leb (87 + n) 57) with false.
    + replace (N.leb 97 (87 + n) && N.leb (87 + n) 102) with true.
      * f_equal. lia.
      * symmetry. apply andb_true_iff. split; apply N.leb_le; lia.
    + symmetry. apply andb_false_iff. right. apply N.leb_gt. lia.
Qed.

Lemma parse_u_escape (c : N) (rest : jsstring) :
  (c < 65536)%N ->
  parse_string_body (u_escape c ++ rest)
  = cons_fst c (parse_string_body rest).
Proof.
  intros Hc. unfold u_escape.
  assert (H3 : (c / 4096 < 16)%N) by (apply N.Div0.div_lt_upper_bound; lia).
  assert (H2 : ((c / 256) mod 16 < 16)%N) by (apply N.mod_lt; lia).
  assert (H1 : ((c / 16) mod 16 < 16)%N) by (apply N.mod_lt; lia).
  assert (H0 : (c mod 16 < 16)%N) by (apply N.mod_lt; lia).
  cbn [app parse_string_body].
  change (N.eqb 92 34) with false. change (N.eqb 92 92) with true.
  change (N.eqb 117 117) with true. cbv iota.
  rewrite !hexval_hex_digit by assumption.
  f_equal.
  pose proof (N.div_mod c 16 ltac:(lia)) as E0.
  pose proof (N.div_mod (c / 16) 16 ltac:(lia)) as E1.
  pose proof (N.div_mod (c / 256) 16 ltac:(lia)) as E2.
  assert (D1 : (c / 16 / 16 = c / 256)%N) by (rewrite N.Div0.div_div; reflexivity).
  assert (D2 : (c / 256 / 16 = c / 4096)%N) by (rewrite N.Div0.div_div; reflexivity).
  assert (M3 : ((c / 4096) mod 16 = c / 4096)%N) by (apply N.mod_small; assumption).
  pose proof (N.div_mod (c / 4096) 16 ltac:(lia)) as E3.
  rewrite D1 in E1. rewrite D2 in E2. lia.
Qed.

(** A character that [quote_body] copies unchanged is read back unchanged. *)
Lemma parse_plain_char (c : N) (rest : jsstring) :
  c <> 34%N -> c <> 92%N -> (32 <= c)%N ->
  parse_string_body (c :: rest) = cons_fst c (parse_string_body rest).
Proof.
  intros H1 H2 H3. cbn [parse_string_body].
  destruct (N.eqb_spec c 34); [contradiction|].
  destruct (N.eqb_spec c 92); [contradiction|].
  destruct (N.ltb_spec c 32); [lia|]. reflexivity.
Qed.

Lemma surrogate_bounds (c : N) :
  is_high_surrogate c = true \/ is_low_surrogate c = true ->
  (55296 <= c < 57344)%N.
Proof.
  unfold is_high_surrogate, is_low_surrogate.
  intros [H|H]; apply andb_true_iff in H as [H1 H2];
    apply N.leb_le in H1, H2; lia.
Qed.

Lemma parse_quote_body_len (n : nat) :
  forall s rest, length s <= n ->
    parse_string_body (quote_body s ++ 34%N :: rest) = Some (s, rest).
Proof.
  induction n as [|n IH]; intros s rest Hlen.
  - destruct s; [|simpl in Hlen; lia]. reflexivity.
  - destruct s as [|c r]; [reflexivity|].
    simpl in Hlen. assert (Hr : length r <= n) by lia.
    cbn [quote_body].
    destruct (N.eqb_spec c 34) as [->|N34].
    { cbn. now rewrite IH. }
    destruct (N.eqb_spec c 92) as [->|N92].
    { cbn. now rewrite IH. }
    destruct (N.eqb_spec c 8) as [->|N8].
    { cbn. now rewrite IH. }
    destruct (N.eqb_spec c 12) as [->|N12].
    { cbn. now rewrite IH. }
    destruct (N.eqb_spec c 10) as [->|N10].
    { cbn. now rewrite IH. }
    destruct (N.eqb_spec c 13) as [->|N13].
    { cbn. now rewrite IH. }
    destruct (N.eqb_spec c 9) as [->|N9].
    { cbn. now rewrite IH. }
    destruct (N.ltb_spec c 32) as [L32|G32].
    { rewrite <- app_assoc, parse_u_escape by lia. now rewrite IH. }
    destruct (is_high_surrogate c) eqn:Hh.
    { pose proof (surrogate_bounds c (or_introl Hh)) as Hb.
      destruct r as [|d r'].
      - rewrite parse_u_escape by lia. reflexivity.
      - destruct (is_low_surrogate d) eqn:Hd.
        + pose proof (surrogate_bounds d (or_intror Hd)) as Hbd.
          cbn [app].
          rewrite parse_plain_char by lia.
          rewrite parse_plain_char by lia.
          rewrite IH by (simpl in Hr; lia). reflexivity.
        + rewrite <- app_assoc, parse_u_escape by lia. now rewrite IH. }
    destruct (is_low_surrogate c) eqn:Hl.
    { pose proof (surrogate_bounds c (or_intror Hl)) as Hb.
      rewrite <- app_assoc, parse_u_escape by lia. now rewrite IH. }
    cbn [app]. rewrite parse_plain_char by assumption. now rewrite IH.
Qed.

Lemma parse_quote_body (s rest : jsstring) :
  parse_string_body (quote_body s ++ 34%N :: rest) = Some (s, rest).
Proof. apply (parse_quote_body_len (length s)). lia. Qed.

(** [JSON.stringify] never leaves a raw line feed inside a string. *)
Lemma quote_body_no_newline_len (n : nat) :
  forall s, length s <= n -> ~ In 10%N (quote_body s).
Proof.
  assert (Hd : forall k, hex_digit k <> 10%N).
  { intros k. unfold hex_digit. destruct (N.ltb k 10); lia. }
  assert (Hu : forall c, ~ In 10%N (u_escape c)).
  { intros c. unfold u_escape. simpl.
    intros [H|[H|[H|[H|[H|[H|[]]]]]]]; try discriminate H;
      now apply Hd in H. }
  induction n as [|n IH]; intros s Hlen.
  - destruct s; [|simpl in Hlen; lia]. intros [].
  - destruct s as [|c r]; [intros []|].
    simpl in Hlen. assert (Hr : length r <= n) by lia.
    specialize (IH r Hr) as IHr.
    cbn [quote_body].
    repeat match goal with
           | |- context [N.eqb c ?k] =>
               destruct (N.eqb_spec c k) as [->|?];
               [simpl; intros [H|[H|H]]; [discriminate H|discriminate H|contradiction]|]
           end.
    destruct (N.ltb c 32).
    { intros H. apply in_app_or in H as [H|H]; [now apply Hu in H|contradiction]. }
    destruct (is_high_surrogate c).
    { destruct r as [|d r']; [apply Hu|].
      destruct (is_low_surrogate d) eqn:Hd'.
      - pose proof (surrogate_bounds d (or_intror Hd')) as Hbd.
        simpl. intros [H|[H|H]]; [congruence|lia|].
        revert H. apply IH. simpl in Hr. lia.
      - intros H. apply in_app_or in H as [H|H]; [now apply Hu in H|contradiction]. }
    destruct (is_low_surrogate c).
    { intros H. apply in_app_or in H as [H|H]; [now apply Hu in H|contradiction]. }
    simpl. intros [H|H]; [congruence|contradiction].
Qed.

Lemma quote_no_newline (s : jsstring) : ~ In 10%N (quote s).
Proof.
  unfold quote. simpl. intros [H|H]; [discriminate H|].
  apply in_app_or in H as [H|[H|[]]]; [|discriminate H].
  revert H. apply (quote_body_no_newline_len (length s)). lia.
Qed.

(** ** JSON text of ledger records *)

Lemma parse_simple (v : json) (f : nat) (rest : jsstring) :
  simple v ->
  parse_value (S f) (JSON_stringify v ++ rest) = Some (v, rest).
Proof.
  destruct v as [| [|] | m e | s | xs | kvs]; simpl; try contradiction;
    intros _; try reflexivity.
  unfold quote. repeat (rewrite <- app_assoc; cbn [app]).
  cbn [parse_value skip_ws is_ws N.eqb Pos.eqb orb].
  now rewrite parse_quote_body.
Qed.

Lemma simple_no_newline (v : json) : simple v -> ~ In 10%N (JSON_stringify v).
Proof.
  destruct v as [| [|] | m e | s | xs | kvs]; simpl; try contradiction;
    intros _.
  - intros H. repeat (destruct H as [H|H]; [discriminate H|]). exact H.
  - intros H. repeat (destruct H as [H|H]; [discriminate H|]). exact H.
  - intros H. repeat (destruct H as [H|H]; [discriminate H|]). exact H.
  - apply quote_no_newline.
Qed.

Lemma parse_members_back (kvs : list (jsstring * json)) :
  Forall (fun kv => simple (snd kv)) kvs -> kvs <> [] ->
  forall f rest, length kvs < f ->
    parse_members f (members_text kvs ++ 125%N :: rest) = Some (kvs, rest).
Proof.
  induction kvs as [|[k v] r IH]; intros Hs Hne f rest Hf; [contradiction|].
  apply Forall_cons_iff in Hs as [Hv Hr]. simpl in Hv.
  destruct f as [|f]; [lia|]. simpl in Hf.
  destruct f as [|f']; [lia|].
  assert (Hstep : forall X,
    parse_members (S (S f')) ((quote k ++ 58%N :: JSON_stringify v) ++ X)
    = match skip_ws X with
      | c2 :: r4 =>
          if N.eqb c2 44 then
            match parse_members (S f') r4 with
            | Some (kvs', rest') => Some ((k, v) :: kvs', rest')
            | None => None
            end
          else if N.eqb c2 125 then Some ([(k, v)], r4)
          else None
      | [] => None
      end).
  { intros X. unfold quote.
    repeat (rewrite <- app_assoc; cbn [app]).
    remember (S f') as g eqn:Hg.
    cbn [parse_members skip_ws is_ws N.eqb Pos.eqb orb].
    rewrite parse_quote_body.
    cbn [skip_ws is_ws N.eqb Pos.eqb orb].
    subst g. now rewrite (parse_simple v f' X Hv). }
  unfold members_text. destruct r as [|kv' r'].
  - change (join [44%N] (map _ [(k, v)]))
      with (quote k ++ 58%N :: JSON_stringify v).
    rewrite Hstep. reflexivity.
  - change (join [44%N] (map _ ((k, v) :: kv' :: r')))
      with ((quote k ++ 58%N :: JSON_stringify v)
              ++ [44%N] ++ members_text (kv' :: r')).
    set (A := quote k ++ 58%N :: JSON_stringify v) in *.
    rewrite <- app_assoc. rewrite Hstep.
    cbn [app skip_ws is_ws N.eqb Pos.eqb orb].
    rewrite (IH Hr ltac:(discriminate) (S f') rest ltac:(simpl in *; lia)).
    reflexivity.
Qed.

Lemma members_no_newline (kvs : list (jsstring * json)) :
  Forall (fun kv => simple (snd kv)) kvs -> ~ In 10%N (members_text kvs).
Proof.
  induction kvs as [|[k v] r IH]; intros Hs; [intros []|].
  apply Forall_cons_iff in Hs as [Hv Hr]. simpl in Hv.
  assert (H1 : ~ In 10%N (quote k ++ 58%N :: JSON_stringify v)).
  { intros H. apply in_app_or in H as [H|[H|H]].
    - now apply quote_no_newline in H.
    - discriminate H.
    - now apply simple_no_newline in H. }
  unfold members_text. destruct r as [|kv' r']; [exact H1|].
  change (join [44%N] (map _ ((k, v) :: kv' :: r')))
    with ((quote k ++ 58%N :: JSON_stringify v)
            ++ [44%N] ++ members_text (kv' :: r')).
  intros H. apply in_app_or in H as [H|H]; [contradiction|].
  simpl in H. destruct H as [H|H]; [discriminate H|].
  now apply IH in H.
Qed.

(** An object with simple values and keys that [JSON.parse] would not
    merge reads back from its text. *)
Lemma parse_object_back (kvs : list (jsstring * json)) :
  Forall (fun kv => simple (snd kv)) kvs -> kvs <> [] ->
  make_object kvs = JObj kvs ->
  JSON_parse (JSON_stringify (JObj kvs)) = Some (JObj kvs).
Proof.
  intros Hs Hne Hobj. unfold JSON_parse.
  change (JSON_stringify (JObj kvs)) with (123%N :: members_text kvs ++ [125%N]).
  set (text := 123%N :: members_text kvs ++ [125%N]).
  assert (Hlen : length kvs <= length (members_text kvs)).
  { clear. induction kvs as [|[k v] r IH]; [simpl; lia|].
    unfold members_text in *. destruct r as [|kv' r'].
    - simpl. unfold quote. simpl. lia.
    - change (join [44%N] (map ?g ((k, v) :: kv' :: r')))
        with ((quote k ++ 58%N :: JSON_stringify v)
                ++ [44%N] ++ join [44%N] (map g (kv' :: r'))).
      rewrite !length_app. simpl length at 1. simpl in IH. simpl. lia. }
  assert (Hfuel : exists f, 2 * length text + 2 = S f /\ length kvs < f).
  { exists (2 * length text + 1). split; [lia|].
    unfold text. simpl. rewrite length_app. simpl. lia. }
  destruct Hfuel as [f [-> Hf]].
  unfold text. cbn [parse_value skip_ws is_ws N.eqb Pos.eqb orb].
  change (N.eqb 123 34) with false. change (N.eqb 123 91) with false.
  change (N.eqb 123 123) with true. cbv iota.
  destruct kvs as [|[k v] r]; [contradiction|].
  assert (Hhead : exists t, members_text ((k, v) :: r) ++ [125%N] = 34%N :: t).
  { unfold members_text. destruct r; simpl; unfold quote; simpl; eauto. }
  destruct Hhead as [t Ht]. rewrite Ht. cbn [skip_ws is_ws N.eqb Pos.eqb orb].
  change (N.eqb 34 125) with false. cbv iota.
  rewrite <- Ht.
  rewrite (parse_members_back _ Hs Hne f [] Hf).
  rewrite Hobj. reflexivity.
Qed.

Lemma object_is_line (kvs : list (jsstring * json)) :
  Forall (fun kv => simple (snd kv)) kvs ->
  is_line (JSON_stringify (JObj kvs)).
Proof.
  intros Hs. split.
  - simpl. discriminate.
  - change (JSON_stringify (JObj kvs)) with (123%N :: members_text kvs ++ [125%N]).
    simpl. intros [H|H]; [discriminate H|].
    apply in_app_or in H as [H|[H|[]]]; [|discriminate H].
    now apply members_no_newline in H.
Qed.

(** ** Ledger states *)

Lemma entry_object_simple (e : TriggerInput) (st : jsstring) :
  plain_input e ->
  exists kvs, entry_object e st = JObj kvs
              /\ Forall (fun kv => simple (snd kv)) kvs
              /\ kvs <> [] /\ make_object kvs = JObj kvs.
Proof.
  intros [Hi Ht]. unfold entry_object.
  destruct e as [i t sid at_ src story]; simpl in *.
  eexists. split; [reflexivity|].
  assert (Hn : simple (nullable story)) by (destruct story; exact I).
  destruct i as [i|], t as [t|]; simpl in *;
    (split; [repeat constructor; simpl; assumption
            | split; [discriminate | reflexivity]]).
Qed.

Lemma entry_roundtrip (e : TriggerInput) (st : jsstring) :
  plain_input e ->
  JSON_parse (JSON_stringify (entry_object e st)) = Some (entry_object e st).
Proof.
  intros He. destruct (entry_object_simple e st He) as (kvs & -> & Hs & Hne & Hobj).
  now apply parse_object_back.
Qed.

Lemma entry_is_line (e : TriggerInput) (st : jsstring) :
  plain_input e -> is_line (JSON_stringify (entry_object e st)).
Proof.
  intros He. destruct (entry_object_simple e st He) as (kvs & -> & Hs & _).
  now apply object_is_line.
Qed.

Lemma entry_object_id (e : TriggerInput) (st : jsstring) :
  prop (entry_object e st) (lit "issueId") = issueId e.
Proof.
  unfold entry_object. destruct (issueId e), (issueTitle e); reflexivity.
Qed.

Lemma entry_object_status (e : TriggerInput) (st : jsstring) :
  prop (entry_object e st) (lit "status") = jstr st.
Proof.
  unfold entry_object. destruct (issueId e), (issueTitle e); reflexivity.
Qed.

Lemma entry_object_nonnull (e : TriggerInput) (st : jsstring) :
  entry_object e st <> JNull.
Proof. discriminate. Qed.

Lemma map_result_app {A B} (f : A -> result B) (xs ys : list A) (us vs : list B) :
  map_result f xs = Ok us -> map_result f ys = Ok vs ->
  map_result f (xs ++ ys) = Ok (us ++ vs).
Proof.
  revert us. induction xs as [|x xs IH]; intros us; simpl.
  - now intros [= <-].
  - destruct (f x) as [y|]; simpl; [|discriminate].
    destruct (map_result f xs) as [ws|]; simpl; [|discriminate].
    intros [= <-] Hy. now rewrite (IH ws eq_refl Hy).
Qed.

Lemma appendFile_terminated (f : file) (l : jsstring) :
  newline_terminated (appendFile f (l ++ [10%N])).
Proof.
  destruct f as [c|]; simpl; right.
  - exists (c ++ l). now rewrite app_assoc.
  - now exists l.
Qed.

(** Reading a ledger after a line was appended to it. *)
Lemma read_after_append (f : file) (recs : list json) (l : jsstring) (r : json) :
  newline_terminated f -> readTriggerLog f = Ok recs ->
  is_line l -> JSON_parse l = Some r ->
  readTriggerLog (appendFile f (l ++ [10%N])) = Ok (recs ++ [r]).
Proof.
  intros Ht Hread Hl Hp.
  assert (H1 : map_result JSON_parse_exn [l] = Ok [r]).
  { simpl. unfold JSON_parse_exn. now rewrite Hp. }
  destruct f as [c|]; cbn [appendFile readTriggerLog] in *.
  - rewrite lines_append by assumption.
    now apply map_result_app.
  - injection Hread as <-.
    pose proof (lines_append [] l (or_introl eq_refl) Hl) as H.
    cbn [app filter split_on] in H. rewrite H. exact H1.
Qed.

Lemma some_active_existsb (id : jsval) (recs : list json) :
  Forall (fun r => r <> JNull) recs ->
  some_active id recs = Ok (existsb (matches_active id) recs).
Proof.
  induction 1 as [|r recs Hr _ IH]; simpl; [reflexivity|].
  fold (matches_active id r).
  destruct r; try contradiction; destruct (matches_active id _); simpl;
    solve [reflexivity | exact IH].
Qed.

Lemma active_count_zero (id : jsval) (recs : list json) :
  existsb (matches_active id) recs = false <-> active_count id recs = 0.
Proof.
  unfold active_count. induction recs as [|r recs IH]; simpl; [tauto|].
  destruct (matches_active id r); simpl; [split; discriminate | exact IH].
Qed.

Lemma active_count_app (id : jsval) (xs ys : list json) :
  active_count id (xs ++ ys) = active_count id xs + active_count id ys.
Proof. unfold active_count. now rewrite filter_app, length_app. Qed.

Lemma strict_eq_simple_refl (v : jsval) : simple_val v -> strict_eq v v = true.
Proof.
  destruct v as [[| b | m e | s | xs | kvs]|]; simpl; try contradiction;
    intros _; try reflexivity.
  - now destruct b.
  - apply str_eqb_refl.
Qed.

Lemma matches_own_entry (e : TriggerInput) :
  simple_val (issueId e) ->
  matches_active (issueId e) (entry_object e (lit "pending")) = true.
Proof.
  intros Hi. unfold matches_active.
  rewrite entry_object_id, entry_object_status, strict_eq_simple_refl by assumption.
  reflexivity.
Qed.

(** What one admission attempt does to a well-formed ledger. *)
Lemma writeTrigger_step (f : file) (recs : list json) (e : TriggerInput) :
  ledger_ok f recs -> plain_input e ->
  (1 <= active_count (issueId e) recs /\ writeTrigger f e = Ok (false, f))
  \/ (active_count (issueId e) recs = 0
      /\ writeTrigger f e = Ok (true, appendFile f (pending_line e))
      /\ ledger_ok (appendFile f (pending_line e))
                   (recs ++ [entry_object e (lit "pending")])).
Proof.
  intros [Ht Hread Hnn] He. unfold writeTrigger. rewrite Hread. simpl.
  rewrite (some_active_existsb _ _ Hnn). simpl.
  destruct (existsb (matches_active (issueId e)) recs) eqn:Hex.
  - left. split; [|reflexivity].
    destruct (active_count (issueId e) recs) eqn:Hc; [|lia].
    apply active_count_zero in Hc. congruence.
  - right. apply active_count_zero in Hex. split; [assumption|].
    split; [reflexivity|]. unfold pending_line. split.
    + apply appendFile_terminated.
    + apply read_after_append; try assumption.
      * now apply entry_is_line.
      * now apply entry_roundtrip.
    + apply Forall_app. split; [assumption|].
      constructor; [discriminate | constructor].
Qed.

(** The appended record counts for the identifier it carries and for no
    other. *)
Lemma active_count_entry (id : jsval) (e : TriggerInput) :
  simple_val (issueId e) ->
  active_count id [entry_object e (lit "pending")]
  = if strict_eq (issueId e) id then 1 else 0.
Proof.
  intros Hi. unfold active_count. cbn [filter]. unfold matches_active.
  rewrite entry_object_id, entry_object_status.
  destruct (strict_eq (issueId e) id); reflexivity.
Qed.

Lemma strict_eq_count (a b : jsval) (recs : list json) :
  strict_eq a b = true -> active_count a recs = active_count b recs.
Proof.
  intros Hab. unfold active_count. f_equal. apply filter_ext. intros r.
  unfold matches_active. f_equal.
  destruct a as [[| x | m e | s | xs | kvs]|], b as [[| y | m' e' | t | ys | kvs']|];
    simpl in Hab; try discriminate; try reflexivity.
  - apply Bool.eqb_prop in Hab. now subst.
  - apply double_eqb_eq in Hab.
    destruct (prop r (lit "issueId")) as [[| z | m0 e0 | u | zs | kvs0]|];
      cbn [strict_eq]; try reflexivity.
    now rewrite Hab.
  - apply str_eqb_eq in Hab. now subst.
Qed.

(** ** The dedup gate *)

Lemma empty_ledger_ok (f0 : file) :
  f0 = None \/ f0 = Some [] -> ledger_ok f0 [].
Proof.
  intros [-> | ->]; split; simpl; auto.
Qed.

Lemma at_most_one_after_write (recs : list json) (e : TriggerInput) :
  simple_val (issueId e) -> at_most_one_active recs ->
  active_count (issueId e) recs = 0 ->
  at_most_one_active (recs ++ [entry_object e (lit "pending")]).
Proof.
  intros Hi Hinv H0 id. rewrite active_count_app, active_count_entry by assumption.
  destruct (strict_eq (issueId e) id) eqn:Heq.
  - rewrite <- (strict_eq_count _ _ recs Heq), H0. lia.
  - specialize (Hinv id). lia.
Qed.

Lemma attempt_all_invariant (entries : list TriggerInput) :
  forall f recs,
    ledger_ok f recs -> at_most_one_active recs -> Forall plain_input entries ->
    exists flags f' recs',
      attempt_all f entries = Ok (flags, f')
      /\ ledger_ok f' recs' /\ at_most_one_active recs'
      /\ (forall id, active_count id recs <= active_count id recs')
      /\ (forall e, In e entries -> active_count (issueId e) recs' = 1).
Proof.
  induction entries as [|e rest IH]; intros f recs Hok Hinv Hplain.
  - exists [], f, recs.
    split; [reflexivity|]. split; [assumption|]. split; [assumption|].
    split; [intros id; lia | intros e []].
  - apply Forall_cons_iff in Hplain as [He Hrest].
    destruct (writeTrigger_step f recs e Hok He) as [[Hc Hw] | (Hc & Hw & Hok')].
    + destruct (IH f recs Hok Hinv Hrest)
        as (flags & f' & recs' & Hrun & Hok' & Hinv' & Hmono & Hall).
      exists (false :: flags), f', recs'.
      split; [simpl; rewrite Hw; simpl; rewrite Hrun; reflexivity|].
      split; [assumption|]. split; [assumption|]. split; [assumption|].
      intros e' [<- | Hin]; [|now apply Hall].
      specialize (Hmono (issueId e)). specialize (Hinv' (issueId e)). lia.
    + pose proof (at_most_one_after_write recs e (proj1 He) Hinv Hc) as Hinv1.
      destruct (IH _ _ Hok' Hinv1 Hrest)
        as (flags & f' & recs' & Hrun & Hok'' & Hinv' & Hmono & Hall).
      exists (true :: flags), f', recs'.
      split; [simpl; rewrite Hw; simpl; rewrite Hrun; reflexivity|].
      split; [assumption|]. split; [assumption|]. split.
      * intros id. specialize (Hmono id). rewrite active_count_app in Hmono. lia.
      * intros e' [<- | Hin]; [|now apply Hall].
        specialize (Hmono (issueId e)). specialize (Hinv' (issueId e)).
        rewrite active_count_app, active_count_entry in Hmono by apply He.
        rewrite strict_eq_simple_refl in Hmono by apply He. lia.
Qed.

(** C1.  Starting from an empty ledger (no file, or an empty one), every
    finite sequence of admission attempts runs to its end without an
    exception, and in the ledger it leaves no identifier has more than one
    record that is pending or spawned.  Every identifier that was attempted
    has exactly one such record, and a further attempt for an identifier that
    has one returns [false] and leaves the file as it is.  Since every
    prefix of a sequence is a sequence, this holds at each moment of a run.
    The refusal does not depend on how the ledger came about: whenever the
    ledger reads as records, an attempt for an identifier with a pending or
    spawned record returns [false] and appends nothing. *)
Theorem dedup_at_most_one_active :
  forall (f0 : file) (entries : list TriggerInput),
    f0 = None \/ f0 = Some [] ->
    Forall plain_input entries ->
    (exists flags f recs,
       attempt_all f0 entries = Ok (flags, f)
       /\ readTriggerLog f = Ok recs
       /\ (forall id : jsval, active_count id recs <= 1)
       /\ (forall e, In e entries -> active_count (issueId e) recs = 1)
       /\ (forall e, plain_input e -> 1 <= active_count (issueId e) recs ->
             writeTrigger f e = Ok (false, f)))
    /\ (forall f' recs' e,
          readTriggerLog f' = Ok recs' ->
          Forall (fun r => r <> JNull) recs' ->
          1 <= active_count (issueId e) recs' ->
          writeTrigger f' e = Ok (false, f')).
Proof.
  intros f0 entries Hf0 Hplain.
  assert (Hrefuse : forall f' recs' e,
          readTriggerLog f' = Ok recs' ->
          Forall (fun r => r <> JNull) recs' ->
          1 <= active_count (issueId e) recs' ->
          writeTrigger f' e = Ok (false, f')).
  { intros f' recs' e Hread Hnn Hc. unfold writeTrigger.
    rewrite Hread. cbn [bind]. rewrite (some_active_existsb _ _ Hnn). cbn [bind].
    destruct (existsb (matches_active (issueId e)) recs') eqn:Hex; [reflexivity|].
    apply active_count_zero in Hex. lia. }
  split; [|exact Hrefuse].
  assert (H0 : at_most_one_active []) by (intros id; unfold active_count; simpl; lia).
  destruct (attempt_all_invariant entries f0 [] (empty_ledger_ok f0 Hf0) H0 Hplain)
    as (flags & f & recs & Hrun & Hok & Hinv & _ & Hall).
  exists flags, f, recs.
  split; [assumption|]. split; [apply Hok|]. split; [assumption|].
  split; [assumption|].
  intros e He Hc. apply Hrefuse with recs; [apply Hok | apply Hok | exact Hc].
Qed.

Lemma dedup_at_most_one_active_witness :
  (exists flags f recs,
     attempt_all None sample_attempts = Ok (flags, f)
     /\ readTriggerLog f = Ok recs
     /\ (forall id : jsval, active_count id recs <= 1)
     /\ (forall e, In e sample_attempts -> active_count (issueId e) recs = 1)
     /\ (forall e, plain_input e -> 1 <= active_count (issueId e) recs ->
           writeTrigger f e = Ok (false, f)))
  /\ (forall f' recs' e,
        readTriggerLog f' = Ok recs' ->
        Forall (fun r => r <> JNull) recs' ->
        1 <= active_count (issueId e) recs' ->
        writeTrigger f' e = Ok (false, f')).
Proof.
  apply (dedup_at_most_one_active None sample_attempts).
  - left. reflexivity.
  - repeat constructor.
Defined.

(** A record marked spawned from outside blocks a new admission as well. *)
Example spawned_record_blocks :
  writeTrigger clean_ledger (sample_entry "CRU-2" webhook)
  = Ok (false, clean_ledger).
Proof. vm_compute. reflexivity. Qed.

(** The flags of the sample run: written, deduped, written, deduped. *)
Example sample_attempts_flags :
  match attempt_all None sample_attempts with
  | Ok (flags, _) => flags = [true; false; true; false]
  | Throw _ => False
  end.
Proof. vm_compute. reflexivity. Qed.

(** The scenario of the push delivered twice, then seen by the poll: one
    record, written by the first push. *)
Example push_twice_then_poll :
  let w1 := snd (webhook_handler open_config quiet_env unsigned_request empty_world) in
  let w2 := snd (webhook_handler open_config quiet_env unsigned_request w1) in
  triggers w1 = Some (pending_line (sample_entry "CRU-123" webhook))
  /\ triggers w2 = triggers w1
  /\ writeTrigger (triggers w2) (sample_entry "CRU-123" poll) = Ok (false, triggers w2).
Proof. vm_compute. repeat split. Qed.

(** ** Re-arming *)




(** ** Signature check *)

Lemma is_nil_false {A} (l : list A) : is_nil l = false <-> l <> [].
Proof. destruct l; simpl; split; congruence. Qed.

(** C5.  [verifySignature] answers [true] exactly when the secret is not
    empty, the signature is not empty and the signature is, code unit for
    code unit, the hexadecimal HMAC-SHA256 digest of the body under the
    secret.  An empty secret, an empty signature and a body whose digest is
    not the signature all give [false]; being a function of its three
    arguments, it has no effect on anything else. *)
Theorem verifySignature_iff :
  forall body signature secret : jsstring,
    (verifySignature body signature secret = true <->
     secret <> [] /\ signature <> []
     /\ signature = hmac_sha256_hex secret body)
    /\ verifySignature body signature [] = false
    /\ verifySignature body [] secret = false
    /\ (forall tampered,
          hmac_sha256_hex secret tampered <> signature ->
          verifySignature tampered signature secret = false).
Proof.
  intros body signature secret. split; [|split; [|split]].
  - unfold verifySignature, str_falsy.
    destruct secret as [|c s]; [simpl; intuition congruence|].
    destruct signature as [|d t]; [simpl; intuition congruence|].
    cbn [is_nil orb]. rewrite str_eqb_eq.
    split; [intros H; repeat split; congruence | intros (_ & _ & H); congruence].
  - reflexivity.
  - unfold verifySignature, str_falsy. now rewrite orb_true_r.
  - intros tampered Hd. unfold verifySignature.
    destruct (str_falsy secret || str_falsy signature); [reflexivity|].
    now apply str_eqb_neq.
Qed.

Lemma verifySignature_iff_witness :
  verifySignature (test_body ++ lit "extra") test_signature test_secret = false.
Proof.
  refine (proj2 (proj2 (proj2
            (verifySignature_iff test_body test_signature test_secret))) _ _).
  vm_compute. discriminate.
Defined.

(** The cases of the test suite. *)
Example verify_valid_signature :
  verifySignature test_body test_signature test_secret = true.
Proof. vm_compute. reflexivity. Qed.

Example verify_invalid_signature :
  verifySignature test_body (lit "deadbeefdeadbeef") test_secret = false.
Proof. vm_compute. reflexivity. Qed.

Example verify_empty_secret :
  verifySignature test_body test_signature [] = false.
Proof. reflexivity. Qed.

Example verify_tampered_body :
  verifySignature (test_body ++ lit "extra") test_signature test_secret = false.
Proof. vm_compute. reflexivity. Qed.

(** ** Reading a ledger with a malformed line *)

Lemma map_result_throw {A B} (f : A -> result B) (xs : list A) (x : A) (e : exn) :
  In x xs -> (forall y err, f y = Throw err -> err = e) -> f x = Throw e ->
  map_result f xs = Throw e.
Proof.
  intros Hin Hsame Hx. induction xs as [|y ys IH]; [contradiction|].
  simpl. destruct Hin as [-> | Hin].
  - now rewrite Hx.
  - destruct (f y) as [b|err] eqn:Hy; simpl.
    + now rewrite (IH Hin).
    + now rewrite (Hsame _ _ Hy).
Qed.

(** Any line that is not JSON makes the whole read throw: no line is
    skipped. *)
Lemma readTriggerLog_malformed (content l : jsstring) :
  In l (split_on 10 content) -> l <> [] -> JSON_parse l = None ->
  readTriggerLog (Some content) = Throw SyntaxError.
Proof.
  intros Hin Hne Hp. unfold readTriggerLog.
  apply map_result_throw with (x := l).
  - apply filter_In. split; [assumption|]. destruct l; [contradiction | reflexivity].
  - intros y err. unfold JSON_parse_exn. destruct (JSON_parse y); congruence.
  - unfold JSON_parse_exn. now rewrite Hp.
Qed.

(** What [readTriggerLog] returns when it returns: the values of all the
    non-empty lines, in file order. *)
Lemma readTriggerLog_ok (content : jsstring) (recs : list json) :
  readTriggerLog (Some content) = Ok recs
  <-> map JSON_parse (filter nonempty (split_on 10 content)) = map Some recs.
Proof.
  unfold readTriggerLog. generalize (filter nonempty (split_on 10 content)).
  intros ls. revert recs. induction ls as [|l ls IH]; intros recs; simpl.
  - split; [intros [= <-]; reflexivity | destruct recs; [reflexivity | discriminate]].
  - unfold JSON_parse_exn at 1. destruct (JSON_parse l) as [v|]; simpl.
    + destruct (map_result JSON_parse_exn ls) as [vs|]; simpl.
      * split.
        -- intros [= <-]. simpl. f_equal. now apply IH.
        -- destruct recs as [|r recs]; [discriminate|]. simpl.
           intros [= -> H]. apply IH in H. congruence.
      * split; [discriminate|].
        destruct recs as [|r recs]; [discriminate|]. simpl.
        intros [= -> H]. apply IH in H. discriminate H.
    + split; [discriminate | destruct recs; discriminate].
Qed.

(** C2, on the failing input.  The ledger with one corrupt line between two
    valid lines does not read as the two valid records: [readTriggerLog]
    throws the [SyntaxError] of [JSON.parse], and so does the admission
    attempt that reads it.  The corrupt line is no JSON whatever fuel the
    parser is given.  Without that line the two records are returned in file
    order. *)
Theorem readTriggerLog_corrupt_line_throws :
  readTriggerLog corrupt_ledger = Throw SyntaxError
  /\ writeTrigger corrupt_ledger (sample_entry "CRU-3" webhook) = Throw SyntaxError
  /\ (forall fuel, parse_value fuel corrupt_line = None)
  /\ (exists r1 r2,
        JSON_parse valid_line_1 = Some r1 /\ JSON_parse valid_line_2 = Some r2
        /\ readTriggerLog clean_ledger = Ok [r1; r2]).
Proof.
  split; [|split; [|split]].
  - vm_compute. reflexivity.
  - vm_compute. reflexivity.
  - intros fuel. destruct (parse_value fuel corrupt_line) as [[v rest]|] eqn:H;
      [|reflexivity].
    destruct (proj1 (parse_fuel_bound fuel) _ _ _ H) as [Hl Hb].
    pose proof (proj1 (parse_fuel_mono _) _ _ Hb
                  (2 * length corrupt_line + 2) ltac:(lia)) as Hbig.
    vm_compute in Hbig. discriminate Hbig.
  - vm_compute. do 2 eexists. repeat split.
Qed.

(** ** Story path extraction *)

Lemma class_plus_ext_end (post : jsstring) :
  ends_path post -> class_plus_ext (md_ext ++ post) = None.
Proof.
  intros Hp.
  assert (H1 : class_plus_ext post = None).
  { destruct post as [|c r]; [reflexivity|].
    cbn [class_plus_ext]. cbn [ends_path] in Hp. now rewrite Hp. }
  assert (H2 : strip_prefix md_ext post = None).
  { destruct post as [|c r]; [reflexivity|]. cbn [ends_path] in Hp.
    change (strip_prefix md_ext (c :: r))
      with (if N.eqb 46 c then strip_prefix [109%N; 100%N] r else None).
    destruct (N.eqb_spec 46 c) as [<-|]; [discriminate Hp | reflexivity]. }
  change (md_ext ++ post) with (46%N :: 109%N :: 100%N :: post).
  cbn [class_plus_ext]. rewrite H1, H2.
  change (path_char 100) with true. change (path_char 109) with true.
  change (path_char 46) with true. cbv iota.
  reflexivity.
Qed.

(** The greedy class stops exactly at the end of the path. *)
Lemma class_plus_ext_path (body post : jsstring) :
  body <> [] -> forallb path_char body = true -> ends_path post ->
  class_plus_ext (body ++ md_ext ++ post) = Some (body ++ md_ext).
Proof.
  intros Hne Hb Hp. induction body as [|c b IH]; [contradiction|].
  simpl in Hb. apply andb_true_iff in Hb as [Hc Hb].
  cbn [app class_plus_ext]. rewrite Hc.
  destruct b as [|d b'].
  - cbn [app]. rewrite (class_plus_ext_end post Hp).
    now rewrite strip_prefix_app.
  - now rewrite IH.
Qed.

Lemma story_match_at_path (p post : jsstring) :
  is_story_path p -> ends_path post -> story_match_at (p ++ post) = Some p.
Proof.
  intros (body & -> & Hne & Hb) Hp. unfold story_match_at.
  rewrite <- !app_assoc, strip_prefix_app.
  now rewrite class_plus_ext_path.
Qed.

Lemma story_search_skip (pre rest : jsstring) :
  no_match_before (length pre) (pre ++ rest) = true ->
  story_search (pre ++ rest) = story_search rest.
Proof.
  induction pre as [|c pre IH]; [reflexivity|].
  cbn [length no_match_before app story_search].
  destruct (story_match_at (c :: pre ++ rest)); [discriminate|].
  exact IH.
Qed.

Lemma story_search_head (s m : jsstring) :
  story_match_at s = Some m -> story_search s = Some m.
Proof. intros H. destruct s; cbn [story_search]; now rewrite H. Qed.


(** What the class and the extension matched is a body and the extension,
    at the head of the text. *)
Lemma class_plus_ext_sound (s t : jsstring) :
  class_plus_ext s = Some t ->
  exists body post, t = body ++ md_ext /\ s = t ++ post
                    /\ body <> [] /\ forallb path_char body = true.
Proof.
  revert t. induction s as [|c r IH]; intros t; [discriminate|].
  cbn [class_plus_ext]. destruct (path_char c) eqn:Hc; [|discriminate].
  destruct (class_plus_ext r) as [t'|] eqn:Hr.
  - intros [= <-]. destruct (IH t' eq_refl) as (body & post & -> & -> & Hne & Hb).
    exists (c :: body), post. repeat split; try discriminate.
    simpl. now rewrite Hc.
  - destruct (strip_prefix md_ext r) as [post|] eqn:Hs; [|discriminate].
    intros [= <-]. apply strip_prefix_some in Hs. subst r.
    exists [c], post. repeat split; try discriminate.
    simpl. now rewrite Hc.
Qed.

Lemma story_match_at_sound (s m : jsstring) :
  story_match_at s = Some m ->
  is_story_path m /\ exists post, s = m ++ post.
Proof.
  unfold story_match_at.
  destruct (strip_prefix story_root s) as [r|] eqn:Hs; [|discriminate].
  apply strip_prefix_some in Hs. subst s.
  destruct (class_plus_ext r) as [t|] eqn:Hr; [|discriminate].
  cbn [option_map]. intros Heq.
  assert (Hm : m = story_root ++ t) by congruence. clear Heq. subst m.
  destruct (class_plus_ext_sound r t Hr) as (body & post & -> & -> & Hne & Hb).
  split.
  - exists body. auto.
  - exists post. now rewrite <- !app_assoc.
Qed.

(** The result of the search is a story path of the text, at the leftmost
    position where the pattern matches. *)
Lemma story_search_sound (s m : jsstring) :
  story_search s = Some m ->
  exists pre post, s = pre ++ m ++ post /\ is_story_path m
                   /\ no_match_before (length pre) s = true.
Proof.
  induction s as [|c r IH].
  - cbn [story_search]. change (story_match_at []) with (@None jsstring).
    discriminate.
  - cbn [story_search].
    destruct (story_match_at (c :: r)) as [m'|] eqn:Hm.
    + intros [= ->]. destruct (story_match_at_sound _ _ Hm) as [Hp [post Hs]].
      exists [], post. split; [exact Hs|]. split; [assumption | reflexivity].
    + intros H. destruct (IH H) as (pre & post & -> & Hp & Hn).
      exists (c :: pre), post. split; [reflexivity|]. split; [assumption|].
      cbn [length no_match_before]. rewrite Hm. exact Hn.
Qed.

(** A path at the head of the text always gives a match, possibly a longer
    one. *)
Lemma class_plus_ext_complete (body post : jsstring) :
  body <> [] -> forallb path_char body = true ->
  class_plus_ext (body ++ md_ext ++ post) <> None.
Proof.
  intros Hne Hb. induction body as [|c b IH]; [contradiction|].
  simpl in Hb. apply andb_true_iff in Hb as [Hc Hb].
  cbn [app class_plus_ext]. rewrite Hc.
  destruct b as [|d b'].
  - cbn [app]. destruct (class_plus_ext (md_ext ++ post)); [discriminate|].
    rewrite strip_prefix_app. discriminate.
  - destruct (class_plus_ext ((d :: b') ++ md_ext ++ post)) eqn:E; [discriminate|].
    exfalso. now apply IH.
Qed.

Lemma story_search_complete (pre p post : jsstring) :
  is_story_path p -> story_search (pre ++ p ++ post) <> None.
Proof.
  intros (body & -> & Hne & Hb).
  induction pre as [|c pre IH].
  - cbn [app]. 
    assert (Hm : story_match_at ((story_root ++ body ++ md_ext) ++ post) <> None).
    { unfold story_match_at. rewrite <- !app_assoc, strip_prefix_app.
      pose proof (class_plus_ext_complete body post Hne Hb) as Hc.
      destruct (class_plus_ext (body ++ md_ext ++ post)); [discriminate | contradiction]. }
    destruct (story_match_at ((story_root ++ body ++ md_ext) ++ post)) as [m|] eqn:E;
      [|contradiction].
    rewrite (story_search_head _ _ E). discriminate.
  - cbn [app story_search].
    destruct (story_match_at (c :: pre ++ (story_root ++ body ++ md_ext) ++ post));
      [discriminate | exact IH].
Qed.




(** The cases of the test suite. *)
Example extract_bare :
  extractStoryFilePath
    (jstr (lit "See story file at _bmad-output/stories/cruzbot/epic-2-story-2-my-story.md for details."))
  = Ok (Some (lit "_bmad-output/stories/cruzbot/epic-2-story-2-my-story.md")).
Proof. vm_compute. reflexivity. Qed.

Example extract_quoted :
  extractStoryFilePath
    (jstr (jtext "Story file: '_bmad-output/stories/cruzbot/epic-3-story-1-something.md'"))
  = Ok (Some (lit "_bmad-output/stories/cruzbot/epic-3-story-1-something.md")).
Proof. vm_compute. reflexivity. Qed.

Example extract_none :
  extractStoryFilePath (jstr (lit "No story file mentioned here.")) = Ok None.
Proof. vm_compute. reflexivity. Qed.

(** With two paths in the text the first is returned. *)
Example extract_first_of_two :
  extractStoryFilePath
    (jstr (lit "_bmad-output/stories/a.md then _bmad-output/stories/b.md"))
  = Ok (Some (lit "_bmad-output/stories/a.md")).
Proof. vm_compute. reflexivity. Qed.

(** ** Missing secret *)

Lemma process_payload_secret (s : jsstring) (cfg : PluginConfig) (env : Env)
      (payload : json) (w : World) :
  process_payload (with_secret s cfg) env payload w
  = process_payload cfg env payload w.
Proof. reflexivity. Qed.

Lemma process_body_secret (s : jsstring) (cfg : PluginConfig) (env : Env)
      (body : jsstring) (w : World) :
  process_body (with_secret s cfg) env body w = process_body cfg env body w.
Proof. reflexivity. Qed.

(** C3, refuted as stated.  With the empty secret a push without any
    signature is answered 200 and processed: its trigger record is written
    to a ledger that was empty. *)
Lemma empty_secret_is_not_fail_closed :
  webhookSecret open_config = []
  /\ triggers empty_world = None
  /\ fst (webhook_handler open_config quiet_env unsigned_request empty_world) = 200
  /\ triggers (snd (webhook_handler open_config quiet_env unsigned_request empty_world))
     = Some (pending_line (sample_entry "CRU-123" webhook))
  /\ ~ (forall cfg env req w,
          webhookSecret cfg = [] ->
          triggers (snd (webhook_handler cfg env req w)) = triggers w).
Proof.
  assert (H : triggers (snd (webhook_handler open_config quiet_env unsigned_request empty_world))
              = Some (pending_line (sample_entry "CRU-123" webhook)))
    by (vm_compute; reflexivity).
  repeat split; try reflexivity; try exact H.
  intros Hclaim.
  specialize (Hclaim open_config quiet_env unsigned_request empty_world eq_refl).
  rewrite H in Hclaim. discriminate Hclaim.
Qed.

(** ** Direct dispatch and the ledger *)

Lemma triggers_attempt_spawn (env : Env) (issue title : jsval)
      (story : option jsstring) (w : World) :
  triggers (attempt_spawn env issue title story w) = triggers w.
Proof.
  unfold attempt_spawn. destruct (sessions env) as [spawn|]; [|reflexivity].
  destruct (val_to_string issue) as [i|]; [|reflexivity].
  destruct (val_to_string title) as [t|]; [|reflexivity].
  destruct (spawn _ _) as [[|]|]; reflexivity.
Qed.

Lemma writeTrigger_file (f f' : file) (e : TriggerInput) (b : bool) :
  writeTrigger f e = Ok (b, f') ->
  (b = false /\ f' = f) \/ (b = true /\ f' = appendFile f (pending_line e)).
Proof.
  unfold writeTrigger.
  destruct (readTriggerLog f) as [recs|]; simpl; [|discriminate].
  destruct (some_active (issueId e) recs) as [[|]|]; simpl; try discriminate;
    intros [= <- <-]; auto.
Qed.

(** The ledger after the webhook path ran on a payload: unchanged, or
    longer by the pending line of the record built from the payload. *)
Lemma process_payload_ledger (cfg : PluginConfig) (env : Env)
      (payload : json) (w : World) :
  triggers (process_payload cfg env payload w) = triggers w
  \/ exists story,
       extractStoryFilePath (optprop (prop payload (lit "data")) (lit "description"))
       = Ok story
       /\ writeTrigger (triggers w) (webhook_entry cfg env payload story)
          = Ok (true, appendFile (triggers w)
                        (pending_line (webhook_entry cfg env payload story)))
       /\ triggers (process_payload cfg env payload w)
          = appendFile (triggers w) (pending_line (webhook_entry cfg env payload story)).
Proof.
  unfold process_payload.
  destruct (is_issue_update payload); [|now left].
  destruct (has_previous_state payload); [|now left].
  destruct (team_matches cfg payload); [|now left].
  cbn [negb].
  destruct (state_label_lookup (payload_new_state payload)) as [[]|]; [|now left].
  destruct (val_to_string (payload_issue_id payload)); [|now left].
  set (w2 := if logEvents cfg then _ else _).
  assert (Hw2 : triggers w2 = triggers w) by (unfold w2; destruct (logEvents cfg); reflexivity).
  destruct (strict_eq (payload_new_state payload) (jstr IN_DEV_STATE_ID)); [|now left].
  destruct (extractStoryFilePath _) as [story|] eqn:Hstory; [|now left].
  destruct (writeTrigger (triggers w2) (webhook_entry cfg env payload story))
    as [[written f]|] eqn:Hw; [|now left].
  rewrite triggers_attempt_spawn. cbn [triggers log set_triggers].
  rewrite Hw2 in Hw.
  destruct (writeTrigger_file _ _ _ _ Hw) as [[-> ->] | [-> ->]]; [now left|].
  right. exists story. auto.
Qed.

Lemma process_payload_sessions (cfg : PluginConfig) (env : Env)
      (s : option (nat -> SpawnRequest -> spawn_result)) (payload : json) (w : World) :
  triggers (process_payload cfg (with_sessions s env) payload w)
  = triggers (process_payload cfg env payload w).
Proof.
  unfold process_payload.
  destruct (is_issue_update payload); [|reflexivity].
  destruct (has_previous_state payload); [|reflexivity].
  destruct (team_matches cfg payload); [|reflexivity].
  cbn [negb].
  destruct (state_label_lookup (payload_new_state payload)) as [[]|]; [|reflexivity].
  destruct (val_to_string (payload_issue_id payload)); [|reflexivity].
  destruct (strict_eq (payload_new_state payload) (jstr IN_DEV_STATE_ID)); [|reflexivity].
  destruct (extractStoryFilePath _) as [story|]; [|reflexivity].
  change (webhook_entry cfg (with_sessions s env) payload story)
    with (webhook_entry cfg env payload story).
  destruct (writeTrigger _ (webhook_entry cfg env payload story)) as [[written f]|];
    [|reflexivity].
  now rewrite !triggers_attempt_spawn.
Qed.

Lemma poll_ready_issue_ledger (env : Env) (n : nat) (issue : json)
      (count : nat) (w : World) :
  match poll_ready_issue env n issue count w with
  | inl w' | inr (_, w') =>
      triggers w' = triggers w
      \/ exists e, triggers w' = appendFile (triggers w) (pending_line e)
  end.
Proof.
  unfold poll_ready_issue.
  destruct (extractStoryFilePath _) as [story|]; [|now left].
  destruct (writeTrigger _ _) as [[written f]|] eqn:Hw; [|now left].
  destruct (writeTrigger_file _ _ _ _ Hw) as [[-> ->] | [-> ->]]; [now left|].
  destruct (val_to_string _).
  - rewrite triggers_attempt_spawn. right. eexists. reflexivity.
  - right. eexists. reflexivity.
Qed.

Lemma poll_issue_ledger (env : Env) (n : nat) (issue : json) (count : nat) (w : World) :
  match poll_issue env n issue (count, w) with
  | inl w' | inr (_, w') =>
      triggers w' = triggers w
      \/ exists e, triggers w' = appendFile (triggers w) (pending_line e)
  end.
Proof.
  pose proof (poll_ready_issue_ledger env n issue count w) as H.
  unfold poll_issue.
  destruct issue; try (destruct (strict_eq _ _); [exact H | now left]).
  now left.
Qed.

(** Two runs of the poll loop that differ only in what the spawn
    capability does. *)
Section PollSweep.

Variables env env' : Env.
Hypothesis same_clock : clock env = clock env'.

Lemma poll_ready_issue_same (n : nat) (issue : json)
      (count : nat) (w1 w2 : World) :
  triggers w1 = triggers w2 ->
  same_ledger (poll_ready_issue env n issue count w1)
              (poll_ready_issue env' n issue count w2).
Proof.
  intros Hw. unfold poll_ready_issue.
  destruct (extractStoryFilePath _) as [story|]; [|exact Hw].
  assert (He : poll_entry env' n issue story = poll_entry env n issue story)
    by (unfold poll_entry; now rewrite same_clock).
  rewrite He, <- Hw.
  destruct (writeTrigger _ _) as [[[|] f]|]; [| |exact Hw].
  - destruct (val_to_string _); [|reflexivity].
    split; [reflexivity|]. now rewrite !triggers_attempt_spawn.
  - now split.
Qed.

Lemma poll_issue_same (n : nat) (issue : json)
      (count : nat) (w1 w2 : World) :
  triggers w1 = triggers w2 ->
  same_ledger (poll_issue env n issue (count, w1))
              (poll_issue env' n issue (count, w2)).
Proof.
  intros Hw.
  pose proof (poll_ready_issue_same n issue count w1 w2 Hw) as H.
  unfold poll_issue.
  destruct issue; try (destruct (strict_eq _ _); [exact H | now split]).
  exact Hw.
Qed.

Lemma poll_loop_same (issues : list json) :
  forall n count w1 w2,
    triggers w1 = triggers w2 ->
    same_ledger (poll_loop env n issues (count, w1))
                (poll_loop env' n issues (count, w2)).
Proof.
  induction issues as [|issue rest IH]; intros n count w1 w2 Hw.
  - now split.
  - cbn [poll_loop].
    pose proof (poll_issue_same n issue count w1 w2 Hw) as Hs.
    destruct (poll_issue env n issue (count, w1)) as [a|[c1 a]],
             (poll_issue env' n issue (count, w2)) as [b|[c2 b]];
      simpl in Hs; try contradiction.
    + exact Hs.
    + destruct Hs as [<- Hs]. now apply IH.
Qed.

End PollSweep.

(** The poll command either answers without a report and leaves the world
    alone, or has a non-empty array of issues and sweeps it. *)
Lemma linear_poll_handler_sweep (cfg : PluginConfig) (env : Env)
      (result issue : json) (rest : list json) (w : World) :
  teamId cfg <> [] ->
  polled_issues result = issue :: rest ->
  linear_poll_handler cfg env (Some result) w
  = match poll_loop env 0 (issue :: rest) (0, w) with
    | inl w' => (PollFailed, w')
    | inr (count, w') =>
        match map_result report_line (issue :: rest) with
        | Ok _ => (Report count, w')
        | Throw _ => (PollFailed, w')
        end
    end.
Proof.
  intros Hteam Hissues. unfold linear_poll_handler, polled_issues in *.
  destruct (teamId cfg) as [|c t]; [contradiction|]. cbn [str_falsy is_nil].
  destruct (coalesce _ _) as [[| | | | issues | ]|]; try discriminate.
  subst issues. reflexivity.
Qed.

Lemma linear_poll_handler_cases (cfg : PluginConfig) (env : Env)
      (response : option json) (w : World) :
  (exists r, linear_poll_handler cfg env response w = (r, w)
             /\ forall n, r <> Report n)
  \/ (exists result issue rest,
        response = Some result /\ teamId cfg <> []
        /\ polled_issues result = issue :: rest).
Proof.
  unfold linear_poll_handler.
  destruct (teamId cfg) as [|c t] eqn:Hteam;
    [left; eexists; split; [reflexivity | discriminate]|].
  cbn [str_falsy is_nil].
  destruct response as [result|];
    [|left; eexists; split; [reflexivity | discriminate]].
  destruct (coalesce _ _) as [v|] eqn:Hv;
    [|left; eexists; split; [reflexivity | discriminate]].
  destruct v as [| b | m e | s | [|issue rest] | kvs];
    try (destruct (length_is_zero _);
         left; eexists; (split; [reflexivity | discriminate])).
  - left; eexists; split; [reflexivity | discriminate].
  - right. exists result, issue, rest.
    split; [reflexivity|]. split; [discriminate|].
    unfold polled_issues. now rewrite Hv.
Qed.

(** C4, refuted as stated.  The push of the scenario is admitted, the direct
    spawn resolves to a truthy value and is logged as a success, and the
    ledger still holds the record as pending: nothing marks it spawned. *)
Lemma successful_dispatch_is_not_recorded :
  let w' := snd (webhook_handler open_config eager_env unsigned_request empty_world) in
  logger w' = [InfoStateChanged (jstr (lit "CRU-123"));
               InfoTriggerWritten webhook (jstr (lit "CRU-123"));
               InfoSpawnSucceeded (jstr (lit "CRU-123"))]
  /\ readTriggerLog (triggers w')
     = Ok [entry_object (sample_entry "CRU-123" webhook) (lit "pending")]
  /\ prop (entry_object (sample_entry "CRU-123" webhook) (lit "pending")) (lit "status")
     <> jstr (lit "spawned").
Proof.
  split; [|split].
  - vm_compute. reflexivity.
  - vm_compute. reflexivity.
  - vm_compute. discriminate.
Qed.

(** C4, amended.  A direct dispatch that succeeded is only logged.  The
    attempt never touches the ledger, and all that either ingestion path does
    to the ledger is to append the pending line of the record it admits: the
    record stays pending, and the change to spawned is left to whoever
    rewrites the file from outside. *)
Theorem dispatch_success_is_only_logged :
  (forall env issue title story w,
     triggers (attempt_spawn env issue title story w) = triggers w)
  /\ (forall env spawn issue title story w i t,
        sessions env = Some spawn ->
        val_to_string issue = Ok i -> val_to_string title = Ok t ->
        spawn (length (spawns w))
              {| spawn_issue := i; spawn_title := t; spawn_story := story |}
        = Resolved true ->
        attempt_spawn env issue title story w
        = log (InfoSpawnSucceeded issue)
              (record_spawn
                 {| spawn_issue := i; spawn_title := t; spawn_story := story |} w))
  /\ (forall cfg env payload w,
        triggers (process_payload cfg env payload w) = triggers w
        \/ exists e,
             triggers (process_payload cfg env payload w)
             = appendFile (triggers w) (pending_line e))
  /\ (forall env n issue count w,
        match poll_issue env n issue (count, w) with
        | inl w' | inr (_, w') =>
            triggers w' = triggers w
            \/ exists e, triggers w' = appendFile (triggers w) (pending_line e)
        end).
Proof.
  split; [exact triggers_attempt_spawn|]. split; [|split].
  - intros env spawn issue title story w i t Hs Hi Ht Hr.
    unfold attempt_spawn. now rewrite Hs, Hi, Ht, Hr.
  - intros cfg env payload w.
    destruct (process_payload_ledger cfg env payload w) as [H | (story & _ & _ & H)];
      [now left | right; eauto].
  - exact poll_issue_ledger.
Qed.

Lemma dispatch_success_is_only_logged_witness :
  attempt_spawn eager_env (jstr (lit "CRU-123")) (jstr (lit "Test issue")) None empty_world
  = log (InfoSpawnSucceeded (jstr (lit "CRU-123")))
        (record_spawn
           {| spawn_issue := lit "CRU-123"; spawn_title := lit "Test issue";
              spawn_story := None |} empty_world).
Proof.
  refine (proj1 (proj2 dispatch_success_is_only_logged)
                eager_env (fun _ _ => Resolved true) _ _ None empty_world _ _ _ _ _ _);
    reflexivity.
Defined.

(** ** Admission filters of the webhook path *)

Lemma is_issue_update_iff (payload : json) :
  is_issue_update payload = true <-> rule_issue_update payload.
Proof.
  unfold is_issue_update, rule_issue_update.
  now rewrite andb_true_iff, !strict_eq_jstr.
Qed.

Lemma team_matches_iff (cfg : PluginConfig) (payload : json) :
  team_matches cfg payload = true <-> rule_team cfg payload.
Proof.
  unfold team_matches, rule_team, str_falsy.
  rewrite negb_true_iff, andb_false_iff, !negb_false_iff, strict_eq_jstr.
  destruct (teamId cfg); simpl; intuition congruence.
Qed.

Lemma process_payload_rejected (cfg : PluginConfig) (env : Env)
      (payload : json) (w : World) :
  ~ passes_rules cfg payload -> process_payload cfg env payload w = w.
Proof.
  intros Hno. unfold process_payload.
  destruct (is_issue_update payload) eqn:H1; [|reflexivity].
  destruct (has_previous_state payload) eqn:H2; [|reflexivity].
  destruct (team_matches cfg payload) eqn:H3; [|reflexivity].
  exfalso. apply Hno. split; [|split].
  - now apply is_issue_update_iff.
  - exact H2.
  - now apply team_matches_iff.
Qed.

Lemma passes_rules_dec (cfg : PluginConfig) (payload : json) :
  passes_rules cfg payload \/ ~ passes_rules cfg payload.
Proof.
  unfold passes_rules.
  destruct (is_issue_update payload) eqn:H1;
    [apply is_issue_update_iff in H1
    | right; intros [H _]; apply is_issue_update_iff in H; congruence].
  destruct (has_previous_state payload) eqn:H2;
    [| right; intros (_ & H & _); unfold rule_previous_state in H;
       unfold has_previous_state in H2; congruence].
  destruct (team_matches cfg payload) eqn:H3;
    [apply team_matches_iff in H3
    | right; intros (_ & _ & H); apply team_matches_iff in H; congruence].
  left. auto.
Qed.

(** C8.  A parsed push payload is processed only if it passes the three
    rules in turn: it is an update of an issue, it carries a truthy
    [updatedFrom.stateId], and with a team filter configured its team is the
    configured one.  A payload that fails a rule is dropped without a trace:
    the world after the route is the world before, with no record, no log
    line and no error.  For every body, parsed or not, a change to the
    ledger, to the event log or to the spawn calls means that the body was a
    payload passing the three rules. *)
Theorem webhook_admission_filters :
  forall (cfg : PluginConfig) (env : Env) (body : jsstring) (w : World),
    (forall payload,
       JSON_parse body = Some payload -> payload <> JNull ->
       ~ passes_rules cfg payload ->
       process_body cfg env body w = w)
    /\ (forall payload,
          JSON_parse body = Some payload -> payload <> JNull ->
          process_body cfg env body w <> w ->
          passes_rules cfg payload)
    /\ (triggers (process_body cfg env body w) <> triggers w
        \/ events (process_body cfg env body w) <> events w
        \/ spawns (process_body cfg env body w) <> spawns w ->
        exists payload, JSON_parse body = Some payload /\ passes_rules cfg payload).
Proof.
  intros cfg env body w.
  assert (HA : forall payload,
       JSON_parse body = Some payload -> payload <> JNull ->
       ~ passes_rules cfg payload ->
       process_body cfg env body w = w).
  { intros payload Hp Hnn Hno. unfold process_body. rewrite Hp.
    destruct payload; try contradiction; now apply process_payload_rejected. }
  split; [exact HA|]. split.
  - intros payload Hp Hnn Hch.
    destruct (passes_rules_dec cfg payload) as [H|H]; [assumption|].
    exfalso. apply Hch. now apply HA with payload.
  - intros Hch. unfold process_body in Hch.
    destruct (JSON_parse body) as [payload|] eqn:Hp.
    + exists payload. split; [reflexivity|].
      destruct (passes_rules_dec cfg payload) as [H|H]; [assumption|].
      exfalso.
      destruct payload;
        try (rewrite (process_payload_rejected cfg env _ w H) in Hch);
        cbn [log triggers events spawns] in Hch; tauto.
    + exfalso. cbn [log triggers events spawns] in Hch. tauto.
Qed.

Lemma webhook_admission_filters_witness :
  process_body open_config quiet_env created_body empty_world = empty_world.
Proof.
  refine (proj1 (webhook_admission_filters open_config quiet_env created_body
                   empty_world) created_payload _ _ _).
  - vm_compute. reflexivity.
  - discriminate.
  - intros [[_ H] _]. vm_compute in H. discriminate H.
Defined.

(** ** Pushes without an identifier *)

Lemma nameless_payload_ok (title : string) :
  nameless_ready_push open_config (nameless_payload title).
Proof.
  split.
  - split; [split; reflexivity | split; [reflexivity | left; reflexivity]].
  - reflexivity.
  - reflexivity.
  - reflexivity.
  - left. reflexivity.
Defined.

Lemma nameless_issue_id (cfg : PluginConfig) (payload : json) :
  nameless_ready_push cfg payload ->
  payload_issue_id payload = jstr (lit "unknown").
Proof.
  intros [_ _ H1 H2 _]. unfold payload_issue_id, coalesce.
  rewrite H1, H2. reflexivity.
Qed.

Lemma extract_typed (d : jsval) :
  description_typed d -> exists story, extractStoryFilePath d = Ok story.
Proof.
  unfold extractStoryFilePath. intros [H | [s ->]].
  - rewrite H. now exists None.
  - destruct (truthy (jstr s)); cbn [negb jstr]; eauto.
Qed.

(** The webhook path on a payload that passes the filters into the ready
    state, when the admission writes. *)
Lemma process_payload_writes (cfg : PluginConfig) (env : Env) (payload : json)
      (w : World) (story : option jsstring) (f : file) (i : jsstring) :
  passes_rules cfg payload ->
  payload_new_state payload = jstr IN_DEV_STATE_ID ->
  val_to_string (payload_issue_id payload) = Ok i ->
  extractStoryFilePath (optprop (prop payload (lit "data")) (lit "description"))
  = Ok story ->
  writeTrigger (triggers w) (webhook_entry cfg env payload story) = Ok (true, f) ->
  triggers (process_payload cfg env payload w) = f.
Proof.
  intros (H1 & H2 & H3) Hst Hi Hstory Hw.
  apply is_issue_update_iff in H1. apply team_matches_iff in H3.
  unfold rule_previous_state in H2. fold (has_previous_state payload) in H2.
  unfold process_payload. rewrite H1, H2, H3. cbn [negb].
  rewrite Hst, Hi.
  change (state_label_lookup (jstr IN_DEV_STATE_ID)) with (Ok tt).
  rewrite (proj2 (strict_eq_jstr _ _) eq_refl), Hstory.
  set (w2 := if logEvents cfg then _ else _).
  assert (Hw2 : triggers w2 = triggers w)
    by (unfold w2; destruct (logEvents cfg); reflexivity).
  rewrite Hw2, Hw. now rewrite triggers_attempt_spawn.
Qed.

(** While an active record of ["unknown"] is in the ledger, a push without
    identifier writes nothing. *)
Lemma nameless_push_deduped (cfg : PluginConfig) (env : Env) (payload : json)
      (w : World) (recs : list json) :
  nameless_ready_push cfg payload ->
  readTriggerLog (triggers w) = Ok recs ->
  Forall (fun r => r <> JNull) recs ->
  1 <= active_count (jstr (lit "unknown")) recs ->
  triggers (process_payload cfg env payload w) = triggers w.
Proof.
  intros Hp Hread Hnn Hc.
  destruct (process_payload_ledger cfg env payload w) as [H | (story & _ & Hw & _)];
    [assumption|].
  exfalso. unfold writeTrigger in Hw. rewrite Hread in Hw. cbn [bind] in Hw.
  rewrite (some_active_existsb _ _ Hnn) in Hw. cbn [bind] in Hw.
  change (issueId (webhook_entry cfg env payload story))
    with (payload_issue_id payload) in Hw.
  rewrite (nameless_issue_id cfg payload Hp) in Hw.
  destruct (existsb (matches_active (jstr (lit "unknown"))) recs) eqn:Hex;
    [discriminate Hw|].
  apply active_count_zero in Hex. lia.
Qed.

(** C10.  A push that passes the filters into the ready state without
    [data.identifier] and [data.id] is admitted under the identifier
    ["unknown"]: on a ledger without an active record of that name the route
    appends a pending record whose [issueId] is ["unknown"].  From then on,
    and for as long as a record of ["unknown"] is pending or spawned, any
    other push without identifier, whatever issue it is about, is deduped
    against that record and writes nothing. *)
Theorem unknown_identifier_collision :
  forall (cfg : PluginConfig) (env env' : Env) (payload payload' : json)
         (w : World) (recs : list json),
    nameless_ready_push cfg payload ->
    nameless_ready_push cfg payload' ->
    simple_val (payload_title payload) ->
    ledger_ok (triggers w) recs ->
    active_count (jstr (lit "unknown")) recs = 0 ->
    exists story,
      let e := webhook_entry cfg env payload story in
      let w1 := process_payload cfg env payload w in
      issueId e = jstr (lit "unknown")
      /\ triggers w1 = appendFile (triggers w) (pending_line e)
      /\ readTriggerLog (triggers w1) = Ok (recs ++ [entry_object e (lit "pending")])
      /\ prop (entry_object e (lit "pending")) (lit "issueId") = jstr (lit "unknown")
      /\ prop (entry_object e (lit "pending")) (lit "status") = jstr (lit "pending")
      /\ triggers (process_payload cfg env' payload' w1) = triggers w1
      /\ (forall w2 recs2,
            readTriggerLog (triggers w2) = Ok recs2 ->
            Forall (fun r => r <> JNull) recs2 ->
            1 <= active_count (jstr (lit "unknown")) recs2 ->
            triggers (process_payload cfg env' payload' w2) = triggers w2).
Proof.
  intros cfg env env' payload payload' w recs Hp Hp' Htitle Hok Hc.
  destruct (extract_typed _ (nameless_description _ _ Hp)) as [story Hstory].
  exists story. cbv zeta.
  set (e := webhook_entry cfg env payload story).
  assert (Hid : issueId e = jstr (lit "unknown"))
    by exact (nameless_issue_id cfg payload Hp).
  assert (Hplain : plain_input e) by (split; [rewrite Hid; exact I | exact Htitle]).
  destruct (writeTrigger_step _ recs e Hok Hplain) as [[Hc1 _] | (_ & Hw & Hok1)];
    [rewrite Hid in Hc1; lia|].
  assert (Hw1 : triggers (process_payload cfg env payload w)
                = appendFile (triggers w) (pending_line e)).
  { apply process_payload_writes with (story := story) (i := lit "unknown");
      try assumption.
    - apply Hp.
    - apply Hp.
    - change (payload_issue_id payload) with (issueId e). now rewrite Hid. }
  assert (Hread1 : readTriggerLog (triggers (process_payload cfg env payload w))
                   = Ok (recs ++ [entry_object e (lit "pending")]))
    by (rewrite Hw1; apply Hok1).
  split; [exact Hid|]. split; [exact Hw1|]. split; [exact Hread1|].
  split; [now rewrite entry_object_id|]. split; [apply entry_object_status|].
  split.
  - apply nameless_push_deduped with (recs := recs ++ [entry_object e (lit "pending")]);
      [exact Hp' | exact Hread1 | apply Hok1 |].
    rewrite active_count_app, active_count_entry by (rewrite Hid; exact I).
    rewrite Hid, strict_eq_simple_refl by exact I. lia.
  - intros w2 recs2 Hr2 Hnn2 Hc2. now apply nameless_push_deduped with (recs := recs2).
Qed.

Lemma unknown_identifier_collision_witness :
  exists story,
    let e := webhook_entry open_config quiet_env (nameless_payload "First item") story in
    let w1 := process_payload open_config quiet_env (nameless_payload "First item")
                              empty_world in
    issueId e = jstr (lit "unknown")
    /\ triggers w1 = appendFile (triggers empty_world) (pending_line e)
    /\ readTriggerLog (triggers w1) = Ok ([] ++ [entry_object e (lit "pending")])
    /\ prop (entry_object e (lit "pending")) (lit "issueId") = jstr (lit "unknown")
    /\ prop (entry_object e (lit "pending")) (lit "status") = jstr (lit "pending")
    /\ triggers (process_payload open_config eager_env
                                 (nameless_payload "Another item") w1)
       = triggers w1
    /\ (forall w2 recs2,
          readTriggerLog (triggers w2) = Ok recs2 ->
          Forall (fun r => r <> JNull) recs2 ->
          1 <= active_count (jstr (lit "unknown")) recs2 ->
          triggers (process_payload open_config eager_env
                                    (nameless_payload "Another item") w2)
          = triggers w2).
Proof.
  apply (unknown_identifier_collision open_config quiet_env eager_env
           (nameless_payload "First item") (nameless_payload "Another item")
           empty_world []).
  - exact (nameless_payload_ok "First item").
  - exact (nameless_payload_ok "Another item").
  - exact I.
  - split; [exact I | reflexivity | constructor].
  - reflexivity.
Defined.

(** ** Missing secret: what gets through *)

(** C3, amended.  With the empty secret the signature check is skipped,
    although [verifySignature] itself accepts nothing under an empty
    secret: every POST request, whatever its signature header and body, is
    answered 200 and its body is processed, exactly as the same body is
    under a configured secret with a valid signature.  So a push that passes
    the filters into the ready state, with a plain identifier and title and
    a description that is a string or falsy, gets its trigger written when
    the ledger is well formed and holds no pending or spawned record of the
    issue.  The poll command does not look at the secret. *)
Theorem empty_secret_skips_signature_check :
  forall (cfg : PluginConfig) (env : Env) (req : Request) (w : World),
    webhookSecret cfg = [] ->
    method req = lit "POST" ->
    webhook_handler cfg env req w = (200, process_body cfg env (rawBody req) w)
    /\ (forall signature,
          verifySignature (rawBody req) signature (webhookSecret cfg) = false)
    /\ (forall secret signature,
          verifySignature (rawBody req) signature secret = true ->
          webhook_handler (with_secret secret cfg) env
            {| method := lit "POST"; signature_header := Some signature;
               rawBody := rawBody req |} w
          = webhook_handler cfg env req w)
    /\ (forall payload recs,
          JSON_parse (rawBody req) = Some payload ->
          passes_rules cfg payload ->
          payload_new_state payload = jstr IN_DEV_STATE_ID ->
          description_typed
            (optprop (prop payload (lit "data")) (lit "description")) ->
          simple_val (payload_issue_id payload) ->
          simple_val (payload_title payload) ->
          ledger_ok (triggers w) recs ->
          active_count (payload_issue_id payload) recs = 0 ->
          exists story,
            triggers (snd (webhook_handler cfg env req w))
            = appendFile (triggers w)
                (pending_line (webhook_entry cfg env payload story)))
    /\ (forall secret response,
          linear_poll_handler (with_secret secret cfg) env response w
          = linear_poll_handler cfg env response w).
Proof.
  intros cfg env req w Hs Hm.
  assert (H1 : webhook_handler cfg env req w
               = (200, process_body cfg env (rawBody req) w)).
  { unfold webhook_handler. rewrite Hm, Hs, str_eqb_refl. reflexivity. }
  split; [exact H1|]. split; [|split; [|split]].
  - intros signature. rewrite Hs. reflexivity.
  - intros secret signature Hv. rewrite H1.
    unfold webhook_handler. cbn [method signature_header rawBody webhookSecret with_secret].
    rewrite str_eqb_refl, Hv. cbn [negb andb].
    rewrite andb_false_r. now rewrite process_body_secret.
  - intros payload recs Hparse Hrules Hst Hdesc Hid Htitle Hok Hc.
    rewrite H1. cbn [snd]. unfold process_body. rewrite Hparse.
    destruct (extract_typed _ Hdesc) as [story Hstory]. exists story.
    assert (Hplain : plain_input (webhook_entry cfg env payload story))
      by (split; assumption).
    destruct (writeTrigger_step _ recs _ Hok Hplain) as [[Hc1 _] | (_ & Hw & _)];
      [change (issueId (webhook_entry cfg env payload story))
         with (payload_issue_id payload) in Hc1; lia|].
    destruct (val_to_string_simple _ Hid) as [i Hi].
    assert (Hgoal : triggers (process_payload cfg env payload w)
                    = appendFile (triggers w)
                        (pending_line (webhook_entry cfg env payload story)))
      by (apply process_payload_writes with (story := story) (i := i);
          assumption).
    destruct payload; exact Hgoal.
  - intros secret response. reflexivity.
Qed.

Lemma empty_secret_skips_signature_check_witness :
  webhook_handler open_config quiet_env unsigned_request empty_world
  = (200, process_body open_config quiet_env (rawBody unsigned_request) empty_world).
Proof.
  refine (proj1 (empty_secret_skips_signature_check open_config quiet_env
                   unsigned_request empty_world _ _)); reflexivity.
Defined.

(* ================================================================== *)
(** * Further properties of the code *)
(* ================================================================== *)

(** ** Shape of a digest *)

Lemma round_length (st : list Z) (kw : Z * Z) :
  length (SHA256.round st kw) = length st.
Proof.
  unfold SHA256.round.
  destruct st as [|a [|b [|c [|d [|e [|f [|g [|h [|i r]]]]]]]]]; reflexivity.
Qed.

Lemma fold_round_length (kws : list (Z * Z)) (st : list Z) :
  length (fold_left SHA256.round kws st) = length st.
Proof.
  revert st. induction kws as [|kw kws IH]; intros st; simpl; [reflexivity|].
  now rewrite IH, round_length.
Qed.

Lemma compress_length (st block : list Z) :
  length (SHA256.compress st block) = length st.
Proof.
  unfold SHA256.compress.
  rewrite length_map, length_combine, fold_round_length. apply Nat.min_id.
Qed.

Lemma compress_range (st block : list Z) :
  Forall (fun x => (0 <= x < 4294967296)%Z) (SHA256.compress st block).
Proof.
  unfold SHA256.compress. apply Forall_forall. intros x Hx.
  apply in_map_iff in Hx as [p [<- _]]. unfold SHA256.add32.
  apply Z.mod_pos_bound. lia.
Qed.

Lemma hash_words_shape (msg : list Z) :
  length (SHA256.hash_words msg) = 8
  /\ Forall (fun x => (0 <= x < 4294967296)%Z) (SHA256.hash_words msg).
Proof.
  unfold SHA256.hash_words.
  generalize (SHA256.chunks 16 (length (SHA256.words (SHA256.pad msg)))
                            (SHA256.words (SHA256.pad msg))).
  intros blocks.
  assert (H0 : length SHA256.H0 = 8
               /\ Forall (fun x => (0 <= x < 4294967296)%Z) SHA256.H0).
  { split; [reflexivity|]. unfold SHA256.H0. repeat constructor; lia. }
  revert H0. generalize SHA256.H0.
  induction blocks as [|b bs IH]; intros st Hst; simpl; [exact Hst|].
  apply IH. split.
  - rewrite compress_length. apply Hst.
  - apply compress_range.
Qed.

Lemma hex_digit_lower (n : N) : (n < 16)%N -> is_lower_hex (hex_digit n) = true.
Proof.
  intros Hn. unfold is_lower_hex, hex_digit.
  destruct (N.ltb_spec n 10); apply orb_true_iff; [left | right];
    apply andb_true_iff; split; apply N.leb_le; lia.
Qed.

Lemma hex_shape (bytes : list Z) :
  Forall (fun b => (0 <= b < 256)%Z) bytes ->
  length (SHA256.hex bytes) = 2 * length bytes
  /\ forallb is_lower_hex (SHA256.hex bytes) = true.
Proof.
  unfold SHA256.hex. induction 1 as [|b bs Hb _ [IHl IHf]]; [split; reflexivity|].
  cbn [flat_map app length forallb]. rewrite IHl, IHf. split; [lia|].
  rewrite !hex_digit_lower; [reflexivity | |].
  - assert (0 <= b mod 16 < 16)%Z by (apply Z.mod_pos_bound; lia). lia.
  - assert (0 <= b / 16 < 16)%Z
      by (split; [apply Z.div_pos; lia | apply Z.div_lt_upper_bound; lia]).
    lia.
Qed.

Lemma hash_shape (msg : list Z) :
  length (SHA256.hash msg) = 32
  /\ Forall (fun b => (0 <= b < 256)%Z) (SHA256.hash msg).
Proof.
  unfold SHA256.hash. destruct (hash_words_shape msg) as [Hl Hr].
  revert Hl Hr. generalize (SHA256.hash_words msg) as ws. intros ws.
  assert (Hgen : forall ws,
            Forall (fun x => (0 <= x < 4294967296)%Z) ws ->
            length (flat_map SHA256.word_bytes ws) = 4 * length ws
            /\ Forall (fun b => (0 <= b < 256)%Z) (flat_map SHA256.word_bytes ws)).
  { clear. induction 1 as [|x xs Hx _ [IHl IHf]]; [split; [reflexivity | constructor]|].
    cbn [flat_map]. rewrite length_app, IHl. split; [simpl; lia|].
    apply Forall_app. split; [|exact IHf].
    unfold SHA256.word_bytes. repeat constructor;
      try (apply Z.div_pos; lia); try (apply Z.div_lt_upper_bound; lia);
      try (apply Z.mod_pos_bound; lia). }
  intros Hl Hr. destruct (Hgen ws Hr) as [H1 H2]. rewrite H1, Hl. now split.
Qed.

(** The digest is a string of 64 lower-case hexadecimal digits. *)
Lemma hmac_sha256_hex_shape (key data : jsstring) :
  length (hmac_sha256_hex key data) = 64
  /\ forallb is_lower_hex (hmac_sha256_hex key data) = true.
Proof.
  unfold hmac_sha256_hex, SHA256.hmac.
  match goal with |- context [SHA256.hex (SHA256.hash ?m)] =>
    destruct (hash_shape m) as [Hl Hr];
    destruct (hex_shape _ Hr) as [H1 H2]; rewrite H1, Hl, H2 end.
  now split.
Qed.

Lemma verifySignature_true (body signature secret : jsstring) :
  verifySignature body signature secret = true ->
  secret <> [] /\ signature = hmac_sha256_hex secret body.
Proof.
  unfold verifySignature, str_falsy.
  destruct secret as [|c s]; [discriminate|].
  destruct signature as [|d t]; [discriminate|].
  cbn [is_nil orb]. intros H. apply str_eqb_eq in H. split; [discriminate | congruence].
Qed.

(** X2.  A signature that [verifySignature] accepts is made of exactly 64
    lower-case hexadecimal digits: a digest written in upper case, or with a
    prefix in front of it, is refused. *)
Theorem accepted_signature_is_lowercase_hex :
  forall body signature secret : jsstring,
    verifySignature body signature secret = true ->
    length signature = 64 /\ forallb is_lower_hex signature = true.
Proof.
  intros body signature secret H.
  apply verifySignature_true in H as [_ ->]. apply hmac_sha256_hex_shape.
Qed.

Lemma accepted_signature_is_lowercase_hex_witness :
  length test_signature = 64 /\ forallb is_lower_hex test_signature = true.
Proof.
  apply (accepted_signature_is_lowercase_hex test_body test_signature test_secret).
  vm_compute. reflexivity.
Defined.

(** ** Answers of the webhook route *)

Lemma hmac_sha256_hex_nonempty (key data : jsstring) :
  hmac_sha256_hex key data <> [].
Proof.
  intros H. pose proof (proj1 (hmac_sha256_hex_shape key data)) as Hl.
  rewrite H in Hl. discriminate Hl.
Qed.

(** X1.  The route answers 405 to anything but a POST and touches nothing.
    With a secret configured, a POST is answered 200 and processed exactly
    when its signature header is the digest of the raw body under the
    secret; with any other header, or none, it is answered 401 and all the
    route does is log a warning. *)
Theorem webhook_response_codes :
  forall (cfg : PluginConfig) (env : Env) (req : Request) (w : World),
    (method req <> lit "POST" -> webhook_handler cfg env req w = (405, w))
    /\ (method req = lit "POST" -> webhookSecret cfg <> [] ->
        (signature_header req
         = Some (hmac_sha256_hex (webhookSecret cfg) (rawBody req)) ->
         webhook_handler cfg env req w
         = (200, process_body cfg env (rawBody req) w))
        /\ (signature_header req
            <> Some (hmac_sha256_hex (webhookSecret cfg) (rawBody req)) ->
            webhook_handler cfg env req w = (401, log WarnInvalidSignature w))).
Proof.
  intros cfg env req w. split.
  - intros Hm. unfold webhook_handler.
    apply str_eqb_neq in Hm. now rewrite Hm.
  - intros Hm Hs. unfold webhook_handler. rewrite Hm, str_eqb_refl. cbn [negb].
    unfold str_falsy at 1. rewrite (proj2 (is_nil_false _) Hs). cbn [negb andb].
    unfold verifySignature, str_falsy. rewrite (proj2 (is_nil_false _) Hs).
    cbn [orb]. split.
    + intros ->.
      rewrite (proj2 (is_nil_false _) (hmac_sha256_hex_nonempty _ _)).
      now rewrite str_eqb_refl.
    + intros Hne. destruct (signature_header req) as [sg|]; [|reflexivity].
      destruct (is_nil sg) eqn:Hn; [reflexivity|].
      destruct (str_eqb _ sg) eqn:He; [|reflexivity].
      apply str_eqb_eq in He. subst sg. contradiction.
Qed.

Lemma webhook_response_codes_witness :
  webhook_handler team_config quiet_env unsigned_request empty_world
  = (401, log WarnInvalidSignature empty_world).
Proof.
  refine (proj2 (proj2 (webhook_response_codes team_config quiet_env
                          unsigned_request empty_world) _ _) _).
  - reflexivity.
  - discriminate.
  - discriminate.
Defined.

(** ** Reading and writing the ledger *)

Lemma ledger_text_terminated (es : list (TriggerInput * jsstring)) :
  newline_terminated (Some (ledger_text es)).
Proof.
  destruct es as [|p es] using rev_ind; [now left|].
  right. unfold ledger_text. rewrite flat_map_app. cbn [flat_map].
  rewrite app_nil_r, app_assoc. eauto.
Qed.

(** X3.  Records written one per line read back as written: for entries
    with identifiers and titles of the declared type and any statuses, the
    ledger made of their lines reads as exactly these records, in file
    order, and each shows the identifier and the status it was written
    with. *)
Theorem ledger_round_trip :
  forall es : list (TriggerInput * jsstring),
    Forall (fun p => plain_input (fst p)) es ->
    readTriggerLog (Some (ledger_text es)) = Ok (ledger_records es)
    /\ Forall2 (fun p r =>
                  prop r (lit "issueId") = issueId (fst p)
                  /\ prop r (lit "status") = jstr (snd p))
               es (ledger_records es).
Proof.
  intros es Hes. split.
  - induction es as [|p es IH] using rev_ind; [reflexivity|].
    apply Forall_app in Hes as [Hes Hp]. apply Forall_cons_iff in Hp as [Hp _].
    unfold ledger_text, ledger_records. rewrite flat_map_app, map_app.
    cbn [flat_map map]. rewrite app_nil_r.
    apply (read_after_append (Some (ledger_text es))).
    + apply ledger_text_terminated.
    + now apply IH.
    + now apply entry_is_line.
    + now apply entry_roundtrip.
  - clear Hes. induction es as [|p es IH]; constructor; [|exact IH].
    split; [apply entry_object_id | apply entry_object_status].
Qed.

Lemma ledger_round_trip_witness :
  readTriggerLog
    (Some (ledger_text [(sample_entry "CRU-1" webhook, lit "spawned");
                        (sample_entry "CRU-2" poll, lit "skipped")]))
  = Ok (ledger_records [(sample_entry "CRU-1" webhook, lit "spawned");
                        (sample_entry "CRU-2" poll, lit "skipped")]).
Proof.
  refine (proj1 (ledger_round_trip _ _)).
  repeat constructor.
Defined.

Lemma matches_active_iff (id : jsval) (r : json) :
  matches_active id r = true <-> blocking_record id r.
Proof.
  unfold matches_active, blocking_record, is_active_status.
  now rewrite andb_true_iff, orb_true_iff, !strict_eq_jstr.
Qed.

(** X4.  On a ledger that reads as records, [writeTrigger] returns [false]
    exactly when some record has the identifier of the entry and the status
    pending or spawned, and then leaves the file as it is; any other status,
    or none, does not block, and then the file grows by the pending line of
    the entry and by nothing else. *)
Theorem writeTrigger_blocked_iff :
  forall (f : file) (recs : list json) (e : TriggerInput),
    readTriggerLog f = Ok recs ->
    Forall (fun r => r <> JNull) recs ->
    exists b f',
      writeTrigger f e = Ok (b, f')
      /\ (b = false <-> exists r, In r recs /\ blocking_record (issueId e) r)
      /\ (b = false -> f' = f)
      /\ (b = true -> f' = appendFile f (pending_line e)).
Proof.
  intros f recs e Hread Hnn. unfold writeTrigger. rewrite Hread. cbn [bind].
  rewrite (some_active_existsb _ _ Hnn). cbn [bind].
  destruct (existsb (matches_active (issueId e)) recs) eqn:Hex.
  - exists false, f. split; [reflexivity|]. split; [|split; [reflexivity | discriminate]].
    split; [intros _ | reflexivity].
    apply existsb_exists in Hex as [r [Hin Hr]]. exists r.
    split; [assumption | now apply matches_active_iff].
  - exists true, (appendFile f (pending_line e)).
    split; [reflexivity|]. split; [|split; [discriminate | reflexivity]].
    split; [discriminate|]. intros [r [Hin Hr]]. exfalso.
    apply matches_active_iff in Hr.
    assert (existsb (matches_active (issueId e)) recs = true)
      by (apply existsb_exists; eauto).
    congruence.
Qed.

Lemma writeTrigger_blocked_iff_witness :
  exists b f',
    writeTrigger clean_ledger (sample_entry "CRU-1" poll) = Ok (b, f')
    /\ (b = false <->
        exists r, In r clean_records
                  /\ blocking_record (issueId (sample_entry "CRU-1" poll)) r)
    /\ (b = false -> f' = clean_ledger)
    /\ (b = true ->
        f' = appendFile clean_ledger (pending_line (sample_entry "CRU-1" poll))).
Proof.
  apply (writeTrigger_blocked_iff clean_ledger clean_records).
  - vm_compute. reflexivity.
  - vm_compute. repeat constructor; discriminate.
Defined.

Lemma some_active_null (id : jsval) (pre post : list json) :
  Forall (fun r => r <> JNull /\ ~ blocking_record id r) pre ->
  some_active id (pre ++ JNull :: post) = Throw TypeError.
Proof.
  induction 1 as [|r pre [Hr Hb] _ IH]; [reflexivity|].
  cbn [app some_active]. fold (matches_active id r).
  destruct (matches_active id r) eqn:Hm;
    [apply matches_active_iff in Hm; contradiction|].
  destruct r; try contradiction; exact IH.
Qed.

Lemma scalar_never_blocks (id : jsval) (recs : list json) :
  Forall scalar_or_array recs ->
  existsb (matches_active id) recs = false.
Proof.
  induction 1 as [|r recs Hr _ IH]; [reflexivity|].
  cbn [existsb]. rewrite IH, orb_false_r.
  unfold matches_active, is_active_status.
  destruct r; try contradiction; cbn [prop strict_eq orb]; apply andb_false_r.
Qed.

(** X5.  A line holding the bare value [null] poisons the ledger: unless a
    blocking record stands before it, every admission attempt throws a
    [TypeError] when the scan reaches it, and nothing is written.  Lines
    holding a number, a string, a boolean or an array are harmless: they
    never block, and the attempt writes. *)
Theorem null_line_breaks_admission :
  forall (f : file) (e : TriggerInput),
    (forall pre post,
       readTriggerLog f = Ok (pre ++ JNull :: post) ->
       Forall (fun r => r <> JNull /\ ~ blocking_record (issueId e) r) pre ->
       writeTrigger f e = Throw TypeError)
    /\ (forall recs,
          readTriggerLog f = Ok recs -> Forall scalar_or_array recs ->
          writeTrigger f e = Ok (true, appendFile f (pending_line e))).
Proof.
  intros f e. split.
  - intros pre post Hread Hpre. unfold writeTrigger. rewrite Hread. cbn [bind].
    now rewrite some_active_null.
  - intros recs Hread Hs. unfold writeTrigger. rewrite Hread. cbn [bind].
    assert (Hnn : Forall (fun r => r <> JNull) recs).
    { eapply Forall_impl; [|exact Hs]. intros r Hr ->. exact Hr. }
    rewrite (some_active_existsb _ _ Hnn). cbn [bind].
    now rewrite scalar_never_blocks.
Qed.

Lemma null_line_breaks_admission_witness :
  writeTrigger null_line_ledger (sample_entry "CRU-1" webhook) = Throw TypeError.
Proof.
  refine (proj1 (null_line_breaks_admission null_line_ledger
                   (sample_entry "CRU-1" webhook))
                [JObj [(lit "issueId", JStr (lit "CRU-1"));
                       (lit "status", JStr (lit "skipped"))]] [] _ _).
  - vm_compute. reflexivity.
  - constructor; [|constructor]. split; [discriminate|].
    intros [_ [H|H]]; vm_compute in H; discriminate H.
Defined.

Lemma skip_ws_blank (ws : jsstring) :
  forallb is_blank ws = true -> skip_ws ws = [].
Proof.
  induction ws as [|c ws IH]; [reflexivity|].
  cbn [forallb]. intros H. apply andb_true_iff in H as [Hc Hws].
  cbn [skip_ws]. unfold is_blank in Hc. unfold is_ws.
  apply orb_true_iff in Hc as [Hc|Hc]; [apply orb_true_iff in Hc as [Hc|Hc]|];
    rewrite Hc, ?orb_true_r; cbn [orb]; now apply IH.
Qed.

Lemma JSON_parse_blank (ws : jsstring) :
  forallb is_blank ws = true -> JSON_parse ws = None.
Proof.
  intros H. unfold JSON_parse.
  replace (2 * length ws + 2) with (S (2 * length ws + 1)) by lia.
  cbn [parse_value]. now rewrite (skip_ws_blank ws H).
Qed.

Lemma blank_no_newline (ws : jsstring) :
  forallb is_blank ws = true -> ~ In 10%N ws.
Proof.
  intros H Hin. rewrite forallb_forall in H. specialize (H _ Hin).
  discriminate H.
Qed.

(** X6.  Empty lines are skipped, and only they: the ledger reads the same
    with an empty line more, with or without a final line feed, and a
    missing or empty file reads as no record; but a line that holds nothing
    but spaces, tabs or carriage returns, such as the empty line of a file
    with Windows line ends, is handed to [JSON.parse] and makes the read
    throw. *)
Theorem only_empty_lines_are_skipped :
  forall a b ws : jsstring,
    readTriggerLog (Some (a ++ 10%N :: 10%N :: b))
    = readTriggerLog (Some (a ++ 10%N :: b))
    /\ readTriggerLog (Some (10%N :: b)) = readTriggerLog (Some b)
    /\ readTriggerLog (Some (a ++ [10%N])) = readTriggerLog (Some a)
    /\ readTriggerLog (Some []) = Ok []
    /\ readTriggerLog None = Ok []
    /\ (ws <> [] -> forallb is_blank ws = true ->
        readTriggerLog (Some (a ++ 10%N :: ws ++ 10%N :: b)) = Throw SyntaxError
        /\ readTriggerLog (Some (ws ++ 10%N :: b)) = Throw SyntaxError).
Proof.
  intros a b ws. unfold readTriggerLog.
  split; [|split; [|split; [|split; [|split]]]]; try reflexivity.
  - now rewrite !split_on_app, !filter_app.
  - now rewrite lines_terminated.
  - intros Hne Hws.
    assert (Hsplit : split_on 10 (ws ++ 10%N :: b) = ws :: split_on 10 b).
    { rewrite split_on_app, split_on_single by now apply blank_no_newline.
      reflexivity. }
    split.
    + apply (readTriggerLog_malformed _ ws); [|assumption | now apply JSON_parse_blank].
      rewrite split_on_app, Hsplit. apply in_or_app. right. now left.
    + apply (readTriggerLog_malformed _ ws); [|assumption | now apply JSON_parse_blank].
      rewrite Hsplit. now left.
Qed.

Lemma only_empty_lines_are_skipped_witness :
  readTriggerLog (Some (valid_line_1 ++ 10%N :: [13%N] ++ 10%N :: valid_line_2))
  = Throw SyntaxError.
Proof.
  refine (proj1 (proj2 (proj2 (proj2 (proj2 (proj2
            (only_empty_lines_are_skipped valid_line_1 valid_line_2 [13%N]))))) _ _)).
  - discriminate.
  - reflexivity.
Defined.

(** ** More on story paths *)

Lemma path_char_root : forallb path_char story_root = true.
Proof. reflexivity. Qed.

Lemma path_char_ext : forallb path_char md_ext = true.
Proof. reflexivity. Qed.

(** X7.  What the extractor returns contains no white space, no quote and
    no closing parenthesis, and is a fixed point: given its own result as the
    description, the extractor returns it again. *)
Theorem extracted_path_is_stable :
  forall (text m : jsstring),
    extractStoryFilePath (jstr text) = Ok (Some m) ->
    forallb path_char m = true
    /\ extractStoryFilePath (jstr m) = Ok (Some m).
Proof.
  intros text m H.
  assert (Hs : story_search text = Some m).
  { destruct text as [|c t]; [discriminate H|]. now injection H. }
  destruct (story_search_sound _ _ Hs) as (pre & post & _ & Hp & _).
  split.
  - destruct Hp as (body & -> & _ & Hb).
    now rewrite !forallb_app, path_char_root, Hb, path_char_ext.
  - assert (Hm : story_match_at (m ++ []) = Some m)
      by (apply story_match_at_path; [assumption | exact I]).
    rewrite app_nil_r in Hm.
    destruct m as [|c r]; [discriminate Hm|].
    unfold extractStoryFilePath. cbn [truthy jstr is_nil negb].
    now rewrite (story_search_head _ _ Hm).
Qed.

Lemma extracted_path_is_stable_witness :
  forallb path_char sample_path = true
  /\ extractStoryFilePath (jstr sample_path) = Ok (Some sample_path).
Proof.
  apply (extracted_path_is_stable
           (lit "Story: [link](" ++ sample_path ++ lit ") and more")).
  vm_compute. reflexivity.
Defined.

Lemma class_plus_ext_longest (s t : jsstring) :
  class_plus_ext s = Some t ->
  forall body post,
    s = body ++ md_ext ++ post -> body <> [] -> forallb path_char body = true ->
    length (body ++ md_ext) <= length t.
Proof.
  revert t. induction s as [|c r IH]; intros t H body post Hs Hne Hb.
  - discriminate H.
  - cbn [class_plus_ext] in H. destruct (path_char c); [|discriminate].
    destruct body as [|d b]; [contradiction|].
    cbn [app] in Hs. injection Hs as -> Hr.
    cbn [forallb] in Hb. apply andb_true_iff in Hb as [_ Hb].
    destruct (class_plus_ext r) as [t'|] eqn:Hc.
    + injection H as <-. cbn [app length].
      destruct b as [|d' b'].
      * cbn [app] in Hr.
        destruct (class_plus_ext_sound _ _ Hc) as (body' & _ & -> & _ & Hne' & _).
        rewrite !length_app. destruct body'; [contradiction|]. simpl. lia.
      * apply le_n_S. apply (IH t' eq_refl (d' :: b') post Hr); [discriminate | assumption].
    + destruct b as [|d' b'].
      * destruct (strip_prefix md_ext r); [|discriminate].
        injection H as <-. simpl. lia.
      * exfalso. subst r.
        now apply (class_plus_ext_complete (d' :: b') post).
Qed.

(** X8.  The match is greedy: of all the story paths that start where the
    returned one starts, the returned one is the longest, so a path directly
    followed by more path characters ending in the extension is returned
    with that tail. *)
Theorem extracted_path_is_longest :
  forall (pre m post p post' : jsstring),
    extractStoryFilePath (jstr (pre ++ m ++ post)) = Ok (Some m) ->
    no_match_before (length pre) (pre ++ m ++ post) = true ->
    is_story_path p -> m ++ post = p ++ post' ->
    length p <= length m.
Proof.
  intros pre m post p post' H Hpre (body & -> & Hne & Hb) Heq.
  assert (Hs : story_search (pre ++ m ++ post) = Some m).
  { destruct (pre ++ m ++ post) as [|c t]; [discriminate H|]. now injection H. }
  rewrite story_search_skip in Hs by assumption.
  assert (Hm : story_match_at (m ++ post) = Some m).
  { destruct (story_match_at (m ++ post)) as [m'|] eqn:E.
    - rewrite (story_search_head _ _ E) in Hs. congruence.
    - exfalso.
      assert (Hx : story_match_at ((story_root ++ body ++ md_ext) ++ post') <> None).
      { unfold story_match_at. rewrite <- !app_assoc, strip_prefix_app.
        pose proof (class_plus_ext_complete body post' Hne Hb) as Hc.
        destruct (class_plus_ext (body ++ md_ext ++ post')); [discriminate | contradiction]. }
      rewrite <- Heq in Hx. contradiction. }
  rewrite Heq in Hm. unfold story_match_at in Hm.
  rewrite <- !app_assoc, strip_prefix_app in Hm.
  destruct (class_plus_ext (body ++ md_ext ++ post')) as [t|] eqn:Hc; [|discriminate].
  cbn [option_map] in Hm.
  assert (Hmt : m = story_root ++ t) by congruence.
  pose proof (class_plus_ext_longest _ _ Hc body post' eq_refl Hne Hb) as Hl.
  rewrite Hmt, !length_app in *. lia.
Qed.

Lemma extracted_path_is_longest_witness :
  length (lit "_bmad-output/stories/a.md")
  <= length (lit "_bmad-output/stories/a.md.bak.md").
Proof.
  apply (extracted_path_is_longest (lit "see ")
           (lit "_bmad-output/stories/a.md.bak.md") (lit " now")
           (lit "_bmad-output/stories/a.md") (lit ".bak.md now")).
  - vm_compute. reflexivity.
  - vm_compute. reflexivity.
  - exists (lit "a"). split; [reflexivity|]. split; [discriminate | reflexivity].
  - reflexivity.
Defined.

(** ** Dispatch when the trigger is deduped *)

(** X9.  The two paths differ on a deduped trigger.  The webhook route,
    when [writeTrigger] answers [false], still calls the spawn capability
    for the issue; the poll loop calls it only after a write, so for an
    issue that is deduped it leaves the world as it is and does not count
    it. *)
Theorem deduped_push_is_still_dispatched :
  (forall cfg env spawn payload w story f i t,
     passes_rules cfg payload ->
     payload_new_state payload = jstr IN_DEV_STATE_ID ->
     val_to_string (payload_issue_id payload) = Ok i ->
     val_to_string (payload_title payload) = Ok t ->
     extractStoryFilePath (optprop (prop payload (lit "data")) (lit "description"))
     = Ok story ->
     writeTrigger (triggers w) (webhook_entry cfg env payload story) = Ok (false, f) ->
     sessions env = Some spawn ->
     spawns (process_payload cfg env payload w)
     = spawns w ++ [{| spawn_issue := i; spawn_title := t; spawn_story := story |}]
     /\ triggers (process_payload cfg env payload w) = triggers w)
  /\ (forall env n issue count w story f,
        extractStoryFilePath (prop issue (lit "description")) = Ok story ->
        writeTrigger (triggers w) (poll_entry env n issue story) = Ok (false, f) ->
        poll_ready_issue env n issue count w = inr (count, w)).
Proof.
  split.
  - intros cfg env spawn payload w story f i t (H1 & H2 & H3) Hst Hi Ht Hstory Hw Hs.
    apply is_issue_update_iff in H1. apply team_matches_iff in H3.
    unfold rule_previous_state in H2. fold (has_previous_state payload) in H2.
    destruct (writeTrigger_file _ _ _ _ Hw) as [[_ ->] | [Hx _]]; [|discriminate Hx].
    unfold process_payload. rewrite H1, H2, H3. cbn [negb].
    rewrite Hst, Hi.
    change (state_label_lookup (jstr IN_DEV_STATE_ID)) with (Ok tt).
    rewrite (proj2 (strict_eq_jstr _ _) eq_refl), Hstory.
    set (w2 := if logEvents cfg then _ else _).
    assert (Hw2 : triggers w2 = triggers w /\ spawns w2 = spawns w)
      by (unfold w2; destruct (logEvents cfg); split; reflexivity).
    destruct Hw2 as [Ht2 Hs2]. rewrite Ht2, Hw.
    rewrite triggers_attempt_spawn. cbn [triggers log set_triggers].
    split; [|reflexivity].
    unfold attempt_spawn. rewrite Hs, Hi, Ht. cbn [spawns log set_triggers].
    destruct (spawn _ _) as [[|]|]; cbn [spawns log record_spawn set_triggers];
      now rewrite Hs2.
  - intros env n issue count w story f Hstory Hw.
    destruct (writeTrigger_file _ _ _ _ Hw) as [[_ ->] | [Hx _]]; [|discriminate Hx].
    unfold poll_ready_issue. rewrite Hstory, Hw.
    destruct w; reflexivity.
Qed.

Lemma deduped_push_is_still_dispatched_witness :
  spawns (process_payload open_config eager_env in_dev_payload pending_world)
  = spawns pending_world
    ++ [{| spawn_issue := lit "CRU-123"; spawn_title := lit "Test issue";
           spawn_story := None |}]
  /\ triggers (process_payload open_config eager_env in_dev_payload pending_world)
     = triggers pending_world.
Proof.
  refine (proj1 deduped_push_is_still_dispatched open_config eager_env
                (fun _ _ => Resolved true) in_dev_payload pending_world None
                (triggers pending_world) _ _ _ _ _ _ _ _ _).
  - split; [split; reflexivity | split; [reflexivity | left; reflexivity]].
  - reflexivity.
  - reflexivity.
  - reflexivity.
  - reflexivity.
  - vm_compute. reflexivity.
  - reflexivity.
Defined.

(** ** The event log switch *)

Lemma attempt_spawn_same (env : Env) (issue title : jsval)
      (story : option jsstring) (a b : World) :
  same_but_events a b ->
  same_but_events (attempt_spawn env issue title story a)
                  (attempt_spawn env issue title story b).
Proof.
  intros (Ht & Hl & Hs). unfold attempt_spawn.
  destruct (sessions env) as [spawn|]; [|now repeat split].
  destruct (val_to_string issue) as [i|];
    [|repeat split; cbn [triggers logger spawns log]; congruence].
  destruct (val_to_string title) as [t|];
    [|repeat split; cbn [triggers logger spawns log]; congruence].
  rewrite Hs.
  destruct (spawn _ _) as [[|]|]; repeat split;
    cbn [triggers logger spawns log record_spawn]; congruence.
Qed.

(** X10.  [logEvents] costs one reading of the clock and nothing else.
    With the switch off the webhook path adds nothing to the event log.
    With it on it adds at most one line, stamped with the first reading of
    the clock, and apart from that line the run is the run with the switch
    off that starts one reading later: same ledger, with the trigger stamped
    by the second reading, same logger lines, same spawn calls. *)
Theorem logEvents_costs_one_clock_reading :
  forall (cfg : PluginConfig) (env : Env) (payload : json) (w : World),
    let off := process_payload (with_logEvents false cfg) (later env) payload w in
    let on := process_payload (with_logEvents true cfg) env payload w in
    same_but_events off on
    /\ events off = events w
    /\ (events on = events w
        \/ exists ev, events on = events w ++ [ev]
                      /\ ev_loggedAt ev = clock env 0).
Proof.
  intros cfg env payload w. cbv zeta. unfold process_payload.
  change (team_matches (with_logEvents false cfg) payload)
    with (team_matches cfg payload).
  change (team_matches (with_logEvents true cfg) payload)
    with (team_matches cfg payload).
  cbn [logEvents with_logEvents].
  destruct (is_issue_update payload); [|repeat split; now left].
  destruct (has_previous_state payload); [|repeat split; now left].
  destruct (team_matches cfg payload); [|repeat split; now left].
  cbn [negb].
  destruct (state_label_lookup (payload_new_state payload)) as [[]|];
    [|repeat split; now left].
  destruct (val_to_string (payload_issue_id payload));
    [|repeat split; now left].
  destruct (strict_eq (payload_new_state payload) (jstr IN_DEV_STATE_ID));
    [|split; [repeat split|split; [reflexivity|right; eexists; split; reflexivity]]].
  destruct (extractStoryFilePath _) as [story|];
    [|split; [repeat split|split; [reflexivity|right; eexists; split; reflexivity]]].
  cbn [triggers log logEvent].
  change (webhook_entry (with_logEvents false cfg) (later env) payload story)
    with (webhook_entry (with_logEvents true cfg) env payload story).
  destruct (writeTrigger (triggers w)
              (webhook_entry (with_logEvents true cfg) env payload story))
    as [[written f]|];
    [|split; [repeat split|split; [reflexivity|right; eexists; split; reflexivity]]].
  change (attempt_spawn (later env)) with (attempt_spawn env).
  match goal with
  | |- same_but_events (attempt_spawn _ _ _ _ ?a) (attempt_spawn _ _ _ _ ?b) /\ _ =>
      assert (Hab : same_but_events a b) by (repeat split);
      pose proof (attempt_spawn_same env (payload_issue_id payload)
                    (payload_title payload) story a b Hab) as Hsame;
      assert (Hev : forall x, events (attempt_spawn env (payload_issue_id payload)
                                 (payload_title payload) story x) = events x)
  end.
  { intros x. unfold attempt_spawn. destruct (sessions env) as [spawn|]; [|reflexivity].
    destruct (val_to_string _); [|reflexivity].
    destruct (val_to_string _); [|reflexivity].
    destruct (spawn _ _) as [[|]|]; reflexivity. }
  split; [exact Hsame|]. rewrite !Hev. cbn [events log set_triggers logEvent].
  split; [reflexivity | right; eexists; split; reflexivity].
Qed.

(** With a clock that counts its readings: the event line takes reading 0
    and the trigger reading 1; without event log the trigger takes
    reading 0. *)
Example trigger_is_stamped_after_the_event :
  let on := process_body open_config ticking_env in_dev_body empty_world in
  let off := process_body (with_logEvents false open_config) ticking_env
               in_dev_body empty_world in
  map ev_loggedAt (events on) = [lit "0"]
  /\ triggers on
     = Some (pending_line (webhook_entry open_config ticking_env in_dev_payload None))
  /\ triggeredAt (webhook_entry open_config ticking_env in_dev_payload None)
     = lit "1"
  /\ events off = []
  /\ triggers off
     = Some (pending_line
               (webhook_entry (with_logEvents false open_config) ticking_env
                              in_dev_payload None))
  /\ triggeredAt (webhook_entry (with_logEvents false open_config) ticking_env
                                in_dev_payload None)
     = lit "0".
Proof. vm_compute. repeat split. Qed.

(** ** The ledger under the webhook path *)

Lemma process_payload_triggers (cfg : PluginConfig) (env : Env)
      (payload : json) (w : World) :
  triggers (process_payload cfg env payload w)
  = webhook_ledger_step cfg env payload (triggers w).
Proof.
  unfold process_payload, webhook_ledger_step.
  destruct (is_issue_update payload); [|reflexivity].
  destruct (has_previous_state payload); [|reflexivity].
  destruct (team_matches cfg payload); [|reflexivity].
  cbn [negb andb].
  destruct (state_label_lookup (payload_new_state payload)) as [[]|]; [|reflexivity].
  destruct (val_to_string (payload_issue_id payload)); [|reflexivity].
  set (w2 := if logEvents cfg then _ else _).
  assert (Hw2 : triggers w2 = triggers w)
    by (unfold w2; destruct (logEvents cfg); reflexivity).
  destruct (strict_eq (payload_new_state payload) (jstr IN_DEV_STATE_ID));
    [|exact Hw2].
  destruct (extractStoryFilePath _) as [story|]; [|exact Hw2].
  rewrite Hw2.
  destruct (writeTrigger (triggers w) (webhook_entry cfg env payload story))
    as [[written f]|]; [|exact Hw2].
  now rewrite triggers_attempt_spawn.
Qed.

Lemma some_active_false_nonnull (id : jsval) (recs : list json) :
  some_active id recs = Ok false ->
  Forall (fun r => r <> JNull) recs
  /\ existsb (matches_active id) recs = false.
Proof.
  induction recs as [|r recs IH]; [now split|].
  cbn [some_active existsb]. fold (matches_active id r).
  destruct r; try discriminate;
    (destruct (matches_active id _); [discriminate|]);
    intros H; destruct (IH H) as [Hn He];
    (split; [constructor; [discriminate | assumption] | exact He]).
Qed.

Lemma writeTrigger_true (f f' : file) (e : TriggerInput) :
  writeTrigger f e = Ok (true, f') ->
  exists recs, readTriggerLog f = Ok recs
               /\ Forall (fun r => r <> JNull) recs
               /\ active_count (issueId e) recs = 0
               /\ f' = appendFile f (pending_line e).
Proof.
  unfold writeTrigger.
  destruct (readTriggerLog f) as [recs|]; [|discriminate]. cbn [bind].
  destruct (some_active (issueId e) recs) as [[|]|] eqn:Hs; try discriminate.
  cbn [bind]. intros [= <-].
  destruct (some_active_false_nonnull _ _ Hs) as [Hn He].
  exists recs. repeat split; try assumption. now apply active_count_zero.
Qed.

(** The flag of [writeTrigger] depends on the entry through its identifier
    only. *)
Lemma writeTrigger_same_id (f : file) (e e' : TriggerInput) :
  issueId e = issueId e' ->
  match writeTrigger f e, writeTrigger f e' with
  | Ok (b, _), Ok (b', _) => b = b'
  | Throw _, Throw _ => True
  | _, _ => False
  end.
Proof.
  intros Hid. unfold writeTrigger. rewrite <- Hid.
  destruct (readTriggerLog f) as [recs|]; [|exact I]. cbn [bind].
  destruct (some_active (issueId e) recs) as [[|]|]; cbn [bind]; auto.
Qed.

(** X13.  A push delivered again changes nothing more: once the webhook
    path has run on a payload, a second run on the same payload, at any
    later time and whatever the spawn capability does, leaves the ledger as
    the first run left it. *)
Theorem webhook_retry_is_idempotent :
  forall (cfg : PluginConfig) (env env' : Env) (payload : json) (w : World),
    newline_terminated (triggers w) ->
    simple_val (payload_issue_id payload) ->
    simple_val (payload_title payload) ->
    triggers (process_payload cfg env' payload (process_payload cfg env payload w))
    = triggers (process_payload cfg env payload w).
Proof.
  intros cfg env env' payload w Hnl Hid Htitle.
  rewrite !process_payload_triggers. generalize (triggers w) Hnl. clear w Hnl.
  intros f Hnl. unfold webhook_ledger_step.
  destruct (is_issue_update payload && has_previous_state payload
            && team_matches cfg payload); [|reflexivity].
  destruct (state_label_lookup (payload_new_state payload)) as [[]|]; [|reflexivity].
  destruct (val_to_string (payload_issue_id payload)); [|reflexivity].
  destruct (strict_eq (payload_new_state payload) (jstr IN_DEV_STATE_ID));
    [|reflexivity].
  destruct (extractStoryFilePath _) as [story|]; [|reflexivity].
  set (e := webhook_entry cfg env payload story).
  set (e' := webhook_entry cfg env' payload story).
  assert (Hsame : forall g,
            match writeTrigger g e, writeTrigger g e' with
            | Ok (b, _), Ok (b', _) => b = b'
            | Throw _, Throw _ => True
            | _, _ => False
            end) by (intros g; now apply writeTrigger_same_id).
  destruct (writeTrigger f e) as [[[|] f1]|] eqn:Hw.
  - (* written: the record just appended blocks the second run *)
    destruct (writeTrigger_true _ _ _ Hw) as (recs & Hread & Hnn & Hc & ->).
    assert (Hok : ledger_ok f recs) by (split; assumption).
    assert (Hplain : plain_input e) by (split; assumption).
    destruct (writeTrigger_step f recs e Hok Hplain)
      as [[Hc1 _] | (_ & _ & Hok1)]; [lia|].
    assert (Hplain' : plain_input e') by (split; assumption).
    destruct (writeTrigger_step _ _ e' Hok1 Hplain')
      as [[_ Hw'] | (Hc' & _)]; [now rewrite Hw'|].
    exfalso. rewrite active_count_app, active_count_entry in Hc' by exact Hid.
    change (issueId e') with (issueId e) in Hc'.
    rewrite strict_eq_simple_refl in Hc' by exact Hid. lia.
  - (* deduped *)
    destruct (writeTrigger_file _ _ _ _ Hw) as [[_ ->] | [Hx _]]; [|discriminate Hx].
    specialize (Hsame f). rewrite Hw in Hsame.
    destruct (writeTrigger f e') as [[b' f2]|] eqn:Hw'; [|contradiction].
    subst b'.
    destruct (writeTrigger_file _ _ _ _ Hw') as [[_ ->] | [Hx _]];
      [reflexivity | discriminate Hx].
  - specialize (Hsame f). rewrite Hw in Hsame.
    destruct (writeTrigger f e') as [[b' f2]|]; [contradiction | reflexivity].
Qed.

Lemma webhook_retry_is_idempotent_witness :
  triggers (process_payload open_config eager_env in_dev_payload
              (process_payload open_config quiet_env in_dev_payload empty_world))
  = triggers (process_payload open_config quiet_env in_dev_payload empty_world).
Proof.
  apply (webhook_retry_is_idempotent open_config quiet_env eager_env
           in_dev_payload empty_world); exact I.
Defined.

(** X11.  Only a change into the ready state reaches the ledger or the
    spawn capability.  On the webhook path a payload whose new state is any
    other leaves ledger and spawn calls as they are; on the poll path an
    issue in any other state leaves the whole world as it is, and so does a
    sweep made of such issues. *)
Theorem only_the_ready_state_triggers :
  (forall cfg env payload w,
     payload_new_state payload <> jstr IN_DEV_STATE_ID ->
     triggers (process_payload cfg env payload w) = triggers w
     /\ spawns (process_payload cfg env payload w) = spawns w)
  /\ (forall env n issues st,
        Forall not_ready issues ->
        poll_loop env n issues st = inr st).
Proof.
  split.
  - intros cfg env payload w Hst.
    assert (Hno : strict_eq (payload_new_state payload) (jstr IN_DEV_STATE_ID) = false).
    { destruct (strict_eq _ _) eqn:E; [|reflexivity].
      apply strict_eq_jstr in E. contradiction. }
    unfold process_payload.
    destruct (is_issue_update payload); [|now split].
    destruct (has_previous_state payload); [|now split].
    destruct (team_matches cfg payload); [|now split].
    cbn [negb].
    destruct (state_label_lookup (payload_new_state payload)) as [[]|]; [|now split].
    destruct (val_to_string (payload_issue_id payload)); [|now split].
    rewrite Hno. destruct (logEvents cfg); now split.
  - intros env n issues st H. revert n st.
    induction H as [|issue rest [Hnn Hst] _ IH]; intros n [count w]; [reflexivity|].
    cbn [poll_loop].
    assert (Hstep : poll_issue env n issue (count, w) = inr (count, w)).
    { unfold poll_issue.
      assert (Hno : strict_eq (optprop (prop issue (lit "state")) (lit "id"))
                              (jstr IN_DEV_STATE_ID) = false).
      { destruct (strict_eq _ _) eqn:E; [|reflexivity].
        apply strict_eq_jstr in E. contradiction. }
      rewrite Hno. destruct issue; try reflexivity. contradiction. }
    rewrite Hstep. apply IH.
Qed.

Lemma only_the_ready_state_triggers_witness :
  triggers (process_payload open_config eager_env completed_payload empty_world)
  = triggers empty_world
  /\ spawns (process_payload open_config eager_env completed_payload empty_world)
     = spawns empty_world.
Proof.
  apply (proj1 only_the_ready_state_triggers).
  vm_compute. discriminate.
Defined.

(** ** The poll sweep *)

Lemma attempt_spawn_effect (env : Env) (issue title : jsval)
      (story : option jsstring) (w : World) :
  events (attempt_spawn env issue title story w) = events w
  /\ length (spawns (attempt_spawn env issue title story w))
     <= S (length (spawns w)).
Proof.
  unfold attempt_spawn. destruct (sessions env) as [spawn|]; [|split; auto].
  destruct (val_to_string issue) as [i|]; [|split; cbn; auto].
  destruct (val_to_string title) as [t|]; [|split; cbn; auto].
  destruct (spawn _ _) as [[|]|]; split; cbn [events spawns log record_spawn];
    try reflexivity; rewrite length_app; cbn; lia.
Qed.

Lemma poll_appended_refl (w : World) : poll_appended w w [].
Proof.
  unfold poll_appended. cbn.
  split; [reflexivity|]. split; [reflexivity|]. split; [lia | constructor].
Qed.

Lemma poll_appended_trans (w w1 w2 : World) (es1 es2 : list TriggerInput) :
  poll_appended w w1 es1 -> poll_appended w1 w2 es2 ->
  poll_appended w w2 (es1 ++ es2).
Proof.
  intros (He1 & Ht1 & Hs1 & Hp1) (He2 & Ht2 & Hs2 & Hp2).
  split; [congruence|]. split.
  - rewrite Ht2, Ht1. unfold append_lines. now rewrite map_app, fold_left_app.
  - split; [rewrite length_app; lia | now apply Forall_app].
Qed.

Lemma poll_issue_appended (env : Env) (n : nat) (issue : json)
      (count : nat) (w : World) :
  match poll_issue env n issue (count, w) with
  | inl w' => exists es, poll_appended w w' es
  | inr (count', w') =>
      exists es, poll_appended w w' es /\ count' = count + length es
  end.
Proof.
  assert (Hsame : exists es, poll_appended w w es /\ count = count + length es)
    by (exists []; split; [apply poll_appended_refl | cbn; lia]).
  assert (Hfail : exists es, poll_appended w w es)
    by (exists []; apply poll_appended_refl).
  unfold poll_issue.
  destruct (strict_eq _ _);
    [|destruct issue; assumption].
  assert (Hready :
            match poll_ready_issue env n issue count w with
            | inl w' => exists es, poll_appended w w' es
            | inr (count', w') =>
                exists es, poll_appended w w' es /\ count' = count + length es
            end).
  { unfold poll_ready_issue.
    destruct (extractStoryFilePath _) as [story|]; [|assumption].
    destruct (writeTrigger (triggers w) (poll_entry env n issue story))
      as [[[|] f]|] eqn:Hw; [| |assumption].
    - destruct (writeTrigger_file _ _ _ _ Hw) as [[Hx _] | [_ ->]];
        [discriminate Hx|].
      destruct (val_to_string (prop issue (lit "identifier"))).
      + exists [poll_entry env n issue story]. split; [|cbn; lia].
        destruct (attempt_spawn_effect env (prop issue (lit "identifier"))
                    (prop issue (lit "title")) story
                    (log (InfoTriggerWritten poll (prop issue (lit "identifier")))
                         (set_triggers
                            (appendFile (triggers w)
                               (pending_line (poll_entry env n issue story))) w)))
          as [He Hs].
        split; [exact He|]. split; [now rewrite triggers_attempt_spawn|].
        split; [cbn [spawns log set_triggers length] in *; lia|].
        constructor; [reflexivity | constructor].
      + exists [poll_entry env n issue story].
        split; [reflexivity|]. split; [reflexivity|].
        split; [cbn; lia|]. constructor; [reflexivity | constructor].
    - destruct (writeTrigger_file _ _ _ _ Hw) as [[_ ->] | [Hx _]];
        [|discriminate Hx].
      exists []. split; [|cbn; lia].
      destruct w; apply poll_appended_refl. }
  destruct issue; try exact Hready. assumption.
Qed.

Lemma poll_loop_appended (env : Env) (issues : list json) :
  forall (n count : nat) (w : World),
    match poll_loop env n issues (count, w) with
    | inl w' => exists es, poll_appended w w' es
    | inr (count', w') =>
        exists es, poll_appended w w' es /\ count' = count + length es
    end.
Proof.
  induction issues as [|issue rest IH]; intros n count w.
  - cbn [poll_loop]. exists []. split; [apply poll_appended_refl | cbn; lia].
  - cbn [poll_loop].
    pose proof (poll_issue_appended env n issue count w) as Hstep.
    destruct (poll_issue env n issue (count, w)) as [w1 | [c1 w1]];
      [exact Hstep|].
    destruct Hstep as (es1 & H1 & ->).
    specialize (IH (S n) (count + length es1) w1).
    destruct (poll_loop env (S n) rest (count + length es1, w1))
      as [w2 | [c2 w2]].
    + destruct IH as (es2 & H2). exists (es1 ++ es2).
      eapply poll_appended_trans; eassumption.
    + destruct IH as (es2 & H2 & ->). exists (es1 ++ es2).
      split; [eapply poll_appended_trans; eassumption|].
      rewrite length_app. lia.
Qed.

(** What the command answers when there is nothing to sweep: no array of
    issues, an empty one, or anything else of length zero is "no issues";
    what has no length zero and cannot be swept is a failure. *)
Example answers_without_a_sweep :
  map (fun nodes =>
         fst (linear_poll_handler team_config quiet_env
                (JSON_parse (jtext nodes)) empty_world))
      ["{'data':{'issues':{'nodes':[]}}}";
       "{'data':{'issues':{'nodes':null}}}";
       "{'data':{}}";
       "{'data':{'issues':{'nodes':{'length':0}}}}";
       "{'data':{'issues':{'nodes':''}}}";
       "{'data':{'issues':{'nodes':{}}}}";
       "{'data':{'issues':{'nodes':{'length':2}}}}";
       "{'data':{'issues':{'nodes':'abc'}}}";
       "{'data':{'issues':{'nodes':7}}}"]%string
  = [NoIssuesFound; NoIssuesFound; NoIssuesFound; NoIssuesFound; NoIssuesFound;
     PollFailed; PollFailed; PollFailed; PollFailed].
Proof. vm_compute. reflexivity. Qed.

(** X12.  The number the poll command reports is the number of pending
    lines the sweep appended to the ledger.  Whatever the answer of the
    command, the sweep only appended pending lines of source [poll] to the
    ledger, called the spawn capability at most once per appended line and
    left the event log alone; when the answer is the report with count
    [n], exactly [n] lines were appended. *)
Theorem poll_report_counts_appended_lines :
  forall (cfg : PluginConfig) (env : Env) (response : option json)
         (w w' : World) (reply : PollReply),
    linear_poll_handler cfg env response w = (reply, w') ->
    exists es,
      poll_appended w w' es
      /\ (forall n, reply = Report n -> n = length es).
Proof.
  intros cfg env response w w' reply.
  assert (Hsame : forall r, (r, w) = (reply, w') ->
            (forall n, r <> Report n) ->
            exists es, poll_appended w w' es
                       /\ (forall n, reply = Report n -> n = length es)).
  { intros r [= <- <-] Hr. exists []. split; [apply poll_appended_refl|].
    intros n Hn. now destruct (Hr n). }
  destruct (linear_poll_handler_cases cfg env response w)
    as [(r & -> & Hr) | (result & issue & rest & -> & Hteam & Hissues)].
  - intros H. exact (Hsame _ H Hr).
  - rewrite (linear_poll_handler_sweep _ _ _ _ _ _ Hteam Hissues).
    pose proof (poll_loop_appended env (issue :: rest) 0 0 w) as Hloop.
    destruct (poll_loop env 0 (issue :: rest) (0, w)) as [w1 | [c1 w1]].
    + intros [= <- <-]. destruct Hloop as (es & Hes). exists es.
      split; [exact Hes | discriminate].
    + destruct Hloop as (es & Hes & ->).
      destruct (map_result report_line (issue :: rest)); intros [= <- <-];
        exists es; (split; [exact Hes|]).
      * now intros n [= <-].
      * discriminate.
Qed.

Lemma poll_report_counts_appended_lines_witness :
  exists es,
    poll_appended empty_world
      (snd (linear_poll_handler team_config eager_env (Some two_ready_issues)
              empty_world)) es
    /\ 2 = length es.
Proof.
  destruct (poll_report_counts_appended_lines team_config eager_env
              (Some two_ready_issues) empty_world
              (snd (linear_poll_handler team_config eager_env
                      (Some two_ready_issues) empty_world))
              (Report 2))
    as (es & Hes & Hn).
  - vm_compute. reflexivity.
  - exists es. split; [exact Hes | apply Hn; reflexivity].
Defined.

(** ** An unreadable ledger *)

Lemma writeTrigger_unreadable (f : file) (e : TriggerInput) (err : exn) :
  readTriggerLog f = Throw err -> writeTrigger f e = Throw err.
Proof. intros H. unfold writeTrigger. now rewrite H. Qed.

Lemma poll_loop_unreadable (env : Env) (w : World) (err : exn) :
  readTriggerLog (triggers w) = Throw err ->
  forall issues n count,
    poll_loop env n issues (count, w) = inl w
    \/ poll_loop env n issues (count, w) = inr (count, w).
Proof.
  intros Hread issues.
  induction issues as [|issue rest IH]; intros n count; [now right|].
  cbn [poll_loop].
  assert (Hstep : poll_issue env n issue (count, w) = inl w
                  \/ poll_issue env n issue (count, w) = inr (count, w)).
  { unfold poll_issue.
    destruct (strict_eq _ _); [|destruct issue; auto].
    assert (Hready : poll_ready_issue env n issue count w = inl w).
    { unfold poll_ready_issue.
      destruct (extractStoryFilePath _) as [story|]; [|reflexivity].
      now rewrite (writeTrigger_unreadable _ _ _ Hread). }
    rewrite Hready. destruct issue; auto. }
  destruct Hstep as [-> | ->]; [now left | apply IH].
Qed.

(** X14.  A ledger that cannot be read lets nothing in.  While
    [readTriggerLog] throws on the ledger, the webhook path leaves the
    ledger and the spawn calls as they are on every payload, and the poll
    command leaves the whole world as it is on every response and never
    reports a trigger. *)
Theorem unreadable_ledger_blocks_both_paths :
  forall (cfg : PluginConfig) (env : Env) (w : World) (err : exn),
    readTriggerLog (triggers w) = Throw err ->
    (forall payload,
        triggers (process_payload cfg env payload w) = triggers w
        /\ spawns (process_payload cfg env payload w) = spawns w)
    /\ (forall response,
          snd (linear_poll_handler cfg env response w) = w
          /\ forall n, fst (linear_poll_handler cfg env response w) = Report n ->
                       n = 0).
Proof.
  intros cfg env w err Hread. split.
  - intros payload. unfold process_payload.
    destruct (is_issue_update payload); [|now split].
    destruct (has_previous_state payload); [|now split].
    destruct (team_matches cfg payload); [|now split].
    cbn [negb].
    destruct (state_label_lookup (payload_new_state payload)) as [[]|]; [|now split].
    destruct (val_to_string (payload_issue_id payload)); [|now split].
    set (w2 := if logEvents cfg then _ else _).
    assert (Hw2 : triggers w2 = triggers w /\ spawns w2 = spawns w)
      by (unfold w2; destruct (logEvents cfg); now split).
    destruct (strict_eq _ _); [|exact Hw2].
    destruct (extractStoryFilePath _) as [story|]; [|exact Hw2].
    destruct Hw2 as [Ht Hs]. rewrite Ht.
    rewrite (writeTrigger_unreadable _ _ _ Hread). now split.
  - intros response.
    destruct (linear_poll_handler_cases cfg env response w)
      as [(r & -> & Hr) | (result & issue & rest & -> & Hteam & Hissues)].
    + split; [reflexivity|]. intros n Hn. now destruct (Hr n).
    + rewrite (linear_poll_handler_sweep _ _ _ _ _ _ Hteam Hissues).
      destruct (poll_loop_unreadable env w err Hread (issue :: rest) 0 0)
        as [-> | ->]; [split; [reflexivity | discriminate]|].
      destruct (map_result report_line (issue :: rest));
        split; try reflexivity; try discriminate.
      now intros n [= <-].
Qed.

Lemma unreadable_ledger_blocks_both_paths_witness :
  triggers (process_payload open_config eager_env in_dev_payload corrupt_world)
  = triggers corrupt_world
  /\ spawns (process_payload open_config eager_env in_dev_payload corrupt_world)
     = spawns corrupt_world.
Proof.
  refine (proj1 (unreadable_ledger_blocks_both_paths open_config eager_env
                   corrupt_world SyntaxError _) in_dev_payload).
  vm_compute. reflexivity.
Defined.

(** ** A sweep run again *)

Lemma set_triggers_same (w : World) : set_triggers (triggers w) w = w.
Proof. now destruct w. Qed.

Lemma poll_issue_nonnull (env : Env) (n : nat) (issue : json)
      (count : nat) (w : World) :
  issue <> JNull ->
  poll_issue env n issue (count, w)
  = if is_ready issue then poll_ready_issue env n issue count w
    else inr (count, w).
Proof. intros H. unfold poll_issue, is_ready. destruct issue; congruence. Qed.

Lemma poll_issue_first (env : Env) (n : nat) (issue : json)
      (count count' : nat) (w w' : World) (recs : list json) :
  ledger_ok (triggers w) recs -> plain_issue issue ->
  poll_issue env n issue (count, w) = inr (count', w') ->
  exists recs',
    ledger_ok (triggers w') recs'
    /\ (forall id, active_count id recs <= active_count id recs')
    /\ settled recs' issue.
Proof.
  intros Hok [Hid Htitle] Hstep.
  assert (Hnn : issue <> JNull) by (intros ->; discriminate Hstep).
  rewrite (poll_issue_nonnull _ _ _ _ _ Hnn) in Hstep.
  destruct (is_ready issue) eqn:Hr.
  - unfold poll_ready_issue in Hstep.
    destruct (extractStoryFilePath (prop issue (lit "description")))
      as [story|] eqn:Hx; [|discriminate].
    assert (Hplain : plain_input (poll_entry env n issue story))
      by (split; assumption).
    destruct (writeTrigger_step _ _ _ Hok Hplain)
      as [[Hc Hw] | (Hc & Hw & Hok')]; rewrite Hw in Hstep.
    + injection Hstep as <- <-. exists recs.
      split; [exact Hok|]. split; [auto|].
      split; [exact Hnn|]. intros _. split; [exact Hc | now exists story].
    + destruct (val_to_string (prop issue (lit "identifier")));
        [|discriminate].
      injection Hstep as <- <-.
      exists (recs ++ [entry_object (poll_entry env n issue story) (lit "pending")]).
      split; [now rewrite triggers_attempt_spawn|].
      split; [intros id; rewrite active_count_app; lia|].
      split; [exact Hnn|]. intros _. split; [|now exists story].
      rewrite active_count_app, active_count_entry by exact Hid.
      change (issueId (poll_entry env n issue story))
        with (prop issue (lit "identifier")).
      rewrite strict_eq_simple_refl by exact Hid. lia.
  - injection Hstep as <- <-. exists recs.
    split; [exact Hok|]. split; [auto|]. split; [exact Hnn | congruence].
Qed.

Lemma poll_issue_again (env : Env) (n : nat) (issue : json)
      (count : nat) (w : World) (recs : list json) :
  ledger_ok (triggers w) recs -> plain_issue issue -> settled recs issue ->
  poll_issue env n issue (count, w) = inr (count, w).
Proof.
  intros Hok [Hid Htitle] [Hnn Hset].
  rewrite (poll_issue_nonnull _ _ _ _ _ Hnn).
  destruct (is_ready issue); [|reflexivity].
  destruct (Hset eq_refl) as (Hc & story & Hx).
  unfold poll_ready_issue. rewrite Hx.
  assert (Hplain : plain_input (poll_entry env n issue story))
    by (split; assumption).
  destruct (writeTrigger_step _ _ _ Hok Hplain)
    as [[_ Hw] | (Hc0 & _)].
  - rewrite Hw. now rewrite set_triggers_same.
  - change (issueId (poll_entry env n issue story))
      with (prop issue (lit "identifier")) in Hc0. lia.
Qed.

Lemma settled_mono (recs recs' : list json) (issue : json) :
  (forall id, active_count id recs <= active_count id recs') ->
  settled recs issue -> settled recs' issue.
Proof.
  intros Hm [Hnn Hset]. split; [exact Hnn|]. intros Hr.
  destruct (Hset Hr) as [Hc Hx]. split; [|exact Hx].
  specialize (Hm (prop issue (lit "identifier"))). lia.
Qed.

Lemma poll_loop_first (env : Env) (issues : list json) :
  forall (n count count' : nat) (w w' : World) (recs : list json),
    ledger_ok (triggers w) recs -> Forall plain_issue issues ->
    poll_loop env n issues (count, w) = inr (count', w') ->
    exists recs',
      ledger_ok (triggers w') recs'
      /\ (forall id, active_count id recs <= active_count id recs')
      /\ Forall (settled recs') issues.
Proof.
  induction issues as [|issue rest IH];
    intros n count count' w w' recs Hok Hplain Hloop.
  - injection Hloop as <- <-. exists recs. auto.
  - cbn [poll_loop] in Hloop. inversion Hplain as [|? ? Hp Hps]; subst.
    destruct (poll_issue env n issue (count, w)) as [w1 | [c1 w1]] eqn:Hstep;
      [discriminate|].
    destruct (poll_issue_first _ _ _ _ _ _ _ _ Hok Hp Hstep)
      as (recs1 & Hok1 & Hm1 & Hs1).
    destruct (IH _ _ _ _ _ _ Hok1 Hps Hloop) as (recs' & Hok' & Hm' & Hs').
    exists recs'. split; [exact Hok'|]. split.
    + intros id. specialize (Hm1 id). specialize (Hm' id). lia.
    + constructor; [exact (settled_mono _ _ _ Hm' Hs1) | exact Hs'].
Qed.

Lemma poll_loop_again (env : Env) (issues : list json) (recs : list json)
      (w : World) :
  ledger_ok (triggers w) recs -> Forall plain_issue issues ->
  Forall (settled recs) issues ->
  forall n count, poll_loop env n issues (count, w) = inr (count, w).
Proof.
  intros Hok Hplain Hset.
  induction issues as [|issue rest IH]; intros n count; [reflexivity|].
  inversion Hplain; subst. inversion Hset; subst.
  cbn [poll_loop]. rewrite (poll_issue_again _ _ _ _ _ recs) by assumption.
  now apply IH.
Qed.

(** X15.  A sweep run again does nothing.  Over a readable ledger and
    issues whose identifier and title are plain, when the poll command
    answered with a report, the same answer of the tracker handed to the
    command once more (at any later time, whatever the spawn capability
    does) is reported with count zero and leaves the world exactly as the
    first run left it: no line appended, nothing logged, no spawn call. *)
Theorem repeated_sweep_is_a_no_op :
  forall (cfg : PluginConfig) (env env' : Env) (result : json)
         (w w1 : World) (recs : list json) (n : nat),
    ledger_ok (triggers w) recs ->
    Forall plain_issue (polled_issues result) ->
    linear_poll_handler cfg env (Some result) w = (Report n, w1) ->
    linear_poll_handler cfg env' (Some result) w1 = (Report 0, w1).
Proof.
  intros cfg env env' result w w1 recs n Hok Hplain.
  destruct (linear_poll_handler_cases cfg env (Some result) w)
    as [(r & -> & Hr) | (result' & issue & rest & [= <-] & Hteam & Hissues)].
  - intros [= -> _]. now destruct (Hr n).
  - rewrite !(linear_poll_handler_sweep _ _ _ _ _ _ Hteam Hissues).
    rewrite Hissues in Hplain.
    destruct (poll_loop env 0 (issue :: rest) (0, w)) as [w' | [c w']] eqn:Hloop;
      [discriminate|].
    destruct (map_result report_line (issue :: rest)); [|discriminate].
    intros [= <- <-].
    destruct (poll_loop_first _ _ _ _ _ _ _ _ Hok Hplain Hloop)
      as (recs' & Hok' & _ & Hset).
    now rewrite (poll_loop_again env' _ recs' w' Hok' Hplain Hset).
Qed.

Lemma repeated_sweep_is_a_no_op_witness :
  linear_poll_handler team_config quiet_env (Some two_ready_issues)
    (snd (linear_poll_handler team_config eager_env (Some two_ready_issues)
            empty_world))
  = (Report 0,
     snd (linear_poll_handler team_config eager_env (Some two_ready_issues)
            empty_world)).
Proof.
  apply (repeated_sweep_is_a_no_op team_config eager_env quiet_env
           two_ready_issues empty_world _ [] 2).
  - apply empty_ledger_ok. now left.
  - vm_compute. repeat constructor.
  - vm_compute. reflexivity.
Defined.

(** ** Nothing is taken back *)

Lemma grows_refl (w : World) : grows w w.
Proof.
  split; [now exists []|].
  split; [exists []|split; exists []]; now rewrite app_nil_r.
Qed.

Lemma grows_trans (a b c : World) : grows a b -> grows b c -> grows a c.
Proof.
  intros ([l1 H1] & [e1 H2] & [g1 H3] & [s1 H4])
         ([l2 K1] & [e2 K2] & [g2 K3] & [s2 K4]).
  split; [exists (l1 ++ l2)|split; [exists (e1 ++ e2)|split;
          [exists (g1 ++ g2)|exists (s1 ++ s2)]]].
  - rewrite K1, H1. unfold append_lines. now rewrite fold_left_app.
  - now rewrite K2, H2, app_assoc.
  - now rewrite K3, H3, app_assoc.
  - now rewrite K4, H4, app_assoc.
Qed.

Lemma grows_log (l : log_line) (w : World) : grows w (log l w).
Proof.
  split; [now exists []|].
  split; [exists []; cbn; now rewrite app_nil_r|].
  split; [now exists [l]|]. exists []. cbn. now rewrite app_nil_r.
Qed.

Lemma grows_logEvent (ev : StateChange) (w : World) : grows w (logEvent ev w).
Proof.
  split; [now exists []|].
  split; [now exists [ev]|].
  split; exists []; cbn; now rewrite app_nil_r.
Qed.

Lemma grows_record_spawn (r : SpawnRequest) (w : World) :
  grows w (record_spawn r w).
Proof.
  split; [now exists []|].
  split; [exists []; cbn; now rewrite app_nil_r|].
  split; [exists []; cbn; now rewrite app_nil_r|]. now exists [r].
Qed.

Lemma grows_write (w : World) (e : TriggerInput) (b : bool) (f : file) :
  writeTrigger (triggers w) e = Ok (b, f) -> grows w (set_triggers f w).
Proof.
  intros H. destruct (writeTrigger_file _ _ _ _ H) as [[_ ->] | [_ ->]].
  - rewrite set_triggers_same. apply grows_refl.
  - split; [now exists [pending_line e]|].
    split; [|split]; exists []; cbn; now rewrite app_nil_r.
Qed.

Lemma grows_attempt_spawn (env : Env) (issue title : jsval)
      (story : option jsstring) (w : World) :
  grows w (attempt_spawn env issue title story w).
Proof.
  unfold attempt_spawn. destruct (sessions env) as [spawn|]; [|apply grows_refl].
  destruct (val_to_string issue) as [i|]; [|apply grows_log].
  destruct (val_to_string title) as [t|]; [|apply grows_log].
  destruct (spawn _ _) as [[|]|];
    try (eapply grows_trans; [apply grows_record_spawn | apply grows_log]).
  apply grows_record_spawn.
Qed.

Lemma grows_process_payload (cfg : PluginConfig) (env : Env)
      (payload : json) (w : World) :
  grows w (process_payload cfg env payload w).
Proof.
  unfold process_payload.
  destruct (is_issue_update payload); [|apply grows_refl].
  destruct (has_previous_state payload); [|apply grows_refl].
  destruct (team_matches cfg payload); [|apply grows_refl].
  cbn [negb].
  destruct (state_label_lookup (payload_new_state payload)) as [[]|];
    [|apply grows_log].
  destruct (val_to_string (payload_issue_id payload)); [|apply grows_log].
  set (w2 := if logEvents cfg then _ else _).
  assert (H2 : grows w w2).
  { unfold w2. destruct (logEvents cfg); [|apply grows_log].
    eapply grows_trans; [apply grows_log | apply grows_logEvent]. }
  destruct (strict_eq _ _); [|exact H2].
  destruct (extractStoryFilePath _) as [story|];
    [|eapply grows_trans; [exact H2 | apply grows_log]].
  destruct (writeTrigger (triggers w2) (webhook_entry cfg env payload story))
    as [[written f]|] eqn:Hw;
    [|eapply grows_trans; [exact H2 | apply grows_log]].
  eapply grows_trans; [exact H2|].
  eapply grows_trans; [exact (grows_write _ _ _ _ Hw)|].
  eapply grows_trans; [apply grows_log | apply grows_attempt_spawn].
Qed.

Lemma grows_poll_issue (env : Env) (n : nat) (issue : json)
      (count : nat) (w : World) :
  match poll_issue env n issue (count, w) with
  | inl w' => grows w w'
  | inr (_, w') => grows w w'
  end.
Proof.
  destruct issue eqn:Hi; [exact (grows_refl w)| | | | |];
    (rewrite <- Hi;
     rewrite poll_issue_nonnull by (rewrite Hi; discriminate);
     clear Hi;
     (destruct (is_ready issue); [|apply grows_refl]);
     unfold poll_ready_issue;
     (destruct (extractStoryFilePath _) as [story|]; [|apply grows_refl]);
     (destruct (writeTrigger (triggers w) (poll_entry env n issue story))
        as [[[|] f]|] eqn:Hw; [| |apply grows_refl]);
     [ destruct (val_to_string (prop issue (lit "identifier")));
       [ eapply grows_trans; [exact (grows_write _ _ _ _ Hw)|];
         eapply grows_trans; [apply grows_log | apply grows_attempt_spawn]
       | exact (grows_write _ _ _ _ Hw) ]
     | exact (grows_write _ _ _ _ Hw) ]).
Qed.

Lemma grows_poll_loop (env : Env) (issues : list json) :
  forall (n count : nat) (w : World),
    match poll_loop env n issues (count, w) with
    | inl w' => grows w w'
    | inr (_, w') => grows w w'
    end.
Proof.
  induction issues as [|issue rest IH]; intros n count w;
    [apply grows_refl|].
  cbn [poll_loop].
  pose proof (grows_poll_issue env n issue count w) as Hstep.
  destruct (poll_issue env n issue (count, w)) as [w1 | [c1 w1]];
    [exact Hstep|].
  specialize (IH (S n) c1 w1).
  destruct (poll_loop env (S n) rest (c1, w1)) as [w2 | [c2 w2]];
    eapply grows_trans; eassumption.
Qed.

(** X16.  Nothing is taken back.  Whatever the request, the webhook route
    leaves the ledger, the event log, the logger and the list of spawn
    calls as they were with something appended, and so does the poll
    command on every answer of the tracker: no handler truncates or
    rewrites the ledger, so no record ever changes its status. *)
Theorem handlers_only_append :
  forall (cfg : PluginConfig) (env : Env) (w : World),
    (forall req, grows w (snd (webhook_handler cfg env req w)))
    /\ (forall response, grows w (snd (linear_poll_handler cfg env response w))).
Proof.
  intros cfg env w. split.
  - intros req. unfold webhook_handler.
    destruct (negb (str_eqb (method req) (lit "POST"))); [apply grows_refl|].
    destruct (_ && _); [apply grows_log|].
    cbn [snd]. unfold process_body.
    destruct (JSON_parse (rawBody req)) as [[| | | | |]|];
      try apply grows_process_payload; apply grows_log.
  - intros response.
    destruct (linear_poll_handler_cases cfg env response w)
      as [(r & -> & Hr) | (result & issue & rest & -> & Hteam & Hissues)].
    + apply grows_refl.
    + rewrite (linear_poll_handler_sweep _ _ _ _ _ _ Hteam Hissues).
      pose proof (grows_poll_loop env (issue :: rest) 0 0 w) as Hloop.
      destruct (poll_loop env 0 (issue :: rest) (0, w)) as [w1 | [c1 w1]];
        [exact Hloop|].
      destruct (map_result report_line (issue :: rest)); exact Hloop.
Qed.

(** ** Dispatch failures *)

Lemma map_result_ok {A B} (f : A -> result B) (xs : list A) (y : B) :
  Forall (fun x => f x = Ok y) xs -> exists ys, map_result f xs = Ok ys.
Proof.
  induction 1 as [|x xs Hx _ [ys IH]]; [now exists []|].
  cbn [map_result]. rewrite Hx, IH. cbn [bind]. eauto.
Qed.

(** One turn of the loop on an issue it can deal with: it goes on to the
    next issue, the ledger stays well formed and covers the issue, and the
    spawn capability, when there is one, is called exactly when the count
    goes up, whatever it answers. *)
Lemma poll_issue_sweepable (env : Env) (n : nat) (issue : json)
      (count : nat) (w : World) (recs : list json) :
  ledger_ok (triggers w) recs -> sweepable issue ->
  exists count' w' recs',
    poll_issue env n issue (count, w) = inr (count', w')
    /\ ledger_ok (triggers w') recs'
    /\ (forall id, active_count id recs <= active_count id recs')
    /\ settled recs' issue
    /\ (sessions env <> None ->
        length (spawns w') + count = length (spawns w) + count').
Proof.
  intros Hok (Hnn & Hplain & Hdesc & _).
  assert (Hfirst : forall count' w',
            poll_issue env n issue (count, w) = inr (count', w') ->
            (sessions env <> None ->
             length (spawns w') + count = length (spawns w) + count') ->
            exists count' w' recs',
              poll_issue env n issue (count, w) = inr (count', w')
              /\ ledger_ok (triggers w') recs'
              /\ (forall id, active_count id recs <= active_count id recs')
              /\ settled recs' issue
              /\ (sessions env <> None ->
                  length (spawns w') + count = length (spawns w) + count')).
  { intros count' w' Heq Hsp.
    destruct (poll_issue_first _ _ _ _ _ _ _ _ Hok Hplain Heq)
      as (recs' & Hok' & Hm & Hs).
    exists count', w', recs'. auto. }
  rewrite (poll_issue_nonnull _ _ _ _ _ Hnn) in *.
  destruct (is_ready issue); [|now apply (Hfirst count w)].
  unfold poll_ready_issue in *.
  destruct (extract_typed _ Hdesc) as [story Hx]. rewrite Hx in *.
  assert (Hin : plain_input (poll_entry env n issue story))
    by (destruct Hplain; split; assumption).
  destruct (writeTrigger_step _ _ _ Hok Hin) as [[_ Hw] | (_ & Hw & _)];
    rewrite Hw in *.
  - apply (Hfirst count (set_triggers (triggers w) w)); [reflexivity|].
    now rewrite set_triggers_same.
  - destruct Hplain as [Hid Htitle].
    destruct (val_to_string_simple _ Hid) as [i Hi].
    destruct (val_to_string_simple _ Htitle) as [t Ht].
    rewrite Hi in *.
    eapply Hfirst; [reflexivity|].
    intros Hs. unfold attempt_spawn.
    destruct (sessions env) as [spawn|]; [|contradiction].
    rewrite Hi, Ht.
    destruct (spawn _ _) as [[|]|];
      cbn [spawns log record_spawn set_triggers]; rewrite length_app;
      cbn [length]; lia.
Qed.

Lemma poll_loop_sweepable (env : Env) (issues : list json) :
  forall (n count : nat) (w : World) (recs : list json),
    ledger_ok (triggers w) recs -> Forall sweepable issues ->
    exists count' w' recs',
      poll_loop env n issues (count, w) = inr (count', w')
      /\ ledger_ok (triggers w') recs'
      /\ (forall id, active_count id recs <= active_count id recs')
      /\ Forall (settled recs') issues
      /\ (sessions env <> None ->
          length (spawns w') + count = length (spawns w) + count').
Proof.
  induction issues as [|issue rest IH]; intros n count w recs Hok Hall.
  - exists count, w, recs. cbn [poll_loop]. auto.
  - inversion Hall as [|? ? Hi Hrest]; subst.
    destruct (poll_issue_sweepable env n issue count w recs Hok Hi)
      as (c1 & w1 & recs1 & Heq & Hok1 & Hm1 & Hs1 & Hsp1).
    destruct (IH (S n) c1 w1 recs1 Hok1 Hrest)
      as (c2 & w2 & recs2 & Heq2 & Hok2 & Hm2 & Hs2 & Hsp2).
    exists c2, w2, recs2. cbn [poll_loop]. rewrite Heq.
    split; [exact Heq2|]. split; [exact Hok2|]. split; [|split].
    + intros id. specialize (Hm1 id). specialize (Hm2 id). lia.
    + constructor; [exact (settled_mono _ _ _ Hm2 Hs1) | exact Hs2].
    + intros Hs. specialize (Hsp1 Hs). specialize (Hsp2 Hs). lia.
Qed.

(** C7.  A direct dispatch that throws is caught: the attempt logs that
    the spawn is unavailable and returns, with the ledger as it was, so the
    admitted record stays pending.  Neither the answer of a handler nor the
    ledger it leaves depends on what the spawn capability does, and all the
    webhook route does to the ledger is to append a pending line.  And a sweep
    goes through all its issues whatever the spawn capability does, one that
    throws at every call included: over a well-formed ledger and issues the
    command can deal with, it answers with the report, every issue in the
    ready state ends with a pending or spawned record in the ledger, the
    records appended are pending ones and are as many as the count, and the
    spawn capability is called once for each of them. *)
Theorem dispatch_failure_is_swallowed :
  (forall env spawn issue title story w i t,
     sessions env = Some spawn ->
     val_to_string issue = Ok i -> val_to_string title = Ok t ->
     spawn (length (spawns w))
           {| spawn_issue := i; spawn_title := t; spawn_story := story |}
     = Rejected ->
     attempt_spawn env issue title story w
     = log (InfoSpawnUnavailable issue)
           (record_spawn
              {| spawn_issue := i; spawn_title := t; spawn_story := story |} w)
     /\ triggers (attempt_spawn env issue title story w) = triggers w)
  /\ (forall cfg env s req w,
        fst (webhook_handler cfg (with_sessions s env) req w)
        = fst (webhook_handler cfg env req w)
        /\ triggers (snd (webhook_handler cfg (with_sessions s env) req w))
           = triggers (snd (webhook_handler cfg env req w))
        /\ (triggers (snd (webhook_handler cfg env req w)) = triggers w
            \/ exists e,
                 triggers (snd (webhook_handler cfg env req w))
                 = appendFile (triggers w) (pending_line e)))
  /\ (forall cfg env s response w,
        fst (linear_poll_handler cfg (with_sessions s env) response w)
        = fst (linear_poll_handler cfg env response w)
        /\ triggers (snd (linear_poll_handler cfg (with_sessions s env) response w))
           = triggers (snd (linear_poll_handler cfg env response w)))
  /\ (forall cfg env result w recs,
        teamId cfg <> [] ->
        polled_issues result <> [] ->
        Forall sweepable (polled_issues result) ->
        ledger_ok (triggers w) recs ->
        exists n w' recs' es,
          linear_poll_handler cfg env (Some result) w = (Report n, w')
          /\ ledger_ok (triggers w') recs'
          /\ Forall (settled recs') (polled_issues result)
          /\ poll_appended w w' es
          /\ n = length es
          /\ (sessions env <> None ->
              length (spawns w') = length (spawns w) + n)).
Proof.
  split; [|split; [|split]].
  - intros env spawn issue title story w i t Hs Hi Ht Hr.
    split; [|apply triggers_attempt_spawn].
    unfold attempt_spawn. now rewrite Hs, Hi, Ht, Hr.
  - intros cfg env s req w. unfold webhook_handler.
    destruct (negb (str_eqb (method req) (lit "POST")));
      [split; [reflexivity|]; split; [reflexivity | now left]|].
    destruct (_ && _); [split; [reflexivity|]; split; [reflexivity | now left]|].
    cbn [fst snd]. split; [reflexivity|].
    unfold process_body.
    destruct (JSON_parse (rawBody req)) as [payload|];
      [|split; [reflexivity | now left]].
    assert (Hledger : forall p,
              triggers (process_payload cfg env p w) = triggers w
              \/ exists e, triggers (process_payload cfg env p w)
                           = appendFile (triggers w) (pending_line e)).
    { intros p.
      destruct (process_payload_ledger cfg env p w) as [H | (story & _ & _ & H)];
        [now left | right; eauto]. }
    destruct payload;
      try (split; [apply process_payload_sessions | apply Hledger]).
    split; [reflexivity | now left].
  - intros cfg env s response w. unfold linear_poll_handler.
    destruct (str_falsy (teamId cfg)); [now split|].
    destruct response as [result|]; [|now split].
    destruct (coalesce _ _) as [v|]; [|now split].
    destruct (length_is_zero v); [now split|].
    destruct v as [| b | m e | str | issues | kvs]; try now split.
    pose proof (poll_loop_same (with_sessions s env) env eq_refl issues
                  0 0 w w eq_refl) as Hs.
    destruct (poll_loop (with_sessions s env) 0 issues (0, w)) as [a|[c1 a]],
             (poll_loop env 0 issues (0, w)) as [b|[c2 b]];
      simpl in Hs; try contradiction.
    + now split.
    + destruct Hs as [<- Hs].
      destruct (map_result report_line issues); now split.
  - intros cfg env result w recs Hteam Hne Hall Hok.
    destruct (polled_issues result) as [|issue rest] eqn:Hissues; [contradiction|].
    rewrite (linear_poll_handler_sweep _ _ _ _ _ _ Hteam Hissues).
    destruct (poll_loop_sweepable env (issue :: rest) 0 0 w recs Hok Hall)
      as (n & w' & recs' & Heq & Hok' & _ & Hset & Hsp).
    pose proof (poll_loop_appended env (issue :: rest) 0 0 w) as Happ.
    rewrite Heq in *. destruct Happ as (es & Hes & Hn).
    destruct (map_result_ok report_line (issue :: rest) tt) as [lines Hlines].
    { eapply Forall_impl; [|exact Hall]. intros x Hx. apply Hx. }
    rewrite Hlines. exists n, w', recs', es.
    split; [reflexivity|]. split; [exact Hok'|]. split; [exact Hset|].
    split; [exact Hes|]. split; [exact Hn|].
    intros Hs. specialize (Hsp Hs). lia.
Qed.

Lemma dispatch_failure_is_swallowed_witness :
  (attempt_spawn failing_env (jstr (lit "CRU-123")) (jstr (lit "Test issue")) None
     empty_world
   = log (InfoSpawnUnavailable (jstr (lit "CRU-123")))
         (record_spawn
            {| spawn_issue := lit "CRU-123"; spawn_title := lit "Test issue";
               spawn_story := None |} empty_world)
   /\ triggers (attempt_spawn failing_env (jstr (lit "CRU-123"))
                              (jstr (lit "Test issue")) None empty_world)
      = triggers empty_world)
  /\ exists n w' recs' es,
       linear_poll_handler team_config failing_env (Some two_ready_issues)
         empty_world = (Report n, w')
       /\ ledger_ok (triggers w') recs'
       /\ Forall (settled recs') (polled_issues two_ready_issues)
       /\ poll_appended empty_world w' es
       /\ n = length es
       /\ (sessions failing_env <> None ->
           length (spawns w') = length (spawns empty_world) + n).
Proof.
  split.
  - refine (proj1 dispatch_failure_is_swallowed
                  failing_env (fun _ _ => Rejected) _ _ None empty_world _ _ _ _ _ _);
      reflexivity.
  - refine (proj2 (proj2 (proj2 dispatch_failure_is_swallowed))
                  team_config failing_env two_ready_issues empty_world [] _ _ _ _).
    + discriminate.
    + vm_compute. discriminate.
    + let l := eval vm_compute in (polled_issues two_ready_issues) in
      change (polled_issues two_ready_issues) with l.
      apply Forall_cons; [|apply Forall_cons; [|apply Forall_nil]];
        (split; [discriminate|]; split; [split; exact I|];
         split; [left; reflexivity | vm_compute; reflexivity]).
    + apply empty_ledger_ok. now left.
Defined.

(** A sweep over two issues in the ready state with a spawn that always
    throws: both are admitted and reported. *)
Example poll_continues_after_failed_dispatch :
  let r := linear_poll_handler team_config failing_env (Some two_ready_issues) empty_world in
  fst r = Report 2
  /\ logger (snd r)
     = [InfoTriggerWritten poll (jstr (lit "CRU-1"));
        InfoSpawnUnavailable (jstr (lit "CRU-1"));
        InfoTriggerWritten poll (jstr (lit "CRU-2"));
        InfoSpawnUnavailable (jstr (lit "CRU-2"))]
  /\ exists r1 r2,
       readTriggerLog (triggers (snd r)) = Ok [r1; r2]
       /\ prop r1 (lit "status") = jstr (lit "pending")
       /\ prop r2 (lit "status") = jstr (lit "pending").
Proof.
  vm_compute. split; [reflexivity|]. split; [reflexivity|].
  do 2 eexists. repeat split.
Qed.
